(** * Quota, capacity and check-in engine of the event access-management server

  A shallow embedding of [server/routes.ts], [server/storage.ts] and
  [shared/schema.ts]: the tables of the relational store are lists of rows,
  every [DatabaseStorage] method is a function on the store, and every route
  handler is a program whose [await]s are explicit, so that it can be run
  alone or interleaved with other requests. *)

From Stdlib Require Import String Ascii List ZArith Bool Lia PeanoNat.
From Stdlib Require Import Strings.Byte DecimalString.
Import ListNotations.

Open Scope string_scope.
Open Scope Z_scope.

Set Implicit Arguments.

(** ** JavaScript values as the handlers test them

    A string is the UTF-8 bytes of a JavaScript string.  The strings of
    requests are taken without the character U+0000, which the database
    takes neither in a text value nor in a query parameter. *)

Module Js.

(** A string-or-undefined request field. *)
Definition truthy_string (s : option string) : bool :=
  match s with
  | Some s => negb (String.eqb s "")
  | None => false
  end.

(** A nullable boolean column: [null] and [false] are both falsy. *)
Definition truthy_bool (b : option bool) : bool :=
  match b with
  | Some b => b
  | None => false
  end.

(** A nullable integer column: [null] and [0] are both falsy. *)
Definition truthy_int (n : option Z) : bool :=
  match n with
  | Some n => negb (n =? 0)
  | None => false
  end.

(** [x || d] on numbers. *)
Definition or_int (n : option Z) (d : Z) : Z :=
  if truthy_int n then match n with Some n => n | None => d end else d.

(** [x || d] on strings. *)
Definition or_string (s : option string) (d : string) : string :=
  if truthy_string s then match s with Some s => s | None => d end else d.

(** [a === b] on two nullable strings. *)
Definition option_string_eqb (a b : option string) : bool :=
  match a, b with
  | Some a, Some b => String.eqb a b
  | None, None => true
  | _, _ => false
  end.

(** The string is made of ASCII characters. *)
Definition is_ascii (s : string) : bool :=
  forallb (fun c => (nat_of_ascii c <? 128)%nat) (list_ascii_of_string s).

Definition upper_ascii (c : ascii) : ascii :=
  let n := nat_of_ascii c in
  if (97 <=? n)%nat && (n <=? 122)%nat then ascii_of_nat (n - 32) else c.

(** [s.toUpperCase()] of a string of ASCII characters, which is what the
    access codes are.  Outside ASCII the result is that of the Unicode case
    tables, which are not part of this development: [is_ascii] marks the
    strings on which this function is [toUpperCase]. *)
Fixpoint toUpperCase (s : string) : string :=
  match s with
  | EmptyString => EmptyString
  | String c s' => String (upper_ascii c) (toUpperCase s')
  end.

(** The white space and line terminators of ECMAScript, by the length of
    their encoding: TAB, LF, VT, FF, CR and SP; *)
Definition is_blank (c : ascii) : bool :=
  let n := nat_of_ascii c in
  (n =? 32)%nat || ((9 <=? n)%nat && (n <=? 13)%nat).

(** U+00A0; *)
Definition is_blank2 (c1 c2 : ascii) : bool :=
  (nat_of_ascii c1 =? 194)%nat && (nat_of_ascii c2 =? 160)%nat.

(** U+1680, U+2000 to U+200A, U+2028, U+2029, U+202F, U+205F, U+3000 and
    U+FEFF. *)
Definition is_blank3 (c1 c2 c3 : ascii) : bool :=
  let a := nat_of_ascii c1 in
  let b := nat_of_ascii c2 in
  let c := nat_of_ascii c3 in
  ((a =? 225) && (b =? 154) && (c =? 128))%nat
  || ((a =? 226) && (b =? 128)
      && (((128 <=? c) && (c <=? 138)) || (c =? 168) || (c =? 169) || (c =? 175)))%nat
  || ((a =? 226) && (b =? 129) && (c =? 159))%nat
  || ((a =? 227) && (b =? 128) && (c =? 128))%nat
  || ((a =? 239) && (b =? 187) && (c =? 191))%nat.

(** [s.trimStart()]; with [backwards], on the reversed bytes of [s]. *)
Fixpoint strip (backwards : bool) (s : string) : string :=
  match s with
  | EmptyString => EmptyString
  | String c1 s1 =>
      if is_blank c1 then strip backwards s1
      else
        match s1 with
        | EmptyString => s
        | String c2 s2 =>
            if (if backwards then is_blank2 c2 c1 else is_blank2 c1 c2)
            then strip backwards s2
            else
              match s2 with
              | EmptyString => s
              | String c3 s3 =>
                  if (if backwards then is_blank3 c3 c2 c1 else is_blank3 c1 c2 c3)
                  then strip backwards s3
                  else s
              end
        end
  end.

Definition trimStart (s : string) : string := strip false s.

Fixpoint rev_string (s acc : string) : string :=
  match s with
  | EmptyString => acc
  | String c s' => rev_string s' (String c acc)
  end.

(** [s.trim()] *)
Definition trim (s : string) : string :=
  rev_string (strip true (rev_string (trimStart s) "")) "".

(** A JSON number, as far as a [z.number()] check and an integer column
    tell numbers apart: an integer, or a finite number with a fractional
    part, of which the integer below it is kept. *)
Inductive Number :=
| whole (n : Z)
| fractional (floor : Z).


End Js.

(** ** The schema: one record per table of [shared/schema.ts] *)

Module Schema.

Inductive UserRole := super_admin | admin | event_manager | organizer.

Inductive GuestCategory := vip | regular | media | sponsor.

Definition role_eqb (a b : UserRole) : bool :=
  match a, b with
  | super_admin, super_admin | admin, admin
  | event_manager, event_manager | organizer, organizer => true
  | _, _ => false
  end.

(** Timestamps are instants on the server clock. *)
Definition Timestamp := Z.

Record User := mkUser {
  user_id : string;
  username : string;
  password : string;
  user_name : string;
  role : UserRole;
  createdById : option string;
  eventQuota : option Z;
  user_isActive : option bool;
  user_createdAt : option Timestamp
}.

Record Event := mkEvent {
  event_id : string;
  event_name : string;
  description : option string;
  date : Timestamp;
  location : option string;
  startTime : option string;
  endTime : option string;
  eventManagerId : string;
  event_capacityTierId : option string;
  event_isActive : option bool;
  event_createdAt : option Timestamp
}.

Record Guest := mkGuest {
  guest_id : string;
  guest_eventId : string;
  guest_name : string;
  phone : option string;
  category : option GuestCategory;
  companions : option Z;
  notes : option string;
  qrCode : string;
  isCheckedIn : option bool;
  checkedInAt : option Timestamp;
  checkedInBy : option string;
  guest_createdAt : option Timestamp
}.

Record EventOrganizer := mkEventOrganizer {
  assignment_id : string;
  assignment_eventId : string;
  organizerId : string;
  assignedAt : option Timestamp
}.

Record AuditLog := mkAuditLog {
  log_id : string;
  log_eventId : option string;
  log_userId : string;
  action : string;
  details : option string;
  log_guestId : option string;
  timestamp : option Timestamp
}.

Record CapacityTier := mkCapacityTier {
  tier_id : string;
  tier_name : string;
  minGuests : Z;
  maxGuests : option Z;
  isUnlimited : option bool;
  tier_isActive : option bool;
  sortOrder : option Z;
  tier_createdAt : option Timestamp
}.

Record UserTierQuota := mkUserTierQuota {
  quota_id : string;
  quota_userId : string;
  quota_capacityTierId : string;
  quota : Z;
  quota_createdAt : option Timestamp;
  quota_updatedAt : option Timestamp
}.

(** The rows an insert supplies; the store fills in the defaults. *)
Record InsertEvent := mkInsertEvent {
  ie_name : string;
  ie_description : option string;
  ie_date : option Timestamp;   (* [None]: an [Invalid Date], which the driver refuses *)
  ie_location : option string;
  ie_startTime : option string;
  ie_endTime : option string;
  ie_eventManagerId : string;
  ie_capacityTierId : option string;
  ie_isActive : option bool
}.

Record InsertGuest := mkInsertGuest {
  ig_eventId : string;
  ig_name : string;
  ig_phone : option string;
  ig_category : option string;  (* the text offered to the enum column *)
  ig_companions : option Z;
  ig_notes : option string;
  ig_qrCode : string
}.

Record InsertAuditLog := mkInsertAuditLog {
  il_eventId : option string;
  il_userId : string;
  il_action : string;
  il_details : option string;
  il_guestId : option string
}.

(** What [tierSchema] lets through: its numbers are [z.number()]s, which
    need not be integers. *)
Record InsertCapacityTier := mkInsertCapacityTier {
  it_name : string;
  it_minGuests : Js.Number;
  it_maxGuests : option Js.Number;
  it_isUnlimited : option bool;
  it_isActive : option bool;
  it_sortOrder : option Js.Number
}.

(** [Partial<InsertCapacityTier>], as [req.body] gives it: [None] leaves
    the column alone. *)
Record PartialCapacityTier := mkPartialCapacityTier {
  pt_name : option string;
  pt_minGuests : option Js.Number;
  pt_maxGuests : option (option Js.Number);
  pt_isUnlimited : option (option bool);
  pt_isActive : option (option bool);
  pt_sortOrder : option (option Js.Number)
}.

(** The values of an update once each fits its column. *)
Record TierColumns := mkTierColumns {
  set_name : option string;
  set_minGuests : option Z;
  set_maxGuests : option (option Z);
  set_isUnlimited : option (option bool);
  set_isActive : option (option bool);
  set_sortOrder : option (option Z)
}.

End Schema.

(** ** The persistent store and [DatabaseStorage] *)

Module Storage.
Import Schema.

(** The tables, together with what the database draws from outside: the
    clock behind [new Date()] and [defaultNow()], and the stream behind
    [gen_random_uuid()].  A table is the list of its rows in the order of
    their insertion, an update keeping a row in its place; a select without
    [orderBy] gives the rows in that order, where the database promises
    none. *)
Record World := mkWorld {
  users : list User;
  events : list Event;
  guests : list Guest;
  eventOrganizers : list EventOrganizer;
  auditLogs : list AuditLog;
  capacityTiers : list CapacityTier;
  userTierQuotas : list UserTierQuota;
  clock : Timestamp;
  gen_random_uuid : nat -> string;
  drawn : nat
}.

Definition fresh_id (w : World) : string := gen_random_uuid w (drawn w).

Definition set_events (w : World) (es : list Event) (n : nat) : World :=
  mkWorld (users w) es (guests w) (eventOrganizers w) (auditLogs w)
          (capacityTiers w) (userTierQuotas w) (clock w) (gen_random_uuid w) n.

Definition set_guests (w : World) (gs : list Guest) (n : nat) : World :=
  mkWorld (users w) (events w) gs (eventOrganizers w) (auditLogs w)
          (capacityTiers w) (userTierQuotas w) (clock w) (gen_random_uuid w) n.

Definition set_auditLogs (w : World) (ls : list AuditLog) (n : nat) : World :=
  mkWorld (users w) (events w) (guests w) (eventOrganizers w) ls
          (capacityTiers w) (userTierQuotas w) (clock w) (gen_random_uuid w) n.

Definition set_capacityTiers (w : World) (ts : list CapacityTier) (n : nat) : World :=
  mkWorld (users w) (events w) (guests w) (eventOrganizers w) (auditLogs w)
          ts (userTierQuotas w) (clock w) (gen_random_uuid w) n.

Definition set_userTierQuotas (w : World) (qs : list UserTierQuota) (n : nat) : World :=
  mkWorld (users w) (events w) (guests w) (eventOrganizers w) (auditLogs w)
          (capacityTiers w) qs (clock w) (gen_random_uuid w) n.

(** The clock moves between requests, never inside a statement. *)
Definition set_clock (w : World) (t : Timestamp) : World :=
  mkWorld (users w) (events w) (guests w) (eventOrganizers w) (auditLogs w)
          (capacityTiers w) (userTierQuotas w) t (gen_random_uuid w) (drawn w).

(** *** Columns

    A statement that offers a column a value it cannot hold fails: the
    driver throws, and nothing is written. *)

(** An [integer] column holds 32 bits. *)
Definition int4 (n : Z) : bool :=
  (-2147483648 <=? n) && (n <=? 2147483647).

(** What an [integer] column stores of a number. *)
Definition integer (x : Js.Number) : option Z :=
  match x with
  | Js.whole n => if int4 n then Some n else None
  | Js.fractional _ => None
  end.

(** What a [guest_category] column stores of a text: one of the four
    labels of the enum. *)
Definition guestCategory (label : string) : option GuestCategory :=
  if String.eqb label "vip" then Some vip
  else if String.eqb label "regular" then Some regular
  else if String.eqb label "media" then Some media
  else if String.eqb label "sponsor" then Some sponsor
  else None.

(** A value given or left out, [default] being stored when it is left
    out; the outer [None] is the failure. *)
Definition column {A B : Type} (fit : A -> option B) (default : option B)
           (value : option A) : option (option B) :=
  match value with
  | Some a => option_map (@Some B) (fit a)
  | None => Some default
  end.

(** A nullable [integer] column takes the value: it is left out, [null],
    or fits 32 bits. *)
Definition fits_integer (value : option (option Z)) : bool :=
  match value with
  | Some (Some n) => int4 n
  | _ => true
  end.

(** *** Users *)

Definition getUser (id : string) (w : World) : option User :=
  find (fun u => String.eqb (user_id u) id) (users w).

(** *** Events *)

Definition getEvent (id : string) (w : World) : option Event :=
  find (fun e => String.eqb (event_id e) id) (events w).

(** The insert fails (the driver throws) on an [Invalid Date]. *)
Definition createEvent (e : InsertEvent) (w : World) : option Event * World :=
  match ie_date e with
  | None => (None, w)
  | Some d =>
      let row :=
        mkEvent (fresh_id w) (ie_name e) (ie_description e) d (ie_location e)
                (ie_startTime e) (ie_endTime e) (ie_eventManagerId e)
                (ie_capacityTierId e)
                (match ie_isActive e with Some b => Some b | None => Some true end)
                (Some (clock w)) in
      (Some row, set_events w (events w ++ [row]) (S (drawn w)))
  end.

(** *** Guests *)

Definition getGuest (id : string) (w : World) : option Guest :=
  find (fun g => String.eqb (guest_id g) id) (guests w).

Definition getGuestByQrCode (code : string) (w : World) : option Guest :=
  find (fun g => String.eqb (qrCode g) code) (guests w).

Definition getGuestsByEvent (eventId : string) (w : World) : list Guest :=
  filter (fun g => String.eqb (guest_eventId g) eventId) (guests w).

(** The row of a record, [category] defaulting to ['regular'] and
    [companions] to [0]; [None] when the category is no label of the enum or
    the companions do not fit 32 bits. *)
Definition new_guest (g : InsertGuest) (w : World) : option Guest :=
  match column guestCategory (Some regular) (ig_category g),
        column (fun n => if int4 n then Some n else None) (Some 0)
               (ig_companions g) with
  | Some category, Some companions =>
      Some (mkGuest (fresh_id w) (ig_eventId g) (ig_name g) (ig_phone g) category
                    companions (ig_notes g) (ig_qrCode g)
                    (Some false) None None (Some (clock w)))
  | _, _ => None
  end.

(** [qr_code] is [unique()]: an insert of a code already stored fails. *)
Definition code_taken (code : string) (w : World) : bool :=
  existsb (fun g => String.eqb (qrCode g) code) (guests w).

Definition createGuest (g : InsertGuest) (w : World) : option Guest * World :=
  match new_guest g w with
  | Some row =>
      if code_taken (ig_qrCode g) w then (None, w)
      else (Some row, set_guests w (guests w ++ [row]) (S (drawn w)))
  | None => (None, w)
  end.

(** One multi-row insert: every row goes in, or none does. *)
Fixpoint insert_guests (gs : list InsertGuest) (w : World)
  : option (list Guest * World) :=
  match gs with
  | [] => Some ([], w)
  | g :: rest =>
      match createGuest g w with
      | (None, _) => None
      | (Some row, w') =>
          match insert_guests rest w' with
          | None => None
          | Some (rows, w'') => Some (row :: rows, w'')
          end
      end
  end.

(** The values a record gives the insert: the three columns it must name
    and each of the others that it names. *)
Definition values_of (g : InsertGuest) : Z :=
  3 + (match ig_phone g with Some _ => 1 | None => 0 end)
  + (match ig_category g with Some _ => 1 | None => 0 end)
  + (match ig_companions g with Some _ => 1 | None => 0 end)
  + (match ig_notes g with Some _ => 1 | None => 0 end).

(** The values of a batch are the parameters of its one statement, and a
    statement carries at most 65535. *)
Definition parameters (gs : list InsertGuest) : Z :=
  fold_right (fun g n => values_of g + n) 0 gs.

Definition createGuests (gs : list InsertGuest) (w : World)
  : option (list Guest) * World :=
  match gs with
  | [] => (Some [], w)
  | _ :: _ =>
      if 65535 <? parameters gs then (None, w)
      else
        match insert_guests gs w with
        | None => (None, w)
        | Some (rows, w') => (Some rows, w')
        end
  end.

Definition stamp_check_in (id organizerId : string) (now : Timestamp) (g : Guest)
  : Guest :=
  if String.eqb (guest_id g) id then
    mkGuest (guest_id g) (guest_eventId g) (guest_name g) (phone g) (category g)
            (companions g) (notes g) (qrCode g)
            (Some true) (Some now) (Some organizerId) (guest_createdAt g)
  else g.

(** [update guests set ... where id = ?]: keyed on the id alone. *)
Definition checkInGuest (id organizerId : string) (w : World)
  : option Guest * World :=
  let gs := map (stamp_check_in id organizerId (clock w)) (guests w) in
  (find (fun g => String.eqb (guest_id g) id) gs, set_guests w gs (drawn w)).

(** *** Event organizers *)

Fixpoint defined {A : Type} (l : list (option A)) : list A :=
  match l with
  | [] => []
  | Some a :: l' => a :: defined l'
  | None :: l' => defined l'
  end.

Definition is_true (b : option bool) : bool :=
  match b with Some true => true | _ => false end.

Definition getOrganizerEvents (organizer : string) (w : World) : list Event :=
  let assignments :=
    filter (fun a => String.eqb (organizerId a) organizer) (eventOrganizers w) in
  match assignments with
  | [] => []
  | _ :: _ =>
      let eventIds := map assignment_eventId assignments in
      let eventList := map (fun id => getEvent id w) eventIds in
      filter (fun e => is_true (event_isActive e)) (defined eventList)
  end.

(** *** Audit logs *)

Definition createAuditLog (l : InsertAuditLog) (w : World) : AuditLog * World :=
  let row :=
    mkAuditLog (fresh_id w) (il_eventId l) (il_userId l) (il_action l)
               (il_details l) (il_guestId l) (Some (clock w)) in
  (row, set_auditLogs w (auditLogs w ++ [row]) (S (drawn w))).

(** *** Capacity tiers *)

Definition getCapacityTier (id : string) (w : World) : option CapacityTier :=
  find (fun t => String.eqb (tier_id t) id) (capacityTiers w).

(** The insert fails on a number that is no 32-bit integer. *)
Definition createCapacityTier (t : InsertCapacityTier) (w : World)
  : option CapacityTier * World :=
  match integer (it_minGuests t),
        column integer None (it_maxGuests t),
        column integer (Some 0) (it_sortOrder t) with
  | Some minGuests, Some maxGuests, Some sortOrder =>
      let row :=
        mkCapacityTier (fresh_id w) (it_name t) minGuests maxGuests
                       (it_isUnlimited t) (it_isActive t) sortOrder
                       (Some (clock w)) in
      (Some row, set_capacityTiers w (capacityTiers w ++ [row]) (S (drawn w)))
  | _, _, _ => (None, w)
  end.

Definition patch {A : Type} (new : option A) (old : A) : A :=
  match new with Some a => a | None => old end.

Definition apply_tier_patch (id : string) (data : TierColumns)
           (t : CapacityTier) : CapacityTier :=
  if String.eqb (tier_id t) id then
    mkCapacityTier (tier_id t)
                   (patch (set_name data) (tier_name t))
                   (patch (set_minGuests data) (minGuests t))
                   (patch (set_maxGuests data) (maxGuests t))
                   (patch (set_isUnlimited data) (isUnlimited t))
                   (patch (set_isActive data) (tier_isActive t))
                   (patch (set_sortOrder data) (sortOrder t))
                   (tier_createdAt t)
  else t.

(** A number, or [null] for a nullable column. *)
Definition nullable_integer (x : option Js.Number) : option (option Z) :=
  match x with
  | Some x => option_map (@Some Z) (integer x)
  | None => Some None
  end.

(** The values of [data] fitted to their columns; [None] when a number is
    no 32-bit integer. *)
Definition tier_columns (data : PartialCapacityTier) : option TierColumns :=
  match column integer None (pt_minGuests data),
        column nullable_integer None (pt_maxGuests data),
        column nullable_integer None (pt_sortOrder data) with
  | Some minGuests, Some maxGuests, Some sortOrder =>
      Some (mkTierColumns (pt_name data) minGuests maxGuests
                          (pt_isUnlimited data) (pt_isActive data) sortOrder)
  | _, _, _ => None
  end.

(** [set(data)] with no column in [data]: the query builder throws
    "No values to set". *)
Definition no_values (data : PartialCapacityTier) : bool :=
  match pt_name data, pt_minGuests data, pt_maxGuests data,
        pt_isUnlimited data, pt_isActive data, pt_sortOrder data with
  | None, None, None, None, None, None => true
  | _, _, _, _, _, _ => false
  end.

(** The outer [None] is the exception of an update with no column to set
    or with a number that is no 32-bit integer; the inner one the
    [undefined] of an update that met no row. *)
Definition updateCapacityTier (id : string) (data : PartialCapacityTier)
           (w : World) : option (option CapacityTier) * World :=
  if no_values data then (None, w)
  else
    match tier_columns data with
    | None => (None, w)
    | Some columns =>
        let ts := map (apply_tier_patch id columns) (capacityTiers w) in
        (Some (find (fun t => String.eqb (tier_id t) id) ts),
         set_capacityTiers w ts (drawn w))
    end.

(** *** User tier quotas *)

Definition quota_for (userId capacityTierId : string) (q : UserTierQuota) : bool :=
  String.eqb (quota_userId q) userId
  && String.eqb (quota_capacityTierId q) capacityTierId.

Definition getUserTierQuotas (userId : string) (w : World) : list UserTierQuota :=
  filter (fun q => String.eqb (quota_userId q) userId) (userTierQuotas w).

Definition overwrite_quota (userId capacityTierId : string) (n : Z)
           (now : Timestamp) (q : UserTierQuota) : UserTierQuota :=
  if quota_for userId capacityTierId q then
    mkUserTierQuota (quota_id q) (quota_userId q) (quota_capacityTierId q) n
                    (quota_createdAt q) (Some now)
  else q.

(** [setUserTierQuota] is two statements with an [await] between them.
    The first: the rows of the pair. *)
Definition select_quota (userId capacityTierId : string) (w : World)
  : list UserTierQuota :=
  filter (quota_for userId capacityTierId) (userTierQuotas w).

(** The second, chosen by what the first returned: an update of the rows of
    the pair, or an insert of a new row.  The outer [None] is the exception
    of a quota that does not fit 32 bits, the inner one the [undefined] of
    an update that met no row. *)
Definition write_quota (userId capacityTierId : string) (n : Z)
           (existing : list UserTierQuota) (w : World)
  : option (option UserTierQuota) * World :=
  if negb (int4 n) then (None, w)
  else if (0 <? length existing)%nat then
    let qs := map (overwrite_quota userId capacityTierId n (clock w))
                  (userTierQuotas w) in
    (Some (find (quota_for userId capacityTierId) qs),
     set_userTierQuotas w qs (drawn w))
  else
    let row :=
      mkUserTierQuota (fresh_id w) userId capacityTierId n
                      (Some (clock w)) (Some (clock w)) in
    (Some (Some row),
     set_userTierQuotas w (userTierQuotas w ++ [row]) (S (drawn w))).

(** The call with nothing between its two statements. *)
Definition setUserTierQuota (userId capacityTierId : string) (n : Z) (w : World)
  : option (option UserTierQuota) * World :=
  write_quota userId capacityTierId n (select_quota userId capacityTierId w) w.

(** Two calls for one pair in flight together, the second's select
    resolving before the first's write. *)
Definition setUserTierQuota_twice (userId capacityTierId : string)
           (first second : Z) (w : World) : World :=
  let existing1 := select_quota userId capacityTierId w in
  let existing2 := select_quota userId capacityTierId w in
  let w1 := snd (write_quota userId capacityTierId first existing1 w) in
  snd (write_quota userId capacityTierId second existing2 w1).

Definition getEventCountByManagerAndTier (managerId capacityTierId : string)
           (w : World) : Z :=
  Z.of_nat
    (length
       (filter (fun e => String.eqb (eventManagerId e) managerId
                         && Js.option_string_eqb (event_capacityTierId e)
                                                 (Some capacityTierId))
               (events w))).

End Storage.

(** ** Asynchronous programs: a handler is a tree of awaited storage calls *)

Module Async.
Import Schema Storage.

(** The [IStorage] methods the modelled handlers await. *)
Inductive Call : Type -> Type :=
| GetUser (id : string) : Call (option User)
| GetEvent (id : string) : Call (option Event)
| CreateEvent (e : InsertEvent) : Call (option Event)
| GetGuest (id : string) : Call (option Guest)
| GetGuestByQrCode (code : string) : Call (option Guest)
| GetGuestsByEvent (eventId : string) : Call (list Guest)
| CreateGuest (g : InsertGuest) : Call (option Guest)
| CreateGuests (gs : list InsertGuest) : Call (option (list Guest))
| CheckInGuest (id organizerId : string) : Call (option Guest)
| GetOrganizerEvents (organizerId : string) : Call (list Event)
| CreateAuditLog (l : InsertAuditLog) : Call AuditLog
| GetCapacityTier (id : string) : Call (option CapacityTier)
| CreateCapacityTier (t : InsertCapacityTier) : Call (option CapacityTier)
| UpdateCapacityTier (id : string) (data : PartialCapacityTier)
  : Call (option (option CapacityTier))
| GetUserTierQuotas (userId : string) : Call (list UserTierQuota)
| GetEventCountByManagerAndTier (managerId capacityTierId : string) : Call Z.

(** What the store does with one call; [None] from an insert or an update
    is the exception the handler's [catch] turns into a 500. *)
Definition exec {X : Type} (c : Call X) (w : World) : X * World :=
  match c in Call T return T * World with
  | GetUser id => (getUser id w, w)
  | GetEvent id => (getEvent id w, w)
  | CreateEvent e => createEvent e w
  | GetGuest id => (getGuest id w, w)
  | GetGuestByQrCode code => (getGuestByQrCode code w, w)
  | GetGuestsByEvent eventId => (getGuestsByEvent eventId w, w)
  | CreateGuest g => createGuest g w
  | CreateGuests gs => createGuests gs w
  | CheckInGuest id by_ => checkInGuest id by_ w
  | GetOrganizerEvents o => (getOrganizerEvents o w, w)
  | CreateAuditLog l => createAuditLog l w
  | GetCapacityTier id => (getCapacityTier id w, w)
  | CreateCapacityTier t => createCapacityTier t w
  | UpdateCapacityTier id data => updateCapacityTier id data w
  | GetUserTierQuotas u => (getUserTierQuotas u w, w)
  | GetEventCountByManagerAndTier m t => (getEventCountByManagerAndTier m t w, w)
  end.

Inductive Prog (R : Type) : Type :=
| Return (r : R)
| Await (X : Type) (c : Call X) (k : X -> Prog R).

Arguments Return {R} r.
Arguments Await {R X} c k.

(** One request served from start to end with nothing in between. *)
Fixpoint run {R : Type} (p : Prog R) (w : World) : R * World :=
  match p with
  | Return r => (r, w)
  | Await c k => let (x, w') := exec c w in run (k x) w'
  end.

(** One turn of the event loop for one request: up to its next [await]. *)
Definition turn {R : Type} (p : Prog R) (w : World) : Prog R * World :=
  match p with
  | Return r => (Return r, w)
  | Await c k => let (x, w') := exec c w in (k x, w')
  end.

Definition finished {R : Type} (p : Prog R) : option R :=
  match p with
  | Return r => Some r
  | Await _ _ => None
  end.

(** Requests in flight; a schedule names, turn by turn, whose [await]
    resolves next. *)
Fixpoint turn_nth {R : Type} (i : nat) (pool : list (Prog R)) (w : World)
  : list (Prog R) * World :=
  match pool, i with
  | [], _ => ([], w)
  | p :: rest, O => let (p', w') := turn p w in (p' :: rest, w')
  | p :: rest, S j => let (rest', w') := turn_nth j rest w in (p :: rest', w')
  end.

Fixpoint interleave {R : Type} (schedule : list nat) (pool : list (Prog R))
         (w : World) : list (Prog R) * World :=
  match schedule with
  | [] => (pool, w)
  | i :: later => let (pool', w') := turn_nth i pool w in interleave later pool' w'
  end.

(** Requests served one after the other, the clock read before each. *)
Fixpoint serve {R : Type} (requests : list (Timestamp * Prog R)) (w : World)
  : list R * World :=
  match requests with
  | [] => ([], w)
  | (t, p) :: later =>
      let (r, w') := run p (set_clock w t) in
      let (rs, w'') := serve later w' in
      (r :: rs, w'')
  end.

End Async.

Notation "x <- 'await' c ;; k" := (Async.Await c (fun x => k))
(at level 61, c at next level, right associativity).

(** ** The routes of [server/routes.ts] *)

Module Routes.
Import Schema Storage Async.

(** *** Access codes *)

Definition chars : string := "ABCDEFGHJKLMNPQRSTUVWXYZ23456789".

(** [chars[b % chars.length]] appended to a string; an index outside the
    alphabet, or a byte that is not there, would append ["undefined"]. *)
Definition pick (b : option byte) : string :=
  match b with
  | Some b =>
      let i := N.modulo (Byte.to_N b) (N.of_nat (String.length chars)) in
      match String.get (N.to_nat i) chars with
      | Some c => String c EmptyString
      | None => "undefined"
      end
  | None => "undefined"
  end.

Definition slice (from to : nat) (s : string) : string :=
  String.substring from (to - from) s.

(** [bytes] is what [randomBytes(12)] returned. *)
Definition generateAccessCode (bytes : list byte) : string :=
  let code :=
    fold_left (fun code i => code ++ pick (nth_error bytes i)) (seq 0 12) "" in
  slice 0 4 code ++ "-" ++ slice 4 8 code ++ "-" ++ slice 8 12 code.

(** *** Responses *)

Inductive ErrorText :=
| err_unauthorized                      (* "غير مصرح" *)
| err_not_allowed                       (* "غير مسموح" *)
| err_tier_required                     (* "يجب اختيار باقة سعة المناسبة" *)
| err_tier_invalid                      (* "باقة السعة غير صالحة" *)
| err_tier_no_permission (tierName : string)
| err_tier_quota_reached (tierName : string) (quota : Z)
| err_name_date_required
| err_create_event
| err_event_not_found
| err_no_file
| err_guest_limit (maxGuests : Z)
| err_process_file
| err_guest_name_required
| err_add_guest
| err_invalid_data
| err_tier_not_found
| err_create_tier                       (* "خطأ في إنشاء باقة السعة" *)
| err_update_tier.                      (* "خطأ في تحديث باقة السعة" *)

Inductive InvalidText :=
| guest_not_found                       (* "الضيف غير موجود" *)
| code_required                         (* "الكود مطلوب" *)
| code_unknown                          (* "الكود غير صالح أو غير موجود" *)
| code_other_event.                     (* "هذا الكود ليس لهذه المناسبة" *)

Inductive Body :=
| json_error (e : ErrorText)
| json_invalid (m : InvalidText)
| json_duplicate (guest : Guest) (at_ : option Timestamp) (by_ : string)
| json_success (guest : option Guest)
| json_event (e : Event)
| json_guest (g : Guest)
| json_upload (count : nat) (guests : list Guest)
| json_tier (t : option CapacityTier).

Record Response := res { status : Z; body : Body }.

Definition unknown_name : string := "غير معروف".

(** *** Roles *)

Definition canBypassOwnership (userRole : UserRole) : bool :=
  role_eqb userRole admin || role_eqb userRole super_admin.

Definition requireRole (roles : list UserRole) (sessionUserId : option string)
           (next : User -> Prog Response) : Prog Response :=
  match sessionUserId with
  | Some uid =>
      if Js.truthy_string (Some uid) then
        user <- await GetUser uid ;;
        match user with
        | Some user =>
            if existsb (role_eqb (role user)) roles then next user
            else Return (res 403 (json_error err_not_allowed))
        | None => Return (res 403 (json_error err_not_allowed))
        end
      else Return (res 401 (json_error err_unauthorized))
  | None => Return (res 401 (json_error err_unauthorized))
  end.

(** *** POST /api/events *)

Inductive DateField :=
| date_absent                           (* missing or empty *)
| date_invalid                          (* [new Date] gives an Invalid Date *)
| date_valid (t : Timestamp).

Record EventBody := mkEventBody {
  eb_name : option string;
  eb_description : option string;
  eb_date : DateField;
  eb_location : option string;
  eb_startTime : option string;
  eb_endTime : option string;
  eb_capacityTierId : option string
}.

Definition create_event_log (user : User) (event : Event) : InsertAuditLog :=
  mkInsertAuditLog (Some (event_id event)) (user_id user) "create_event"
                   (Some ("تم إنشاء المناسبة: " ++ event_name event)) None.

(** [req.body.date ? new Date(req.body.date) : undefined] *)
Definition parsed_date (d : DateField) : option (option Timestamp) :=
  match d with
  | date_absent => None
  | date_invalid => Some None
  | date_valid t => Some (Some t)
  end.

(** From "Parse date string to Date object" to the end of the handler. *)
Definition store_event (user : User) (b : EventBody) : Prog Response :=
  match Js.truthy_string (eb_name b), eb_name b, parsed_date (eb_date b) with
  | true, Some name, Some date =>
      event <- await CreateEvent
                 (mkInsertEvent name (eb_description b) date (eb_location b)
                                (eb_startTime b) (eb_endTime b) (user_id user)
                                (eb_capacityTierId b) (Some true)) ;;
      match event with
      | Some event =>
          _ <- await CreateAuditLog (create_event_log user event) ;;
          Return (res 200 (json_event event))
      | None => Return (res 500 (json_error err_create_event))
      end
  | _, _, _ => Return (res 400 (json_error err_name_date_required))
  end.

Definition post_api_events (sessionUserId : option string) (b : EventBody)
  : Prog Response :=
  requireRole [event_manager; admin; super_admin] sessionUserId (fun user =>
    if role_eqb (role user) event_manager
       && negb (Js.truthy_string (eb_capacityTierId b))
    then Return (res 400 (json_error err_tier_required))
    else
      match Js.truthy_string (eb_capacityTierId b), eb_capacityTierId b with
      | true, Some capacityTierId =>
          tier <- await GetCapacityTier capacityTierId ;;
          match tier with
          | None => Return (res 400 (json_error err_tier_invalid))
          | Some tier =>
              if negb (Js.truthy_bool (tier_isActive tier))
              then Return (res 400 (json_error err_tier_invalid))
              else if role_eqb (role user) event_manager then
                userTierQuotas <- await GetUserTierQuotas (user_id user) ;;
                let tierQuota :=
                  find (fun q => String.eqb (quota_capacityTierId q) capacityTierId)
                       userTierQuotas in
                let quota := Js.or_int (option_map quota tierQuota) 0 in
                if quota =? 0
                then Return (res 403 (json_error
                                        (err_tier_no_permission (tier_name tier))))
                else
                  tierEventCount <- await GetEventCountByManagerAndTier
                                      (user_id user) capacityTierId ;;
                  if tierEventCount >=? quota
                  then Return (res 403 (json_error
                                          (err_tier_quota_reached (tier_name tier)
                                                                  quota)))
                  else store_event user b
              else store_event user b
          end
      | _, _ => store_event user b
      end).

(** *** Guests: bulk import and single add *)

(** One row of the uploaded sheet after the handler's coercions, with the
    bytes [randomBytes(12)] returned for it: the category is the text of
    the cell in lower case (["regular"] for an empty cell), the companions
    what [parseInt] read (0 when it read no number). *)
Record SheetRow := mkSheetRow {
  row_name : string;
  row_phone : string;
  row_category : string;
  row_companions : Z;
  row_notes : string;
  row_bytes : list byte
}.

Definition string_of_nat (n : nat) : string :=
  NilZero.string_of_uint (Nat.to_uint n).

Definition guest_of_row (eventId : string) (row : SheetRow) : InsertGuest :=
  mkInsertGuest eventId (row_name row) (Some (row_phone row))
                (Some (row_category row)) (Some (row_companions row))
                (Some (row_notes row)) (generateAccessCode (row_bytes row)).

(** [maxAllowedGuests]: [None] is [Infinity]. *)
Definition limit_guests (maxAllowedGuests : option Z) (guestsToCreate : list InsertGuest)
  : list InsertGuest :=
  match maxAllowedGuests with
  | Some m =>
      if Z.of_nat (length guestsToCreate) >? m
      then firstn (Z.to_nat m) guestsToCreate
      else guestsToCreate
  | None => guestsToCreate
  end.

(** From [guestsToCreate = data.map(...)] to the end of the handler. *)
Definition import_rows (user : User) (eventId : string) (data : list SheetRow)
           (maxAllowedGuests : option Z) : Prog Response :=
  let guestsToCreate :=
    limit_guests maxAllowedGuests (map (guest_of_row eventId) data) in
  created <- await CreateGuests guestsToCreate ;;
  match created with
  | Some createdGuests =>
      _ <- await CreateAuditLog
             (mkInsertAuditLog (Some eventId) (user_id user) "upload_guests"
                (Some ("تم رفع " ++ string_of_nat (length createdGuests) ++ " ضيف"))
                None) ;;
      Return (res 200 (json_upload (length createdGuests) createdGuests))
  | None => Return (res 500 (json_error err_process_file))
  end.

Definition post_api_events_id_upload_guests (sessionUserId : option string)
           (id : string) (file : option (list SheetRow)) : Prog Response :=
  requireRole [event_manager; admin; super_admin] sessionUserId (fun user =>
    event <- await GetEvent id ;;
    match event with
    | None => Return (res 404 (json_error err_event_not_found))
    | Some event =>
        if negb (canBypassOwnership (role user))
           && negb (String.eqb (eventManagerId event) (user_id user))
        then Return (res 403 (json_error err_not_allowed))
        else
          match file with
          | None => Return (res 400 (json_error err_no_file))
          | Some data =>
              match Js.truthy_string (event_capacityTierId event),
                    event_capacityTierId event with
              | true, Some capacityTierId =>
                  tier <- await GetCapacityTier capacityTierId ;;
                  match tier with
                  | Some tier =>
                      match negb (Js.truthy_bool (isUnlimited tier))
                            && Js.truthy_int (maxGuests tier),
                            maxGuests tier with
                      | true, Some tier_maxGuests =>
                          currentGuests <- await GetGuestsByEvent id ;;
                          let remainingCapacity :=
                            tier_maxGuests - Z.of_nat (length currentGuests) in
                          if remainingCapacity <=? 0
                          then Return (res 403 (json_error
                                                  (err_guest_limit tier_maxGuests)))
                          else import_rows user id data (Some remainingCapacity)
                      | _, _ => import_rows user id data None
                      end
                  | None => import_rows user id data None
                  end
              | _, _ => import_rows user id data None
              end
          end
    end).

Record GuestBody := mkGuestBody {
  gb_name : option string;
  gb_phone : option string;
  gb_category : option string;
  gb_companions : option Z;
  gb_notes : option string
}.

(** The record the single add stores. *)
Definition guest_of_body (eventId name : string) (b : GuestBody)
           (bytes : list byte) : InsertGuest :=
  mkInsertGuest eventId (Js.trim name)
                (Some (Js.or_string (gb_phone b) ""))
                (Some (Js.or_string (gb_category b) "regular"))
                (Some (Js.or_int (gb_companions b) 0))
                (Some (Js.or_string (gb_notes b) ""))
                (generateAccessCode bytes).

(** From the destructuring of [req.body] to the end of the handler. *)
Definition add_guest (user : User) (eventId : string) (b : GuestBody)
           (bytes : list byte) : Prog Response :=
  match Js.truthy_string (gb_name b), gb_name b with
  | true, Some name =>
      if String.eqb (Js.trim name) ""
      then Return (res 400 (json_error err_guest_name_required))
      else
        guest <- await CreateGuest (guest_of_body eventId name b bytes) ;;
        match guest with
        | Some guest =>
            _ <- await CreateAuditLog
                   (mkInsertAuditLog (Some eventId) (user_id user) "add_guest"
                      (Some ("تم إضافة ضيف: " ++ guest_name guest))
                      (Some (guest_id guest))) ;;
            Return (res 200 (json_guest guest))
        | None => Return (res 500 (json_error err_add_guest))
        end
  | _, _ => Return (res 400 (json_error err_guest_name_required))
  end.

Definition post_api_events_id_guests (sessionUserId : option string)
           (id : string) (b : GuestBody) (bytes : list byte) : Prog Response :=
  requireRole [event_manager; admin; super_admin] sessionUserId (fun user =>
    event <- await GetEvent id ;;
    match event with
    | None => Return (res 404 (json_error err_event_not_found))
    | Some event =>
        if negb (canBypassOwnership (role user))
           && negb (String.eqb (eventManagerId event) (user_id user))
        then Return (res 403 (json_error err_not_allowed))
        else
          match Js.truthy_string (event_capacityTierId event),
                event_capacityTierId event with
          | true, Some capacityTierId =>
              tier <- await GetCapacityTier capacityTierId ;;
              match tier with
              | Some tier =>
                  match negb (Js.truthy_bool (isUnlimited tier))
                        && Js.truthy_int (maxGuests tier),
                        maxGuests tier with
                  | true, Some tier_maxGuests =>
                      currentGuests <- await GetGuestsByEvent id ;;
                      if Z.of_nat (length currentGuests) >=? tier_maxGuests
                      then Return (res 403 (json_error
                                              (err_guest_limit tier_maxGuests)))
                      else add_guest user id b bytes
                  | _, _ => add_guest user id b bytes
                  end
              | None => add_guest user id b bytes
              end
          | _, _ => add_guest user id b bytes
          end
    end).

(** *** Check-in *)

(** The "Verify access to this event" block, the same in both handlers:
    [next] is the rest of the handler. *)
Definition verify_access (user : User) (eventId : string)
           (next : Prog Response) : Prog Response :=
  match role user with
  | organizer =>
      assignedEvents <- await GetOrganizerEvents (user_id user) ;;
      if negb (existsb (fun e => String.eqb (event_id e) eventId) assignedEvents)
      then Return (res 403 (json_error err_not_allowed))
      else next
  | event_manager =>
      event <- await GetEvent eventId ;;
      match event with
      | Some event =>
          if negb (String.eqb (eventManagerId event) (user_id user))
          then Return (res 403 (json_error err_not_allowed))
          else next
      | None => Return (res 403 (json_error err_not_allowed))
      end
  | _ => next
  end.

(** The [if (guest.isCheckedIn)] branch. *)
Definition answer_duplicate (guest : Guest) : Prog Response :=
  match Js.truthy_string (checkedInBy guest), checkedInBy guest with
  | true, Some by_ =>
      checkedInByUser <- await GetUser by_ ;;
      Return (res 200 (json_duplicate guest (checkedInAt guest)
                         (Js.or_string (option_map user_name checkedInByUser)
                                       unknown_name)))
  | _, _ =>
      Return (res 200 (json_duplicate guest (checkedInAt guest) unknown_name))
  end.

(** From [storage.checkInGuest] to the end of the handler. *)
Definition record_check_in (user : User) (guest : Guest) (id : string)
           (detailsPrefix : string) : Prog Response :=
  updatedGuest <- await CheckInGuest id (user_id user) ;;
  _ <- await CreateAuditLog
         (mkInsertAuditLog (Some (guest_eventId guest)) (user_id user) "check_in"
            (Some (detailsPrefix ++ guest_name guest)) (Some (guest_id guest))) ;;
  Return (res 200 (json_success updatedGuest)).

Definition post_api_guests_id_check_in (sessionUserId : option string)
           (id : string) : Prog Response :=
  requireRole [organizer; event_manager; admin; super_admin] sessionUserId
    (fun user =>
       guest <- await GetGuest id ;;
       match guest with
       | None => Return (res 404 (json_invalid guest_not_found))
       | Some guest =>
           verify_access user (guest_eventId guest)
             (if Js.truthy_bool (isCheckedIn guest)
              then answer_duplicate guest
              else record_check_in user guest id "تم تسجيل حضور: ")
       end).

Definition post_api_check_in_code (sessionUserId : option string)
           (code eventId : option string) : Prog Response :=
  requireRole [organizer; event_manager; admin; super_admin] sessionUserId
    (fun user =>
       match Js.truthy_string code, code with
       | true, Some code =>
           guest <- await GetGuestByQrCode (Js.toUpperCase code) ;;
           match guest with
           | None => Return (res 404 (json_invalid code_unknown))
           | Some guest =>
               if Js.truthy_string eventId
                  && negb (Js.option_string_eqb (Some (guest_eventId guest)) eventId)
               then Return (res 400 (json_invalid code_other_event))
               else
                 verify_access user (guest_eventId guest)
                   (if Js.truthy_bool (isCheckedIn guest)
                    then answer_duplicate guest
                    else record_check_in user guest (guest_id guest)
                                         "تم تسجيل حضور عبر المسح: ")
           end
       | _, _ => Return (res 400 (json_invalid code_required))
       end).

(** *** Capacity tiers *)





End Routes.

(** * Vocabulary of the properties *)

Module Spec.
Import Schema Storage Async Routes.

(** ** Access codes *)

Definition alphabet : list ascii := list_ascii_of_string chars.

Definition in_alphabet (c : ascii) : bool :=
  existsb (Ascii.eqb c) alphabet.

Fixpoint all_in_alphabet (s : string) : bool :=
  match s with
  | EmptyString => true
  | String c s' => in_alphabet c && all_in_alphabet s'
  end.

(** Three groups of four alphabet characters joined by dashes. *)
Definition well_formed (code : string) : Prop :=
  exists g1 g2 g3 : string,
    code = g1 ++ "-" ++ g2 ++ "-" ++ g3
    /\ String.length g1 = 4%nat /\ String.length g2 = 4%nat
    /\ String.length g3 = 4%nat
    /\ all_in_alphabet g1 = true /\ all_in_alphabet g2 = true
    /\ all_in_alphabet g3 = true.

(** ** Sessions *)

(** The session cookie names a stored user. *)
Definition logged_in (w : World) (uid : string) (user : User) : Prop :=
  Js.truthy_string (Some uid) = true /\ getUser uid w = Some user.

(** ** Event quotas *)

(** The quantities of the quota rule, read off the tables themselves and
    not through the storage methods the handler calls. *)

(** The row is the manager's quota row for the tier. *)
Definition quota_row_of (managerId tierId : string) (q : UserTierQuota) : bool :=
  String.eqb (quota_userId q) managerId
  && String.eqb (quota_capacityTierId q) tierId.

(** Q: the manager's quota for a tier, that of the first such row of the
    quota table, 0 when the table has none. *)
Definition quota_of (w : World) (managerId tierId : string) : Z :=
  match find (quota_row_of managerId tierId) (userTierQuotas w) with
  | Some q => quota q
  | None => 0
  end.

(** The event is one of the manager's on the tier. *)
Definition on_tier (managerId tierId : string) (e : Event) : bool :=
  String.eqb (eventManagerId e) managerId
  && match event_capacityTierId e with
     | Some t => String.eqb t tierId
     | None => false
     end.

(** U: the live count, the number of rows of the event table that are the
    manager's on the tier. *)
Fixpoint live_count (managerId tierId : string) (es : list Event) : Z :=
  match es with
  | [] => 0
  | e :: es' =>
      (if on_tier managerId tierId e then 1 else 0)
      + live_count managerId tierId es'
  end.

Definition used_of (w : World) (managerId tierId : string) : Z :=
  live_count managerId tierId (events w).

(** The request went through: a new event row, and a 200 carrying it. *)
Definition created (w : World) (user : User) (b : EventBody)
           (out : Response * World) : Prop :=
  exists e : Event,
    fst out = res 200 (json_event e)
    /\ events (snd out) = (events w ++ [e])%list
    /\ eventManagerId e = user_id user
    /\ event_capacityTierId e = eb_capacityTierId b.



(** ** Tier quotas *)

(** The quota rows of a (user, tier) pair. *)
Definition rows_for (w : World) (userId tierId : string) : list UserTierQuota :=
  filter (quota_row_of userId tierId) (userTierQuotas w).

(** No pair has two rows: what every table filled by [setUserTierQuota]
    alone satisfies. *)
Definition quotas_keyed (w : World) : Prop :=
  forall u t, (length (rows_for w u t) <= 1)%nat.

(** ** Capacity tiers *)








(** ** Guest capacity *)

(** The user may manage the guests of the event: one of the three managing
    roles, and the owner of the event unless the role bypasses ownership. *)
Definition may_manage (w : World) (uid : string) (user : User)
           (eventId : string) (event : Event) : Prop :=
  logged_in w uid user
  /\ role user <> organizer
  /\ getEvent eventId w = Some event
  /\ (canBypassOwnership (role user) = true
      \/ eventManagerId event = user_id user).


(** The event has no tier, a tier that does not resolve, or an unlimited
    tier. *)
Definition unbounded (w : World) (event : Event) : Prop :=
  Js.truthy_string (event_capacityTierId event) = false
  \/ exists T,
      event_capacityTierId event = Some T
      /\ (getCapacityTier T w = None
          \/ exists tier,
              getCapacityTier T w = Some tier
              /\ Js.truthy_bool (isUnlimited tier) = true).

(** The limit the two guest handlers enforce, if any. *)
Definition guest_limit (w : World) (event : Event) : option Z :=
  match Js.truthy_string (event_capacityTierId event),
        event_capacityTierId event with
  | true, Some T =>
      match getCapacityTier T w with
      | Some tier =>
          match negb (Js.truthy_bool (isUnlimited tier))
                && Js.truthy_int (maxGuests tier),
                maxGuests tier with
          | true, Some m => Some m
          | _, _ => None
          end
      | None => None
      end
  | _, _ => None
  end.

(** C: the guests the event holds now, the number of rows of the guest
    table that are of the event. *)
Fixpoint guests_of (eventId : string) (gs : list Guest) : Z :=
  match gs with
  | [] => 0
  | g :: gs' =>
      (if String.eqb (guest_eventId g) eventId then 1 else 0)
      + guests_of eventId gs'
  end.

Definition guest_count (w : World) (eventId : string) : Z :=
  guests_of eventId (guests w).

(** The category is absent or a label of the enum, and the companions are
    absent or fit 32 bits: the values the two typed columns of the guest
    table hold. *)
Definition fits_columns (category : option string) (companions : option Z)
  : Prop :=
  (forall label, category = Some label ->
                 In label ["vip"; "regular"; "media"; "sponsor"])
  /\ (forall n, companions = Some n -> -2147483648 <= n <= 2147483647).

Definition storable (g : InsertGuest) : Prop :=
  fits_columns (ig_category g) (ig_companions g).




(** The body of a single add has a category that is absent, empty or a
    label of the enum, and companions that are absent or fit 32 bits. *)
Definition guest_body_storable (b : GuestBody) : Prop :=
  (forall label, gb_category b = Some label ->
                 label = "" \/ In label ["vip"; "regular"; "media"; "sponsor"])
  /\ (forall n, gb_companions b = Some n -> -2147483648 <= n <= 2147483647).


(** One guest row was added for the event, pending, and returned. *)
Definition guest_added (w : World) (eventId : string)
           (out : Response * World) : Prop :=
  exists g,
    fst out = res 200 (json_guest g)
    /\ guests (snd out) = (guests w ++ [g])%list
    /\ guest_eventId g = eventId
    /\ Js.truthy_bool (isCheckedIn g) = false.


(** ** Check-in *)

Inductive Kind := SUCCESS | DUPLICATE | INVALID.

(** The [status] field of a check-in answer, when it has one. *)
Definition kind_of (r : Response) : option Kind :=
  match body r with
  | json_success _ => Some SUCCESS
  | json_duplicate _ _ _ => Some DUPLICATE
  | json_invalid _ => Some INVALID
  | _ => None
  end.

(** The user has the relationship to the event that check-in asks for:
    an organizer is assigned to it (and it is active), an event manager
    owns it, an admin or super admin needs none. *)
Definition may_check_in (w : World) (uid : string) (user : User)
           (eventId : string) : Prop :=
  logged_in w uid user
  /\ match role user with
     | organizer =>
         existsb (fun e => String.eqb (event_id e) eventId)
                 (getOrganizerEvents (user_id user) w) = true
     | event_manager =>
         exists event,
           getEvent eventId w = Some event
           /\ eventManagerId event = user_id user
     | _ => True
     end.

(** The user is logged in and lacks that relationship. *)
Definition barred (w : World) (uid : string) (user : User)
           (eventId : string) : Prop :=
  logged_in w uid user
  /\ match role user with
     | organizer =>
         existsb (fun e => String.eqb (event_id e) eventId)
                 (getOrganizerEvents (user_id user) w) = false
     | event_manager =>
         getEvent eventId w = None
         \/ exists event,
             getEvent eventId w = Some event
             /\ eventManagerId event <> user_id user
     | _ => False
     end.

(** The door staff's two ways to check a guest in: by the guest's id, or
    by a scanned code with an optional event hint. *)
Inductive Scan :=
| scan_id (uid : string)
| scan_code (uid : string) (code : string) (hint : option string).

Definition scan_uid (s : Scan) : string :=
  match s with
  | scan_id uid => uid
  | scan_code uid _ _ => uid
  end.

Definition scan_program (id : string) (s : Scan) : Prog Response :=
  match s with
  | scan_id uid => post_api_guests_id_check_in (Some uid) id
  | scan_code uid code hint => post_api_check_in_code (Some uid) (Some code) hint
  end.

(** The event hint of a code scan is absent or names the guest's event. *)
Definition hint_fits (hint : option string) (g : Guest) : Prop :=
  Js.truthy_string hint
  && negb (Js.option_string_eqb (Some (guest_eventId g)) hint) = false.

(** The scan reaches guest [g]: a code scan carries a code that resolves
    to [g] and a fitting hint. *)
Definition reaches (w : World) (g : Guest) (s : Scan) : Prop :=
  match s with
  | scan_id _ => True
  | scan_code _ code hint =>
      Js.truthy_string (Some code) = true
      /\ getGuestByQrCode (Js.toUpperCase code) w = Some g
      /\ hint_fits hint g
  end.

(** The code of a code scan is made of ASCII characters, on which
    [Js.toUpperCase] is JavaScript's [toUpperCase]. *)
Definition ascii_scan (s : Scan) : Prop :=
  match s with
  | scan_id _ => True
  | scan_code _ code _ => Js.is_ascii code = true
  end.

(** The name shown for whoever checked the guest in. *)
Definition checker_name (w : World) (g : Guest) : string :=
  match Js.truthy_string (checkedInBy g), checkedInBy g with
  | true, Some by_ =>
      Js.or_string (option_map user_name (getUser by_ w)) unknown_name
  | _, _ => unknown_name
  end.

(** The answer to a scan of a guest who is already checked in. *)
Definition duplicate_answer (w : World) (g : Guest) : Response :=
  res 200 (json_duplicate g (checkedInAt g) (checker_name w g)).

(** Two worlds with the same tables, generator included: at most the
    clock differs. *)
Definition same_store (w w' : World) : Prop :=
  w' = set_clock w (clock w').

(** The scan comes from a user who may check guests of [g]'s event in, and
    reaches [g]. *)
Definition scan_allowed (w : World) (g : Guest) (s : Scan) : Prop :=
  (exists user, may_check_in w (scan_uid s) user (guest_eventId g))
  /\ reaches w g s.

(** Scans served one after the other, each at its own time. *)
Definition serve_scans (id : string) (calls : list (Timestamp * Scan)) (w : World)
  : list Response * World :=
  serve (map (fun c => (fst c, scan_program id (snd c))) calls) w.

(** The answers of the requests in flight that have finished. *)
Definition answers (pool : list (Prog Response)) : list (option Response) :=
  map (@finished Response) pool.

(** How many of the answers are of a kind. *)
Definition kind_eqb (a b : Kind) : bool :=
  match a, b with
  | SUCCESS, SUCCESS | DUPLICATE, DUPLICATE | INVALID, INVALID => true
  | _, _ => false
  end.

Definition count_kind (k : Kind) (rs : list Response) : nat :=
  length (filter (fun r => match kind_of r with
                           | Some k' => kind_eqb k k'
                           | None => false
                           end) rs).

(** Either check-in handler from the access block on, for the row its
    read found. *)
Definition after_read (user : User) (g' : Guest) (id' prefix : string)
  : Prog Response :=
  verify_access user (guest_eventId g')
    (if Js.truthy_bool (isCheckedIn g')
     then answer_duplicate g'
     else record_check_in user g' id' prefix).

(** ** Check-in requests in flight together *)

Section Race.

(** The world the requests start in, and the guest they are for. *)
Variables (w0 : World) (id : string).

(** No request has written the guest row yet. *)
Definition untouched (w : World) : Prop := guests w = guests w0.

(** Some request has: the row carries the stamp of the last writer. *)
Definition stamped (w : World) : Prop :=
  exists by_ t, guests w = map (stamp_check_in id by_ t) (guests w0).

(** The worlds the requests can bring about: they write the guest row and
    the audit log, nothing else. *)
Definition reachable (w : World) : Prop :=
  users w = users w0 /\ events w = events w0
  /\ eventOrganizers w = eventOrganizers w0
  /\ (untouched w \/ stamped w).

(** A call that leaves the guest table alone. *)
Definition quiet {X : Type} (c : Call X) (w : World) : Prop :=
  reachable (snd (exec c w)) /\ guests (snd (exec c w)) = guests w.

(** A request that will answer SUCCESS however the others are scheduled. *)
Fixpoint winner (p : Prog Response) : Prop :=
  match p with
  | Return r => kind_of r = Some SUCCESS
  | Await c k =>
      forall w, reachable w ->
                reachable (snd (exec c w)) /\ winner (k (fst (exec c w)))
  end.

(** A request that will answer SUCCESS or DUPLICATE, and writes the guest
    row only if it is a winner. *)
Fixpoint settling (p : Prog Response) : Prop :=
  match p with
  | Return r => kind_of r = Some SUCCESS \/ kind_of r = Some DUPLICATE
  | Await c k =>
      (forall w, reachable w -> quiet c w /\ settling (k (fst (exec c w))))
      \/ winner (Await c k)
  end.

(** A request that has not read the guest row yet; if its read comes
    before every write, it becomes a winner. *)
Fixpoint unread (p : Prog Response) : Prop :=
  match p with
  | Return _ => False
  | Await c k =>
      forall w, reachable w -> untouched w ->
                quiet c w
                /\ (unread (k (fst (exec c w))) \/ winner (k (fst (exec c w))))
  end.

(** What holds of the requests in flight after every turn. *)
Definition race_invariant (pool : list (Prog Response)) (w : World) : Prop :=
  reachable w
  /\ Forall settling pool
  /\ ((untouched w /\ Forall unread pool) \/ Exists winner pool).

End Race.

(** All requests in flight have answered, with these answers. *)
Definition all_answered (pool : list (Prog Response)) (rs : list Response) : Prop :=
  answers pool = map (@Some Response) rs.

(** A request that answers after at most [n] turns, whatever its calls
    return. *)
Fixpoint answers_within (n : nat) (p : Prog Response) {struct p} : Prop :=
  match p with
  | Return _ => True
  | Await c k =>
      match n with
      | O => False
      | S m => forall x, answers_within m (k x)
      end
  end.

End Spec.

(** * A small deployment, for running the model *)

Module Examples.
Import Schema Storage Async Routes Spec.

Definition owner : User :=
  mkUser "s1" "owner" "x" "Owner" super_admin None None (Some true) None.
Definition manager : User :=
  mkUser "m1" "manager" "x" "Mona" event_manager (Some "s1") None (Some true) None.
Definition other_manager : User :=
  mkUser "m2" "manager2" "x" "Majid" event_manager (Some "s1") None (Some true) None.
Definition usher : User :=
  mkUser "o1" "usher" "x" "Omar" organizer (Some "m1") None (Some true) None.
Definition other_usher : User :=
  mkUser "o2" "usher2" "x" "Ola" organizer (Some "m1") None (Some true) None.

Definition small : CapacityTier :=
  mkCapacityTier "small" "Small" 0 (Some 2) (Some false) (Some true) (Some 0) None.
Definition retired : CapacityTier :=
  mkCapacityTier "old" "Old" 0 (Some 50) (Some false) (Some false) (Some 1) None.
Definition open_tier : CapacityTier :=
  mkCapacityTier "open" "Open" 0 None (Some true) (Some true) (Some 2) None.
Definition zero_tier : CapacityTier :=
  mkCapacityTier "zero" "Zero" 0 (Some 0) (Some false) (Some true) (Some 3) None.

Definition wedding : Event :=
  mkEvent "e1" "Wedding" None 100 None None None "m1" (Some "small") (Some true) None.
Definition launch : Event :=
  mkEvent "e2" "Launch" None 200 None None None "m1" (Some "zero") (Some true) None.

Definition pending_guest : Guest :=
  mkGuest "g1" "e1" "Huda" None (Some regular) (Some 0) None "ABCD-EFGH-JKLM"
          (Some false) None None None.
Definition arrived_guest : Guest :=
  mkGuest "g2" "e1" "Sami" None (Some vip) (Some 1) None "NPQR-STUV-WXYZ"
          (Some true) (Some 7) (Some "o1") None.

Definition uuids (n : nat) : string := "row-" ++ string_of_nat n.

(** One small event with a free place, one pending and one arrived guest. *)
Definition venue : World :=
  mkWorld [owner; manager; other_manager; usher; other_usher]
          [wedding; launch]
          [pending_guest]
          [mkEventOrganizer "a1" "e1" "o1" None]
          []
          [small; retired; open_tier; zero_tier]
          [mkUserTierQuota "q1" "m1" "small" 2 None None]
          10 uuids 0.

(** The same with the small event full. *)
Definition full_venue : World :=
  set_guests venue [pending_guest; arrived_guest] 0.

Definition gala : EventBody :=
  mkEventBody (Some "Gala") None (date_valid 300) None None None (Some "small").




Definition walk_in : GuestBody :=
  mkGuestBody (Some " Rana ") None None None None.




Definition some_bytes : list byte :=
  [x00; x1f; x20; xff; x07; x08; x41; x7a; x10; x19; x1a; x63].




(** Two devices scan the pending guest at once: the usher's and the
    owner's. *)
Definition two_scans : list (Prog Response) :=
  [scan_program "g1" (scan_id "o1"); scan_program "g1" (scan_id "s1")].

(** Both requests read the guest row before either writes it.  The
    usher's handler awaits [getUser], [getGuest], [getOrganizerEvents],
    [checkInGuest], [createAuditLog]; the owner's the same without
    [getOrganizerEvents]. *)
Definition race : list nat := [0; 1; 0; 1; 0; 0; 0; 1; 1]%nat.

(** Four scans of the pending guest: the usher's, the owner's, the
    manager's, and the owner's once more. *)
Definition four_scans : list (Prog Response) :=
  [scan_program "g1" (scan_id "o1"); scan_program "g1" (scan_id "s1");
   scan_program "g1" (scan_id "m1"); scan_program "g1" (scan_id "s1")].

(** The usher's request does its three reads, and the owner's is served
    to its end while the usher's waits. *)
Definition usher_waits : list nat := [0; 0; 0; 1; 1; 1; 1]%nat.

(** The manager's request is served ([getUser], [getGuest], [getEvent],
    [getUser]), then the usher's does its two writes, then the owner's
    second request is served ([getUser], [getGuest], [getUser]). *)
Definition usher_writes : list nat := [2; 2; 2; 2; 0; 0; 3; 3; 3]%nat.

End Examples.

(** * The rest of the server

  Accounts, event and guest maintenance, organizer assignment, the quota
  pages and the QR check-in.  These handlers are studied one request at a
  time, so they are written by explicit state passing: a handler is a
  function from the store to its answer and the store it leaves. *)

(** ** The rest of [DatabaseStorage] *)

Module StorageRest.
Import Schema Storage.

Definition set_users (w : World) (us : list User) (n : nat) : World :=
  mkWorld us (events w) (guests w) (eventOrganizers w) (auditLogs w)
          (capacityTiers w) (userTierQuotas w) (clock w) (gen_random_uuid w) n.

Definition set_eventOrganizers (w : World) (asg : list EventOrganizer) (n : nat)
  : World :=
  mkWorld (users w) (events w) (guests w) asg (auditLogs w)
          (capacityTiers w) (userTierQuotas w) (clock w) (gen_random_uuid w) n.

(** *** Users *)

Definition getUserByUsername (name : string) (w : World) : option User :=
  find (fun u => String.eqb (username u) name) (users w).

(** [InsertUser]: a column left out takes its default, a nullable one may
    be given as [null]. *)
Record InsertUser := mkInsertUser {
  iu_username : string;
  iu_password : string;
  iu_name : string;
  iu_role : option UserRole;
  iu_createdById : option (option string);
  iu_eventQuota : option (option Z);
  iu_isActive : option (option bool)
}.

(** [username] is [unique()], and [event_quota] an [integer]: an insert
    of a name already stored, or of a quota that does not fit 32 bits,
    fails. *)
Definition createUser (u : InsertUser) (w : World) : option User * World :=
  if existsb (fun x => String.eqb (username x) (iu_username u)) (users w)
  then (None, w)
  else if negb (fits_integer (iu_eventQuota u)) then (None, w)
  else
    let row :=
      mkUser (fresh_id w) (iu_username u) (iu_password u) (iu_name u)
             (match iu_role u with Some r => r | None => organizer end)
             (match iu_createdById u with Some c => c | None => None end)
             (match iu_eventQuota u with Some q => q | None => Some 5 end)
             (match iu_isActive u with Some a => a | None => Some true end)
             (Some (clock w)) in
    (Some row, set_users w (users w ++ [row]) (S (drawn w))).

(** The columns of [Partial<InsertUser>] the routes set; [None] leaves the
    column alone. *)
Record PartialUser := mkPartialUser {
  pu_name : option string;
  pu_password : option string;
  pu_eventQuota : option (option Z);
  pu_isActive : option (option bool)
}.

Definition apply_user_patch (id : string) (data : PartialUser) (u : User) : User :=
  if String.eqb (user_id u) id then
    mkUser (user_id u) (username u)
           (patch (pu_password data) (password u))
           (patch (pu_name data) (user_name u))
           (role u) (createdById u)
           (patch (pu_eventQuota data) (eventQuota u))
           (patch (pu_isActive data) (user_isActive u))
           (user_createdAt u)
  else u.

Definition is_some {A : Type} (o : option A) : bool :=
  match o with Some _ => true | None => false end.

(** The outer [None] is the exception of an update with no column to set,
    or with an event quota that does not fit 32 bits. *)
Definition updateUser (id : string) (data : PartialUser) (w : World)
  : option (option User) * World :=
  if (is_some (pu_name data) || is_some (pu_password data)
      || is_some (pu_eventQuota data) || is_some (pu_isActive data))
     && fits_integer (pu_eventQuota data)
  then
    let us := map (apply_user_patch id data) (users w) in
    (Some (find (fun u => String.eqb (user_id u) id) us), set_users w us (drawn w))
  else (None, w).

Definition deleteUser (id : string) (w : World) : unit * World :=
  (tt, set_users w (filter (fun u => negb (String.eqb (user_id u) id)) (users w))
                 (drawn w)).

(** *** Events *)





Definition deleteEvent (id : string) (w : World) : unit * World :=
  (tt, set_events w (filter (fun e => negb (String.eqb (event_id e) id)) (events w))
                  (drawn w)).

(** *** Guests *)

(** The columns of [Partial<Guest>] that carry no key; [None] leaves the
    column alone. *)
Record PartialGuest := mkPartialGuest {
  pg_eventId : option string;
  pg_name : option string;
  pg_phone : option (option string);
  pg_category : option (option GuestCategory);
  pg_companions : option (option Z);
  pg_notes : option (option string);
  pg_isCheckedIn : option (option bool);
  pg_checkedInAt : option (option Timestamp);
  pg_checkedInBy : option (option string)
}.

Definition apply_guest_patch (id : string) (data : PartialGuest) (g : Guest) : Guest :=
  if String.eqb (guest_id g) id then
    mkGuest (guest_id g)
            (patch (pg_eventId data) (guest_eventId g))
            (patch (pg_name data) (guest_name g))
            (patch (pg_phone data) (phone g))
            (patch (pg_category data) (category g))
            (patch (pg_companions data) (companions g))
            (patch (pg_notes data) (notes g))
            (qrCode g)
            (patch (pg_isCheckedIn data) (isCheckedIn g))
            (patch (pg_checkedInAt data) (checkedInAt g))
            (patch (pg_checkedInBy data) (checkedInBy g))
            (guest_createdAt g)
  else g.

Definition guest_patch_empty (data : PartialGuest) : bool :=
  negb (is_some (pg_eventId data) || is_some (pg_name data)
        || is_some (pg_phone data) || is_some (pg_category data)
        || is_some (pg_companions data) || is_some (pg_notes data)
        || is_some (pg_isCheckedIn data) || is_some (pg_checkedInAt data)
        || is_some (pg_checkedInBy data)).

(** The outer [None] is the exception of an update with no column to set,
    or with companions that do not fit 32 bits. *)
Definition updateGuest (id : string) (data : PartialGuest) (w : World)
  : option (option Guest) * World :=
  if guest_patch_empty data || negb (fits_integer (pg_companions data))
  then (None, w)
  else
    let gs := map (apply_guest_patch id data) (guests w) in
    (Some (find (fun g => String.eqb (guest_id g) id) gs), set_guests w gs (drawn w)).

Definition deleteGuest (id : string) (w : World) : unit * World :=
  (tt, set_guests w (filter (fun g => negb (String.eqb (guest_id g) id)) (guests w))
                  (drawn w)).

(** *** Event organizers *)

Definition getEventOrganizers (eventId : string) (w : World) : list User :=
  let assignments :=
    filter (fun a => String.eqb (assignment_eventId a) eventId)
           (eventOrganizers w) in
  match assignments with
  | [] => []
  | _ :: _ =>
      let organizerIds := map organizerId assignments in
      defined (map (fun id => getUser id w) organizerIds)
  end.

Record InsertEventOrganizer := mkInsertEventOrganizer {
  ia_eventId : string;
  ia_organizerId : string
}.

Definition assignOrganizer (data : InsertEventOrganizer) (w : World)
  : EventOrganizer * World :=
  let row :=
    mkEventOrganizer (fresh_id w) (ia_eventId data) (ia_organizerId data)
                     (Some (clock w)) in
  (row, set_eventOrganizers w (eventOrganizers w ++ [row]) (S (drawn w))).

Definition removeOrganizer (eventId organizer : string) (w : World)
  : unit * World :=
  (tt, set_eventOrganizers w
         (filter (fun a => negb (String.eqb (assignment_eventId a) eventId
                                 && String.eqb (organizerId a) organizer))
                 (eventOrganizers w))
         (drawn w)).

(** *** Capacity tiers *)

(** [order by sort_order]: ascending, [null] last. *)
Definition sortOrder_le (a b : option Z) : bool :=
  match a, b with
  | Some x, Some y => x <=? y
  | Some _, None => true
  | None, Some _ => false
  | None, None => true
  end.

Fixpoint insert_tier (t : CapacityTier) (l : list CapacityTier) : list CapacityTier :=
  match l with
  | [] => [t]
  | x :: l' =>
      if sortOrder_le (sortOrder t) (sortOrder x) then t :: l
      else x :: insert_tier t l'
  end.

(** Rows with the same [sortOrder] come in the order of the table, where
    the database promises no order among them. *)
Definition getCapacityTiers (w : World) : list CapacityTier :=
  fold_right insert_tier [] (capacityTiers w).

Definition deleteCapacityTier (id : string) (w : World) : unit * World :=
  (tt, set_capacityTiers w
         (filter (fun t => negb (String.eqb (tier_id t) id)) (capacityTiers w))
         (drawn w)).

(** *** User tier quotas *)

Definition deleteUserTierQuotas (userId : string) (w : World) : unit * World :=
  (tt, set_userTierQuotas w
         (filter (fun q => negb (String.eqb (quota_userId q) userId))
                 (userTierQuotas w))
         (drawn w)).

End StorageRest.

(** ** Handlers served alone: explicit state passing *)

Module Direct.
Import Schema Storage Async Routes.

(** A handler that nothing interrupts: from the store to its answer and
    the store it leaves.  [run p] is one. *)
Definition Handler (A : Type) : Type := World -> A * World.

Definition ret {A : Type} (a : A) : Handler A := fun w => (a, w).

Definition bind {A B : Type} (m : Handler A) (k : A -> Handler B) : Handler B :=
  fun w => let (a, w') := m w in k a w'.

(** A storage method that only reads. *)
Definition read {A : Type} (f : World -> A) : Handler A := fun w => (f w, w).

(** The texts of [{ error: ... }] bodies. *)
Inductive Failure :=
| shared (e : ErrorText)                (* a text the routes above use too *)
| user_missing                          (* "المستخدم غير موجود" *)
| own_account_disable                   (* "لا يمكنك تعطيل حسابك الخاص" *)
| own_account_delete                    (* "لا يمكنك حذف حسابك الخاص" *)
| username_taken                        (* "اسم المستخدم مستخدم مسبقاً" *)
| create_user_failed                    (* "خطأ في إنشاء المستخدم" *)
| toggle_failed                         (* "خطأ في تغيير حالة المستخدم" *)
| login_incomplete                      (* "بيانات ناقصة" *)
| login_wrong                           (* "بيانات الدخول غير صحيحة" *)
| login_inactive                        (* "الحساب غير مفعل" *)
| guest_missing                         (* "الضيف غير موجود" *)
| update_guest_failed                   (* "خطأ في تحديث الضيف" *)
| update_event_failed                   (* "خطأ في تحديث المناسبة" *)
| foreign_organizer                     (* "لا يمكنك تعيين منظم لم تقم بإنشائه" *)
| quota_negative                        (* "الحصة يجب أن تكون رقم صحيح موجب" *)
| quota_above_100                       (* "الحد الأقصى للحصة لكل باقة هو 100" *)
| update_quotas_failed                  (* "خطأ في تحديث الحصص" *)
| manager_missing                       (* "مدير المناسبات غير موجود" *)
| tier_missing (tierId : string).       (* "باقة السعة غير موجودة: <id>" *)

(** [res.json(a)], or [res.status(s).json({ error })]. *)
Inductive Reply (A : Type) : Type :=
| ok (a : A)
| fail (status : Z) (error : Failure).

Arguments ok {A} a.
Arguments fail {A} status error.

(** [{ success: true }], with or without a message. *)
Inductive Success := success.

Definition refusal {A : Type} (status : Z) (e : ErrorText) : Reply A :=
  fail status (shared e).

(** [requireAuth]; [refuse] sends the error body. *)
Definition requireAuth {A : Type} (refuse : Z -> ErrorText -> A)
           (sessionUserId : option string) (next : string -> Handler A)
  : Handler A :=
  match sessionUserId with
  | Some uid =>
      if Js.truthy_string (Some uid) then next uid
      else ret (refuse 401 err_unauthorized)
  | None => ret (refuse 401 err_unauthorized)
  end.

(** [requireRole(...roles)], as [Routes.requireRole] but for any kind of
    answer; [refuse] sends the error body. *)
Definition requireRole' {A : Type} (refuse : Z -> ErrorText -> A)
           (roles : list UserRole) (sessionUserId : option string)
           (next : User -> Handler A) : Handler A :=
  match sessionUserId with
  | Some uid =>
      if Js.truthy_string (Some uid) then
        bind (read (getUser uid)) (fun user =>
          match user with
          | Some user =>
              if existsb (role_eqb (role user)) roles then next user
              else ret (refuse 403 err_not_allowed)
          | None => ret (refuse 403 err_not_allowed)
          end)
      else ret (refuse 401 err_unauthorized)
  | None => ret (refuse 401 err_unauthorized)
  end.

(** [Promise.all(l.map(f))], the callbacks only reading the store. *)
Fixpoint all {A B : Type} (f : A -> Handler B) (l : list A) : Handler (list B) :=
  match l with
  | [] => ret []
  | a :: l' =>
      bind (f a) (fun b => bind (all f l') (fun bs => ret (b :: bs)))
  end.

(** [for (const a of l) await f(a)], where [f a] may throw ([None]),
    which ends the loop; [false]: it threw. *)
Fixpoint each {A B : Type} (f : A -> Handler (option B)) (l : list A)
  : Handler bool :=
  match l with
  | [] => ret true
  | a :: l' =>
      bind (f a) (fun b =>
        match b with
        | Some _ => each f l'
        | None => ret false
        end)
  end.

End Direct.

Notation "x <~ m ;; k" := (Direct.bind m (fun x => k))
(at level 61, m at next level, right associativity).

(** ** The rest of the routes of [server/routes.ts] *)

Module RoutesRest.
Import Schema Storage StorageRest Async Routes Direct.

(** *** The role hierarchy *)

Definition roleHierarchy (r : UserRole) : Z :=
  match r with
  | super_admin => 4
  | admin => 3
  | event_manager => 2
  | organizer => 1
  end.

(** For the four roles of the schema; [(roleHierarchy[r] || 0)]. *)
Definition hasMinRole (userRole minRole : UserRole) : bool :=
  Js.or_int (Some (roleHierarchy userRole)) 0
  >=? Js.or_int (Some (roleHierarchy minRole)) 0.

(** *** Accounts *)

(** The permission check of the three account routes ([canUpdate],
    [canToggle], [canDelete]): the same expression each time. *)
Definition canToggle (currentUser targetUser : User) : bool :=
  (role_eqb (role currentUser) super_admin
   && negb (role_eqb (role targetUser) super_admin))
  || (role_eqb (role currentUser) admin
      && existsb (role_eqb (role targetUser)) [event_manager; organizer])
  || (role_eqb (role currentUser) event_manager
      && role_eqb (role targetUser) organizer
      && Js.option_string_eqb (createdById targetUser)
                              (Some (user_id currentUser))).

Definition canDelete (currentUser targetUser : User) : bool :=
  canToggle currentUser targetUser.

(** PATCH /api/users/:id/toggle-active; the row is sent without its
    password. *)
Definition patch_api_users_id_toggle_active (sessionUserId : option string)
           (id : string) : Handler (Reply (option User)) :=
  requireAuth refusal sessionUserId (fun uid =>
    currentUser <~ read (getUser uid) ;;
    match currentUser with
    | None => ret (refusal 401 err_unauthorized)
    | Some currentUser =>
        targetUser <~ read (getUser id) ;;
        match targetUser with
        | None => ret (fail 404 user_missing)
        | Some targetUser =>
            if String.eqb (user_id targetUser) (user_id currentUser)
            then ret (fail 403 own_account_disable)
            else if negb (canToggle currentUser targetUser)
            then ret (refusal 403 err_not_allowed)
            else
              updated <~ updateUser id
                           (mkPartialUser None None None
                              (Some (Some (negb (Js.truthy_bool
                                                   (user_isActive targetUser)))))) ;;
              match updated with
              | Some updated => ret (ok updated)
              | None => ret (fail 500 toggle_failed)
              end
        end
    end).

(** DELETE /api/users/:id *)
Definition delete_api_users_id (sessionUserId : option string) (id : string)
  : Handler (Reply Success) :=
  requireAuth refusal sessionUserId (fun uid =>
    currentUser <~ read (getUser uid) ;;
    match currentUser with
    | None => ret (refusal 401 err_unauthorized)
    | Some currentUser =>
        targetUser <~ read (getUser id) ;;
        match targetUser with
        | None => ret (fail 404 user_missing)
        | Some targetUser =>
            if String.eqb (user_id targetUser) (user_id currentUser)
            then ret (fail 403 own_account_delete)
            else if negb (canDelete currentUser targetUser)
            then ret (refusal 403 err_not_allowed)
            else
              _ <~ deleteUser id ;;
              ret (ok success)
        end
    end).

Section Passwords.

(** [hashPassword]: the SHA-256 digest of the password, in hexadecimal. *)
Variable hashPassword : string -> string.

Record LoginBody := mkLoginBody {
  lb_username : option string;
  lb_password : option string
}.

(** POST /api/auth/login.  An [ok] answer also stores the user's id in the
    session; the row is sent without its password. *)
Definition post_api_auth_login (b : LoginBody) : Handler (Reply User) :=
  match Js.truthy_string (lb_username b) && Js.truthy_string (lb_password b),
        lb_username b, lb_password b with
  | true, Some name, Some pw =>
      user <~ read (getUserByUsername name) ;;
      let hashedPassword := hashPassword pw in
      match user with
      | Some user =>
          if negb (String.eqb (password user) hashedPassword)
          then ret (fail 401 login_wrong)
          else if negb (Js.truthy_bool (user_isActive user))
          then ret (fail 403 login_inactive)
          else ret (ok user)
      | None => ret (fail 401 login_wrong)
      end
  | _, _, _ => ret (fail 400 login_incomplete)
  end.

(** The JSON body of a create-user request, each field absent or of the
    type [insertUserSchema] asks for. *)
Record UserBody := mkUserBody {
  ub_username : option string;
  ub_password : option string;
  ub_name : option string;
  ub_role : option UserRole;
  ub_eventQuota : option (option Z);
  ub_isActive : option (option bool)
}.

Definition asks_role (b : UserBody) (r : UserRole) : bool :=
  match ub_role b with
  | Some r' => role_eqb r' r
  | None => false
  end.

(** From "Validate request" to the end of the handler. *)
Definition store_user (currentUser : User) (b : UserBody) : Handler (Reply User) :=
  match ub_username b, ub_password b, ub_name b with
  | Some name, Some pw, Some fullName =>
      existingUser <~ read (getUserByUsername name) ;;
      match existingUser with
      | Some _ => ret (fail 400 username_taken)
      | None =>
          newUser <~ createUser
                       (mkInsertUser name (hashPassword pw) fullName
                          (ub_role b)
                          (Some (Some (user_id currentUser)))
                          (ub_eventQuota b) (ub_isActive b)) ;;
          match newUser with
          | Some newUser => ret (ok newUser)
          | None => ret (fail 500 create_user_failed)
          end
      end
  | _, _, _ => ret (refusal 400 err_invalid_data)
  end.

(** POST /api/users; the row is sent without its password. *)
Definition post_api_users (sessionUserId : option string) (b : UserBody)
  : Handler (Reply User) :=
  requireAuth refusal sessionUserId (fun uid =>
    currentUser <~ read (getUser uid) ;;
    match currentUser with
    | None => ret (refusal 401 err_unauthorized)
    | Some currentUser =>
        if asks_role b admin && negb (role_eqb (role currentUser) super_admin)
        then ret (refusal 403 err_not_allowed)
        else if asks_role b event_manager
                && negb (existsb (role_eqb (role currentUser)) [super_admin; admin])
        then ret (refusal 403 err_not_allowed)
        else if asks_role b organizer
                && negb (existsb (role_eqb (role currentUser))
                                 [super_admin; admin; event_manager])
        then ret (refusal 403 err_not_allowed)
        else store_user currentUser b
    end).

End Passwords.

(** *** Events *)



(** DELETE /api/events/:id *)
Definition delete_api_events_id (sessionUserId : option string) (id : string)
  : Handler (Reply Success) :=
  requireRole' refusal [event_manager; admin; super_admin] sessionUserId (fun user =>
    event <~ read (getEvent id) ;;
    match event with
    | None => ret (refusal 404 err_event_not_found)
    | Some event =>
        if negb (canBypassOwnership (role user))
           && negb (String.eqb (eventManagerId event) (user_id user))
        then ret (refusal 403 err_not_allowed)
        else
          _ <~ deleteEvent id ;;
          ret (ok success)
    end).

(** *** Guests *)

(** GET /api/events/:id/guests *)
Definition get_api_events_id_guests (sessionUserId : option string) (id : string)
  : Handler (Reply (list Guest)) :=
  requireAuth refusal sessionUserId (fun uid =>
    user <~ read (getUser uid) ;;
    match user with
    | None => ret (refusal 401 err_unauthorized)
    | Some user =>
        event <~ read (getEvent id) ;;
        match event with
        | None => ret (refusal 404 err_event_not_found)
        | Some event =>
            if negb (canBypassOwnership (role user))
               && role_eqb (role user) event_manager
               && negb (String.eqb (eventManagerId event) (user_id user))
            then ret (refusal 403 err_not_allowed)
            else
              guests <~ read (getGuestsByEvent id) ;;
              ret (ok guests)
        end
    end).

(** The start of the single-guest routes (GET, PATCH and DELETE
    /api/guests/:id): the guest, its event and the ownership check; [next]
    is the rest of the handler. *)
Definition with_guest {A : Type} (sessionUserId : option string) (id : string)
           (next : User -> Guest -> Handler (Reply A)) : Handler (Reply A) :=
  requireRole' refusal [event_manager; admin; super_admin] sessionUserId (fun user =>
    guest <~ read (getGuest id) ;;
    match guest with
    | None => ret (fail 404 guest_missing)
    | Some guest =>
        event <~ read (getEvent (guest_eventId guest)) ;;
        match event with
        | None => ret (refusal 404 err_event_not_found)
        | Some event =>
            if negb (canBypassOwnership (role user))
               && negb (String.eqb (eventManagerId event) (user_id user))
            then ret (refusal 403 err_not_allowed)
            else next user guest
        end
    end).

(** The JSON body of an update-guest request: the five fields the
    handler reads, each absent or of its JSON type. *)
Record GuestPatchBody := mkGuestPatchBody {
  gpb_name : option string;
  gpb_phone : option (option string);
  gpb_category : option (option GuestCategory);
  gpb_companions : option (option Z);
  gpb_notes : option (option string)
}.

(** PATCH /api/guests/:id *)
Definition patch_api_guests_id (sessionUserId : option string) (id : string)
           (b : GuestPatchBody) : Handler (Reply (option Guest)) :=
  with_guest sessionUserId id (fun user guest =>
    updated <~ updateGuest id
                 (mkPartialGuest None (gpb_name b) (gpb_phone b) (gpb_category b)
                                 (gpb_companions b) (gpb_notes b) None None None) ;;
    match updated with
    | None => ret (fail 500 update_guest_failed)
    | Some updated =>
        _ <~ createAuditLog
               (mkInsertAuditLog (Some (guest_eventId guest)) (user_id user)
                  "update_guest" (Some ("تم تعديل ضيف: " ++ guest_name guest))
                  (Some (guest_id guest))) ;;
        ret (ok updated)
    end).

(** DELETE /api/guests/:id *)
Definition delete_api_guests_id (sessionUserId : option string) (id : string)
  : Handler (Reply Success) :=
  with_guest sessionUserId id (fun user guest =>
    _ <~ deleteGuest id ;;
    _ <~ createAuditLog
           (mkInsertAuditLog (Some (guest_eventId guest)) (user_id user)
              "delete_guest" (Some ("تم حذف ضيف: " ++ guest_name guest))
              (Some (guest_id guest))) ;;
    ret (ok success)).

(** *** Event organizers *)

(** POST /api/events/:id/organizers *)
Definition post_api_events_id_organizers (sessionUserId : option string)
           (id organizerId : string) : Handler (Reply EventOrganizer) :=
  requireRole' refusal [event_manager; admin; super_admin] sessionUserId (fun user =>
    event <~ read (getEvent id) ;;
    match event with
    | None => ret (refusal 404 err_event_not_found)
    | Some event =>
        if negb (canBypassOwnership (role user))
           && negb (String.eqb (eventManagerId event) (user_id user))
        then ret (refusal 403 err_not_allowed)
        else
          let assign : Handler (Reply EventOrganizer) :=
            assignment <~ assignOrganizer (mkInsertEventOrganizer id organizerId) ;;
            ret (ok assignment) in
          if role_eqb (role user) event_manager then
            assignee <~ read (getUser organizerId) ;;
            match assignee with
            | Some assignee =>
                if negb (Js.option_string_eqb (createdById assignee)
                                              (Some (user_id user)))
                then ret (fail 403 foreign_organizer)
                else assign
            | None => ret (fail 403 foreign_organizer)
            end
          else assign
    end).

(** DELETE /api/events/:id/organizers/:organizerId *)
Definition delete_api_events_id_organizers_id (sessionUserId : option string)
           (id organizerId : string) : Handler (Reply Success) :=
  requireRole' refusal [event_manager; admin; super_admin] sessionUserId (fun user =>
    event <~ read (getEvent id) ;;
    match event with
    | None => ret (refusal 404 err_event_not_found)
    | Some event =>
        if negb (canBypassOwnership (role user))
           && negb (String.eqb (eventManagerId event) (user_id user))
        then ret (refusal 403 err_not_allowed)
        else
          _ <~ removeOrganizer id organizerId ;;
          ret (ok success)
    end).

(** *** Capacity tiers *)


(** DELETE /api/capacity-tiers/:id *)
Definition delete_api_capacity_tiers_id (sessionUserId : option string)
           (id : string) : Handler (Reply Success) :=
  requireRole' refusal [super_admin] sessionUserId (fun _ =>
    tier <~ read (getCapacityTier id) ;;
    match tier with
    | None => ret (refusal 404 err_tier_not_found)
    | Some _ =>
        _ <~ deleteCapacityTier id ;;
        ret (ok success)
    end).

(** *** Quotas *)

Record TierQuotaInfo := mkTierQuotaInfo {
  info_tierId : string;
  info_tierName : string;
  info_quota : Z;
  info_used : Z;
  info_remaining : Z
}.

Inductive QuotaInfo :=
| no_quota                              (* { hasQuota: false } *)
| quota_info (hasQuota : bool) (totalQuota usedQuota remainingQuota : Z)
             (tierQuotas : list TierQuotaInfo).

(** The callback mapped over the active tiers. *)
Definition tier_quota_info (user : User) (userTierQuotas : list UserTierQuota)
           (tier : CapacityTier) : Handler TierQuotaInfo :=
  let tierQuota :=
    find (fun q => String.eqb (quota_capacityTierId q) (tier_id tier))
         userTierQuotas in
  let quota := Js.or_int (option_map quota tierQuota) 0 in
  used <~ read (getEventCountByManagerAndTier (user_id user) (tier_id tier)) ;;
  ret (mkTierQuotaInfo (tier_id tier) (tier_name tier) quota used
                       (Z.max 0 (quota - used))).

(** GET /api/quota/info *)
Definition get_api_quota_info (sessionUserId : option string)
  : Handler (Reply QuotaInfo) :=
  requireRole' refusal [event_manager; admin; super_admin] sessionUserId (fun user =>
    if negb (role_eqb (role user) event_manager) then ret (ok no_quota)
    else
      userTierQuotas <~ read (getUserTierQuotas (user_id user)) ;;
      capacityTiers <~ read getCapacityTiers ;;
      tierQuotasInfo <~ all (tier_quota_info user userTierQuotas)
                            (filter (fun t => Js.truthy_bool (tier_isActive t))
                                    capacityTiers) ;;
      let totalQuota :=
        fold_left (fun sum t => sum + info_quota t) tierQuotasInfo 0 in
      let totalUsed :=
        fold_left (fun sum t => sum + info_used t) tierQuotasInfo 0 in
      ret (ok (quota_info (totalQuota >? 0) totalQuota totalUsed
                          (Z.max 0 (totalQuota - totalUsed)) tierQuotasInfo))).

(** One entry of [tierQuotas] in the body of a quota update: a tier id and
    an integer. *)
Record TierQuotaEntry := mkTierQuotaEntry {
  tq_tierId : string;
  tq_quota : Z
}.

(** [tierQuotasUpdateSchema.safeParse]: the message of the first issue. *)
Fixpoint first_issue (tierQuotas : list TierQuotaEntry) : option Failure :=
  match tierQuotas with
  | [] => None
  | tq :: rest =>
      if tq_quota tq <? 0 then Some quota_negative
      else if 100 <? tq_quota tq then Some quota_above_100
      else first_issue rest
  end.

Definition string_of_Z (z : Z) : string :=
  NilZero.string_of_int (Z.to_int z).

(** PATCH /api/subscriptions/:id/tier-quotas *)
Definition patch_api_subscriptions_id_tier_quotas
           (sessionUserId : option string) (id : string)
           (tierQuotas : list TierQuotaEntry) : Handler (Reply Success) :=
  requireRole' refusal [super_admin] sessionUserId (fun admin_ =>
    match first_issue tierQuotas with
    | Some message => ret (fail 400 message)
    | None =>
        user <~ read (getUser id) ;;
        match user with
        | None => ret (fail 404 manager_missing)
        | Some user =>
            if negb (role_eqb (role user) event_manager)
            then ret (fail 404 manager_missing)
            else
              allTiers <~ read getCapacityTiers ;;
              let validTierIds := map tier_id allTiers in
              match find (fun tq => negb (existsb (String.eqb (tq_tierId tq))
                                                  validTierIds))
                         tierQuotas with
              | Some tq => ret (fail 400 (tier_missing (tq_tierId tq)))
              | None =>
                  stored <~ each (fun tq => setUserTierQuota id (tq_tierId tq)
                                                             (tq_quota tq))
                                 tierQuotas ;;
                  if stored then
                    let totalQuota :=
                      fold_left (fun sum tq => sum + tq_quota tq) tierQuotas 0 in
                    _ <~ createAuditLog
                           (mkInsertAuditLog None (user_id admin_)
                              "update_tier_quotas"
                              (Some ("تم تحديث حصص الباقات لـ " ++ user_name user
                                     ++ " (إجمالي: " ++ string_of_Z totalQuota
                                     ++ " مناسبة)"))
                              None) ;;
                    ret (ok success)
                  else ret (fail 500 update_quotas_failed)
              end
        end
    end).

(** *** Check-in by the QR payload *)




End RoutesRest.

(** ** Vocabulary of the further properties *)

Module SpecRest.
Import Schema Storage StorageRest Async Routes Direct RoutesRest Spec.


(** *** Access codes *)

(** The 256 values a random byte can take. *)
Definition all_bytes : list byte :=
  map (fun n => match Byte.of_N (N.of_nat n) with Some b => b | None => x00 end)
      (seq 0 256).

(** The byte values that make [generateAccessCode] write character [c]. *)
Definition picked_by (c : ascii) : list byte :=
  filter (fun b => String.eqb (pick (Some b)) (String c EmptyString)) all_bytes.

(** *** Event quotas *)

(** Event-creation requests, each with the time it is served at, its
    session and its body. *)
Definition CreationRequest : Type := Timestamp * (option string * EventBody).

Definition serve_creations (requests : list CreationRequest) (w : World)
  : list Response * World :=
  serve (map (fun r => (fst r, post_api_events (fst (snd r)) (snd (snd r))))
             requests) w.

(** The account, if there is one, is an event manager's. *)
Definition manager_account (w : World) (managerId : string) : Prop :=
  forall u, getUser managerId w = Some u -> role u = event_manager.

(** The creation step is reached by a manager only below the quota. *)
Definition below_quota (w : World) (user : User) (b : EventBody) : Prop :=
  role user = event_manager ->
  exists T, eb_capacityTierId b = Some T
            /\ used_of w (user_id user) T < quota_of w (user_id user) T.

(** The events the creation gate counts for a manager and a tier. *)
Definition counts_for (M T : string) (e : Event) : bool :=
  String.eqb (eventManagerId e) M
  && Js.option_string_eqb (event_capacityTierId e) (Some T).

(** The entry the page shows for a tier. *)
Definition entry_of (w : World) (uid : string) (tier : CapacityTier)
  : TierQuotaInfo :=
  mkTierQuotaInfo (tier_id tier) (tier_name tier)
                  (quota_of w uid (tier_id tier)) (used_of w uid (tier_id tier))
                  (Z.max 0 (quota_of w uid (tier_id tier)
                            - used_of w uid (tier_id tier))).


(** A column of the quota page, added up. *)
Definition sum_by (f : TierQuotaInfo -> Z) (l : list TierQuotaInfo) : Z :=
  fold_right (fun i s => f i + s) 0 l.


(** What a quota update has to satisfy: every quota between 0 and 100, the
    target an event manager, every tier stored. *)
Definition quota_update_valid (w : World) (id : string)
           (tierQuotas : list TierQuotaEntry) : Prop :=
  Forall (fun tq => 0 <= tq_quota tq <= 100) tierQuotas
  /\ (exists user, getUser id w = Some user /\ role user = event_manager)
  /\ Forall (fun tq => exists tier, In tier (capacityTiers w)
                                    /\ tier_id tier = tq_tierId tq) tierQuotas.

(** The quota the update asks for a tier: that of the last entry naming
    it. *)
Fixpoint asked (tierQuotas : list TierQuotaEntry) (tierId : string) : option Z :=
  match tierQuotas with
  | [] => None
  | tq :: rest =>
      match asked rest tierId with
      | Some n => Some n
      | None =>
          if String.eqb (tq_tierId tq) tierId then Some (tq_quota tq) else None
      end
  end.

(** *** Check-in *)

(** Row [g'] is row [g] but for the three check-in columns, and is checked
    in if [g] was. *)
Definition same_but_checked (g g' : Guest) : Prop :=
  guest_id g' = guest_id g /\ guest_eventId g' = guest_eventId g
  /\ guest_name g' = guest_name g /\ phone g' = phone g
  /\ category g' = category g /\ companions g' = companions g
  /\ notes g' = notes g /\ qrCode g' = qrCode g
  /\ guest_createdAt g' = guest_createdAt g
  /\ (Js.truthy_bool (isCheckedIn g) = true ->
      Js.truthy_bool (isCheckedIn g') = true).

(** Every table but the guests and the audit log is the same. *)
Definition same_setup (w w' : World) : Prop :=
  users w' = users w /\ events w' = events w
  /\ eventOrganizers w' = eventOrganizers w
  /\ capacityTiers w' = capacityTiers w
  /\ userTierQuotas w' = userTierQuotas w.


(** What a scan does to the store: nothing, a line in the audit log, or the
    stamp on the rows with one id. *)
Definition scan_effect (id0 : string) (w w' : World) : Prop :=
  same_setup w w'
  /\ (guests w' = guests w
      \/ exists by_ t, guests w' = map (stamp_check_in id0 by_ t) (guests w)).

(** The audit line of a check-in of guest [g] by user [uid]. *)
Definition check_in_line (l : AuditLog) (uid : string) (g : Guest) : Prop :=
  action l = "check_in" /\ log_userId l = uid
  /\ log_guestId l = Some (guest_id g)
  /\ log_eventId l = Some (guest_eventId g).

(** What a request that answered [r] has left of store [w] in [w']: after
    a SUCCESS one more audit line, for a stored guest; after any other
    answer the store as it was. *)
Definition audited (uid : string) (w : World) (out : Response * World) : Prop :=
  (kind_of (fst out) = Some SUCCESS ->
   exists l g,
     auditLogs (snd out) = (auditLogs w ++ [l])%list
     /\ check_in_line l uid g /\ In g (guests w))
  /\ (kind_of (fst out) <> Some SUCCESS -> snd out = w).

(** *** Guests *)

(** Row [g'] is row [g] but for the columns of the guest form: name,
    phone, category, companions and notes. *)
Definition same_entry (g g' : Guest) : Prop :=
  guest_id g' = guest_id g /\ guest_eventId g' = guest_eventId g
  /\ qrCode g' = qrCode g /\ isCheckedIn g' = isCheckedIn g
  /\ checkedInAt g' = checkedInAt g /\ checkedInBy g' = checkedInBy g
  /\ guest_createdAt g' = guest_createdAt g.

(** *** Events *)


(** *** Requests in flight together *)



End SpecRest.

(** ** More of the small deployment *)

Module ExamplesRest.
Import Schema Storage StorageRest Async Routes Direct RoutesRest Spec SpecRest.
Import Examples.

(** The wedding after its manager switched it off. *)
Definition closed_wedding : Event :=
  mkEvent "e1" "Wedding" None 100 None None None "m1" (Some "small") (Some false)
          None.

Definition closed_venue : World :=
  set_events venue [closed_wedding; launch] 0.



(** A stand-in for the digest, for running the account routes. *)
Definition digest (pw : string) : string := "sha256:" ++ pw.

(** The usher asks for a super admin account. *)
Definition escalation : UserBody :=
  mkUserBody (Some "root2") (Some "secret") (Some "Root") (Some super_admin)
             None None.

(** The venue with the usher's password stored as its digest. *)
Definition venue_with_passwords : World :=
  set_users venue
    [owner; manager; other_manager;
     mkUser "o1" "usher" (digest "door") "Omar" organizer (Some "m1") None
            (Some true) None;
     other_usher] 0.

End ExamplesRest.

(** * Properties *)

(** ** Lists *)

Module ListFacts.

Lemma filter_map_stable {A : Type} (p : A -> bool) (f : A -> A) (l : list A) :
  (forall a, p (f a) = p a) ->
  filter p (map f l) = map f (filter p l).
Proof.
  intros Hp. induction l as [|a l IH]; [reflexivity|].
  cbn [map filter]. rewrite Hp. destruct (p a); cbn [map]; now rewrite IH.
Qed.

Lemma find_map_stable {A : Type} (p : A -> bool) (f : A -> A) (l : list A) :
  (forall a, p (f a) = p a) ->
  find p (map f l) = option_map f (find p l).
Proof.
  intros Hp. induction l as [|a l IH]; [reflexivity|].
  cbn [map find]. rewrite Hp. destruct (p a); [reflexivity|exact IH].
Qed.


End ListFacts.

(** ** Access codes *)

Module AccessCode.
Import Routes Spec.

Lemma pick_byte (b : byte) :
  exists c, pick (Some b) = String c EmptyString /\ in_alphabet c = true.
Proof.
  destruct b; vm_compute; eexists; split; reflexivity.
Qed.

Ltac name_char b :=
  let c := fresh "c" in
  let Hc := fresh "Hc" in
  let Hin := fresh "Hin" in
  destruct (pick_byte b) as [c [Hc Hin]]; rewrite Hc; clear Hc.

(** C9. Whatever twelve bytes the random source returns, the access code
    is twelve characters of the 32-character alphabet
    ABCDEFGHJKLMNPQRSTUVWXYZ23456789, which has neither 0, O, 1 nor I,
    written as three groups of four joined by dashes: fourteen characters
    in all. *)
Theorem generateAccessCode_format (bytes : list byte) :
  length bytes = 12%nat ->
  well_formed (generateAccessCode bytes)
  /\ String.length (generateAccessCode bytes) = 14%nat
  /\ chars = "ABCDEFGHJKLMNPQRSTUVWXYZ23456789"
  /\ length alphabet = 32%nat
  /\ in_alphabet "0" = false /\ in_alphabet "O" = false
  /\ in_alphabet "1" = false /\ in_alphabet "I" = false.
Proof.
  intros Hlen.
  do 12 (destruct bytes as [|? bytes]; [discriminate Hlen|]).
  destruct bytes; [clear Hlen|discriminate Hlen].
  unfold generateAccessCode.
  cbn [seq fold_left nth_error].
  name_char b. name_char b0. name_char b1. name_char b2.
  name_char b3. name_char b4. name_char b5. name_char b6.
  name_char b7. name_char b8. name_char b9. name_char b10.
  cbn [append slice String.substring Nat.sub].
  split; [|repeat split].
  exists (String c (String c0 (String c1 (String c2 EmptyString)))),
         (String c3 (String c4 (String c5 (String c6 EmptyString)))),
         (String c7 (String c8 (String c9 (String c10 EmptyString)))).
  cbn [append String.length all_in_alphabet].
  rewrite Hin, Hin0, Hin1, Hin2, Hin3, Hin4, Hin5, Hin6, Hin7, Hin8, Hin9, Hin10.
  repeat split.
Qed.

Lemma generateAccessCode_format_witness :
  generateAccessCode [x00; x1f; x20; xff; x07; x08; x41; x7a; x10; x19; x1a; x63]
  = "A9A9-HJB4-S34D"
  /\ well_formed
       (generateAccessCode
          [x00; x1f; x20; xff; x07; x08; x41; x7a; x10; x19; x1a; x63]).
Proof.
  split; [reflexivity|].
  apply (generateAccessCode_format
           [x00; x1f; x20; xff; x07; x08; x41; x7a; x10; x19; x1a; x63]).
  reflexivity.
Defined.

End AccessCode.

(** ** Sessions and roles *)

Module Session.
Import Schema Storage Async Routes Spec.

Lemma getUser_id w uid user : getUser uid w = Some user -> user_id user = uid.
Proof.
  unfold getUser. intros H. apply find_some in H. destruct H as [_ H].
  now apply String.eqb_eq in H.
Qed.

Lemma run_requireRole roles w uid user next :
  logged_in w uid user ->
  existsb (role_eqb (role user)) roles = true ->
  run (requireRole roles (Some uid) next) w = run (next user) w.
Proof.
  intros [Huid Huser] Hrole. unfold requireRole.
  rewrite Huid. cbn [run exec]. rewrite Huser, Hrole. reflexivity.
Qed.



End Session.

(** ** The quota gate of event creation *)

Module EventQuota.
Import Schema Storage Async Routes Spec Session.

(** The count the storage method returns is the live count. *)
Lemma count_is_live w managerId tierId :
  getEventCountByManagerAndTier managerId tierId w = used_of w managerId tierId.
Proof.
  unfold getEventCountByManagerAndTier, used_of.
  induction (events w) as [|e es IH]; [reflexivity|].
  cbn [filter live_count]. unfold on_tier at 1.
  replace (Js.option_string_eqb (event_capacityTierId e) (Some tierId))
    with (match event_capacityTierId e with
          | Some t => String.eqb t tierId
          | None => false
          end) by (destruct (event_capacityTierId e); reflexivity).
  destruct (String.eqb (eventManagerId e) managerId && _);
    cbn [length]; rewrite <- IH; lia.
Qed.


(** The row the handler picks from the manager's quota rows is the
    manager's first row for the tier. *)
Lemma quota_row_found w managerId tierId :
  find (fun q => String.eqb (quota_capacityTierId q) tierId)
       (getUserTierQuotas managerId w)
  = find (quota_row_of managerId tierId) (userTierQuotas w).
Proof.
  unfold getUserTierQuotas.
  induction (userTierQuotas w) as [|q qs IH]; [reflexivity|].
  cbn [filter find]. unfold quota_row_of at 1.
  destruct (String.eqb (quota_userId q) managerId); cbn [find andb];
    [|exact IH].
  destruct (String.eqb (quota_capacityTierId q) tierId); [reflexivity|exact IH].
Qed.

Lemma or_int_quota (q : option UserTierQuota) :
  Js.or_int (option_map quota q) 0
  = match q with Some q => quota q | None => 0 end.
Proof.
  destruct q as [q|]; [|reflexivity].
  unfold Js.or_int. simpl. destruct (quota q =? 0) eqn:E; simpl; [|reflexivity].
  apply Z.eqb_eq in E. congruence.
Qed.








End EventQuota.

(** ** What the columns hold *)

Module Columns.
Import Schema Storage Routes Spec.

Lemma int4_range n : int4 n = true <-> -2147483648 <= n <= 2147483647.
Proof.
  unfold int4. rewrite andb_true_iff, !Z.leb_le. tauto.
Qed.



Lemma guestCategory_labels label :
  match guestCategory label with
  | Some _ => In label ["vip"; "regular"; "media"; "sponsor"]
  | None => ~ In label ["vip"; "regular"; "media"; "sponsor"]
  end.
Proof.
  unfold guestCategory.
  destruct (String.eqb_spec label "vip") as [->|N1]; [cbn; auto|].
  destruct (String.eqb_spec label "regular") as [->|N2]; [cbn; auto|].
  destruct (String.eqb_spec label "media") as [->|N3]; [cbn; auto|].
  destruct (String.eqb_spec label "sponsor") as [->|N4]; [cbn; auto 6|].
  cbn. intros [H|[H|[H|[H|[]]]]]; congruence.
Qed.

(** A record has a row exactly when it fits the columns. *)
Lemma new_guest_fits g w :
  match new_guest g w with
  | Some row =>
      storable g
      /\ guest_id row = fresh_id w
      /\ guest_eventId row = ig_eventId g
      /\ guest_name row = ig_name g
      /\ qrCode row = ig_qrCode g
      /\ isCheckedIn row = Some false
  | None => ~ storable g
  end.
Proof.
  unfold new_guest, storable, fits_columns, column.
  assert (Hcat :
            match (match ig_category g with
                   | Some a => option_map (@Some GuestCategory) (guestCategory a)
                   | None => Some (Some regular)
                   end) with
            | Some _ => forall label, ig_category g = Some label ->
                                      In label ["vip"; "regular"; "media"; "sponsor"]
            | None => exists label, ig_category g = Some label
                                    /\ ~ In label ["vip"; "regular"; "media"; "sponsor"]
            end).
  { destruct (ig_category g) as [label|]; [|discriminate].
    pose proof (guestCategory_labels label) as F.
    destruct (guestCategory label); cbn.
    - intros l Hl. inversion Hl. subst l. exact F.
    - exists label. split; [reflexivity|exact F]. }
  assert (Hcomp :
            match (match ig_companions g with
                   | Some a => option_map (@Some Z) (if int4 a then Some a else None)
                   | None => Some (Some 0)
                   end) with
            | Some _ => forall n, ig_companions g = Some n ->
                                  -2147483648 <= n <= 2147483647
            | None => exists n, ig_companions g = Some n
                                /\ ~ -2147483648 <= n <= 2147483647
            end).
  { destruct (ig_companions g) as [n|]; [|discriminate].
    destruct (int4 n) eqn:E; cbn.
    - intros m Hm. inversion Hm. subst m. now apply int4_range.
    - exists n. split; [reflexivity|]. rewrite <- int4_range. congruence. }
  destruct (match ig_category g with Some _ => _ | None => _ end) as [c|].
  - destruct (match ig_companions g with Some _ => _ | None => _ end) as [n|].
    + cbn. split; [split; assumption|repeat split].
    + destruct Hcomp as [n [Hn Hno]]. intros [_ H]. apply Hno. now apply H.
  - destruct Hcat as [l [Hl Hno]]. intros [H _]. apply Hno. now apply H.
Qed.

(** The insert of one record goes through exactly when the record fits
    the columns and its code is new. *)
Lemma createGuest_stores g w :
  storable g -> code_taken (ig_qrCode g) w = false ->
  exists row,
    new_guest g w = Some row
    /\ createGuest g w
       = (Some row, set_guests w (guests w ++ [row]) (S (drawn w))).
Proof.
  intros Hfit Hfree. unfold createGuest.
  pose proof (new_guest_fits g w) as F.
  destruct (new_guest g w) as [row|]; [|contradiction].
  rewrite Hfree. exists row. split; reflexivity.
Qed.

Lemma createGuest_some g w row w' :
  createGuest g w = (Some row, w') ->
  storable g /\ code_taken (ig_qrCode g) w = false
  /\ new_guest g w = Some row
  /\ w' = set_guests w (guests w ++ [row]) (S (drawn w)).
Proof.
  unfold createGuest. pose proof (new_guest_fits g w) as F.
  destruct (new_guest g w) as [r|]; [|discriminate].
  destruct (code_taken (ig_qrCode g) w); [discriminate|].
  intros H. inversion H. subst. destruct F as [F _].
  split; [exact F|]. repeat split.
Qed.


(** What the single add offers the columns. *)
Lemma body_storable b id name bytes :
  guest_body_storable b <-> storable (guest_of_body id name b bytes).
Proof.
  unfold guest_body_storable, storable, fits_columns, guest_of_body.
  cbn [ig_category ig_companions]. split.
  - intros [Hc Hn]. split.
    + intros label Hl. inversion Hl. unfold Js.or_string, Js.truthy_string.
      destruct (gb_category b) as [l|]; [|cbn; auto].
      destruct (String.eqb l "") eqn:E; cbn; [auto|].
      apply String.eqb_neq in E.
      destruct (Hc l eq_refl) as [E'|Hin]; [contradiction|exact Hin].
    + intros n Hx. inversion Hx. unfold Js.or_int, Js.truthy_int.
      destruct (gb_companions b) as [m|]; [|lia].
      destruct (m =? 0); cbn; [lia|now apply Hn].
  - intros [Hc Hn]. split.
    + intros l Hl. specialize (Hc _ eq_refl).
      unfold Js.or_string, Js.truthy_string in Hc. rewrite Hl in Hc.
      destruct (String.eqb l "") eqn:E;
        [left; now apply String.eqb_eq|right; exact Hc].
    + intros n Hx. specialize (Hn _ eq_refl).
      unfold Js.or_int, Js.truthy_int in Hn. rewrite Hx in Hn.
      destruct (n =? 0) eqn:E; cbn in Hn; [apply Z.eqb_eq in E; lia|exact Hn].
Qed.

Lemma trim_nonblank name : Js.trim name <> "" -> Js.truthy_string (Some name) = true.
Proof.
  destruct name; [intros H; exfalso; apply H; reflexivity|reflexivity].
Qed.

End Columns.

(** ** Tier quotas are upserted *)

Module TierQuota.
Import Schema Storage Spec ListFacts Columns.

Lemma overwrite_keeps_key u t n now u' t' q :
  quota_for u' t' (overwrite_quota u t n now q) = quota_for u' t' q.
Proof.
  unfold overwrite_quota. destruct (quota_for u t q); reflexivity.
Qed.

Lemma overwrite_own u t n now q :
  quota_for u t q = true -> quota (overwrite_quota u t n now q) = n.
Proof.
  intros H. unfold overwrite_quota. rewrite H. reflexivity.
Qed.

Lemma quota_for_refl u t id n c d :
  quota_for u t (mkUserTierQuota id u t n c d) = true.
Proof.
  unfold quota_for. cbn. now rewrite !String.eqb_refl.
Qed.

(** A quota that does not fit its column is refused, and nothing is
    written. *)
Lemma setUserTierQuota_refused w u t n :
  int4 n = false -> setUserTierQuota u t n w = (None, w).
Proof.
  intros H. unfold setUserTierQuota, write_quota. now rewrite H.
Qed.

(** The rows of the pair after a call: the one new row when there was
    none, the old rows overwritten otherwise. *)
Lemma setUserTierQuota_rows w u t n :
  int4 n = true ->
  rows_for (snd (setUserTierQuota u t n w)) u t
  = match rows_for w u t with
    | [] => [mkUserTierQuota (fresh_id w) u t n (Some (clock w)) (Some (clock w))]
    | rows => map (overwrite_quota u t n (clock w)) rows
    end.
Proof.
  intros Hfit. unfold rows_for, setUserTierQuota, write_quota, select_quota.
  change quota_row_of with quota_for.
  rewrite Hfit. cbn [negb].
  destruct (filter (quota_for u t) (userTierQuotas w)) as [|q rest] eqn:Hrows.
  - cbn [length Nat.ltb Nat.leb snd userTierQuotas set_userTierQuotas].
    rewrite filter_app, Hrows. cbn [filter app].
    now rewrite quota_for_refl.
  - cbn [length Nat.ltb Nat.leb snd userTierQuotas set_userTierQuotas].
    rewrite filter_map_stable by (intro; apply overwrite_keeps_key).
    now rewrite Hrows.
Qed.

Lemma overwritten_rows u t n now (rows : list UserTierQuota) :
  Forall (fun q => quota_for u t q = true) rows ->
  Forall (fun q => quota q = n) (map (overwrite_quota u t n now) rows).
Proof.
  induction 1 as [|q rows Hq _ IH]; cbn [map]; constructor;
    [now apply overwrite_own|exact IH].
Qed.

Lemma rows_for_own w u t :
  Forall (fun q => quota_for u t q = true) (rows_for w u t).
Proof.
  apply Forall_forall. intros q Hin. unfold rows_for in Hin.
  change quota_row_of with quota_for in Hin.
  apply filter_In in Hin. tauto.
Qed.

(** After a call the pair has as many rows as before, one if it had none,
    and each holds the value of the call. *)
Lemma setUserTierQuota_overwrites w u t n :
  int4 n = true ->
  let w' := snd (setUserTierQuota u t n w) in
  length (rows_for w' u t) = Nat.max 1 (length (rows_for w u t))
  /\ Forall (fun q => quota q = n) (rows_for w' u t).
Proof.
  intros Hfit w'. unfold w'. rewrite (@setUserTierQuota_rows w u t n Hfit).
  pose proof (rows_for_own w u t) as Hown.
  destruct (rows_for w u t) as [|q rest] eqn:Hrows.
  - split; [reflexivity|]. constructor; [reflexivity|constructor].
  - split; [rewrite length_map; cbn [length]; lia|].
    now apply overwritten_rows.
Qed.

(** After a call, a pair that had at most one row has one, holding the
    value of the call. *)
Lemma setUserTierQuota_row w u t n :
  int4 n = true ->
  (length (rows_for w u t) <= 1)%nat ->
  exists row,
    rows_for (snd (setUserTierQuota u t n w)) u t = [row] /\ quota row = n.
Proof.
  intros Hfit Hone.
  destruct (@setUserTierQuota_overwrites w u t n Hfit) as [Hlen Hall].
  destruct (rows_for (snd (setUserTierQuota u t n w)) u t) as [|row rest];
    [cbn [length] in Hlen; lia|].
  destruct rest; [|cbn [length] in Hlen; lia].
  exists row. split; [reflexivity|]. now inversion Hall.
Qed.

(** Calls that do not overlap keep the table keyed by the pair. *)
Lemma setUserTierQuota_keyed w u t n :
  quotas_keyed w -> quotas_keyed (snd (setUserTierQuota u t n w)).
Proof.
  intros Hkey u' t'. specialize (Hkey u' t') as Hk.
  destruct (int4 n) eqn:Hfit;
    [|now rewrite (@setUserTierQuota_refused w u t n Hfit)].
  unfold rows_for in *. change quota_row_of with quota_for in *.
  unfold setUserTierQuota, write_quota, select_quota.
  rewrite Hfit. cbn [negb].
  destruct (0 <? length (filter (quota_for u t) (userTierQuotas w)))%nat eqn:Hex;
    cbn [snd userTierQuotas set_userTierQuotas].
  - rewrite filter_map_stable by (intro; apply overwrite_keeps_key).
    now rewrite length_map.
  - rewrite filter_app, length_app. cbn [filter].
    destruct (quota_for u' t' _) eqn:Hnew; cbn [length]; [|lia].
    unfold quota_for in Hnew. cbn in Hnew.
    apply andb_true_iff in Hnew. destruct Hnew as [Hu Ht].
    apply String.eqb_eq in Hu. apply String.eqb_eq in Ht. subst u' t'.
    apply Nat.ltb_ge in Hex. lia.
Qed.

Lemma setUserTierQuota_length w u t n :
  rows_for w u t <> [] ->
  length (userTierQuotas (snd (setUserTierQuota u t n w)))
  = length (userTierQuotas w).
Proof.
  intros Hsome. unfold setUserTierQuota, write_quota, select_quota.
  destruct (negb (int4 n)); [reflexivity|].
  unfold rows_for in Hsome. change quota_row_of with quota_for in Hsome.
  destruct (filter (quota_for u t) (userTierQuotas w)); [congruence|].
  cbn [length Nat.ltb Nat.leb snd userTierQuotas set_userTierQuotas].
  apply length_map.
Qed.

(** C6 does not hold as specified.  The upsert is a select followed by a
    separate update or insert, and the table has no unique index on the
    pair: two calls for a pair without a row that are in flight together
    both insert.  From then on the pair has two rows, and
    [setUserTierQuota(u,t,5)] followed by [setUserTierQuota(u,t,3)] leaves
    two. *)
Lemma upsert_counterexample :
  quotas_keyed Examples.venue
  /\ rows_for Examples.venue "m2" "small" = []
  /\ map quota
         (rows_for (setUserTierQuota_twice "m2" "small" 5 3 Examples.venue)
                   "m2" "small")
     = [5; 3]
  /\ (let w := setUserTierQuota_twice "m2" "small" 1 2 Examples.venue in
      let w1 := snd (setUserTierQuota "m2" "small" 5 w) in
      let w2 := snd (setUserTierQuota "m2" "small" 3 w1) in
      map quota (rows_for w "m2" "small") = [1; 2]
      /\ map quota (rows_for w2 "m2" "small") = [3; 3]).
Proof.
  split; [|split; [|split; [|split]]]; try reflexivity.
  intros u t. unfold rows_for. cbn.
  destruct (quota_row_of u t _); cbn; lia.
Qed.

(** C6, as the code has it.  [setUserTierQuota(u,t,5)] followed by
    [setUserTierQuota(u,t,3)], each call ending before the next starts,
    overwrites: the second call adds no row, and every row of (u,t) then
    holds 3, not 8.  The pair is left with as many rows as it had, one if
    it had none; so with exactly one row, its quota 3, on a table that has
    at most one row per pair, which such calls keep so.  The same holds for
    any two values that fit the 32 bits of the column. *)
Theorem setUserTierQuota_upsert w u t (first second : Z) :
  -2147483648 <= first <= 2147483647 ->
  -2147483648 <= second <= 2147483647 ->
  let w1 := snd (setUserTierQuota u t first w) in
  let w2 := snd (setUserTierQuota u t second w1) in
  length (userTierQuotas w2) = length (userTierQuotas w1)
  /\ length (rows_for w2 u t) = Nat.max 1 (length (rows_for w u t))
  /\ Forall (fun row => quota row = second) (rows_for w2 u t)
  /\ (quotas_keyed w ->
      (exists row, rows_for w2 u t = [row] /\ quota row = second)
      /\ (first = 5 -> second = 3 ->
          exists row, rows_for w2 u t = [row] /\ quota row = 3)
      /\ quotas_keyed w2).
Proof.
  intros H1 H2 w1 w2.
  apply int4_range in H1. apply int4_range in H2.
  destruct (@setUserTierQuota_overwrites w u t first H1) as [Hlen1 _].
  fold w1 in Hlen1.
  destruct (@setUserTierQuota_overwrites w1 u t second H2) as [Hlen2 Hall2].
  fold w2 in Hlen2, Hall2.
  split; [|split; [|split; [exact Hall2|]]].
  - apply setUserTierQuota_length. intros Hnone.
    rewrite Hnone in Hlen1. cbn [length] in Hlen1. lia.
  - lia.
  - intros Hkey.
    assert (Hk1 : quotas_keyed w1) by (apply setUserTierQuota_keyed; exact Hkey).
    destruct (@setUserTierQuota_row w1 u t second H2 (Hk1 u t)) as [r2 [Hr2 Hq2]].
    fold w2 in Hr2.
    split; [exists r2; split; assumption|].
    split; [intros _ H3; exists r2; split; [assumption|congruence]|].
    apply setUserTierQuota_keyed; exact Hk1.
Qed.

Lemma setUserTierQuota_upsert_witness :
  exists row,
    rows_for
      (snd (setUserTierQuota "m1" "small" 3
              (snd (setUserTierQuota "m1" "small" 5 Examples.venue))))
      "m1" "small" = [row]
    /\ quota row = 3.
Proof.
  assert (Hkey : quotas_keyed Examples.venue).
  { intros u t. unfold rows_for. cbn.
    destruct (quota_row_of u t _); cbn; lia. }
  assert (H5 : -2147483648 <= 5 <= 2147483647) by lia.
  assert (H3 : -2147483648 <= 3 <= 2147483647) by lia.
  destruct (@setUserTierQuota_upsert Examples.venue "m1" "small" 5 3 H5 H3)
    as [_ [_ [_ Hkeyed]]].
  destruct (Hkeyed Hkey) as [_ [Hrow _]].
  apply Hrow; reflexivity.
Defined.

End TierQuota.

(** ** The capacity tier registry *)

Module TierRegistry.
Import Schema Storage Async Routes Spec Session ListFacts Columns.















End TierRegistry.

(** ** The guest capacity enforcer *)

Module Capacity.
Import Schema Storage Async Routes Spec Session ListFacts Columns.

Lemma may_manage_role w uid user id event :
  may_manage w uid user id event ->
  existsb (role_eqb (role user)) [event_manager; admin; super_admin] = true.
Proof.
  intros [_ [Hrole _]]. destruct (role user); try reflexivity. congruence.
Qed.

Lemma may_manage_owner w uid user id event :
  may_manage w uid user id event ->
  negb (canBypassOwnership (role user))
  && negb (String.eqb (eventManagerId event) (user_id user)) = false.
Proof.
  intros [_ [_ [_ [Hby | Hown]]]].
  - rewrite Hby. reflexivity.
  - rewrite Hown, String.eqb_refl. apply andb_false_r.
Qed.

(** The rows the storage method returns are as many as the guests of the
    event. *)
Lemma guest_count_length w id :
  Z.of_nat (length (getGuestsByEvent id w)) = guest_count w id.
Proof.
  unfold getGuestsByEvent, guest_count.
  induction (guests w) as [|g gs IH]; [reflexivity|].
  cbn [filter guests_of].
  destruct (String.eqb (guest_eventId g) id); cbn [length]; rewrite <- IH; lia.
Qed.



Lemma unbounded_limit w event :
  unbounded w event -> guest_limit w event = None.
Proof.
  unfold guest_limit. intros [Hno | [T [HT Hrest]]].
  - rewrite Hno. reflexivity.
  - rewrite HT. destruct (Js.truthy_string (Some T)); [|reflexivity].
    destruct Hrest as [Hnone | [tier [Hget Hun]]].
    + rewrite Hnone. reflexivity.
    + rewrite Hget, Hun. reflexivity.
Qed.

(** The single add, with the reads resolved. *)
Lemma run_post_guest w uid user id event b bytes :
  may_manage w uid user id event ->
  run (post_api_events_id_guests (Some uid) id b bytes) w
  = match guest_limit w event with
    | Some M =>
        if guest_count w id >=? M
        then (res 403 (json_error (err_guest_limit M)), w)
        else run (add_guest user id b bytes) w
    | None => run (add_guest user id b bytes) w
    end.
Proof.
  intros Hm. pose proof Hm as [Hlog [_ [Hev _]]].
  unfold post_api_events_id_guests.
  rewrite (run_requireRole _ _ Hlog (may_manage_role Hm)).
  cbn [run exec]. rewrite Hev, (may_manage_owner Hm).
  unfold guest_limit. rewrite <- ?guest_count_length.
  destruct (Js.truthy_string (event_capacityTierId event)); [|reflexivity].
  destruct (event_capacityTierId event) as [T|]; [|reflexivity].
  cbn [run exec]. destruct (getCapacityTier T w) as [tier|]; [|reflexivity].
  destruct (negb (Js.truthy_bool (isUnlimited tier)) && Js.truthy_int (maxGuests tier));
    [|reflexivity].
  destruct (maxGuests tier) as [M|]; [|reflexivity].
  cbn [run exec]. destruct (_ >=? M); reflexivity.
Qed.



Lemma add_guest_adds w user id b bytes name :
  gb_name b = Some name ->
  Js.trim name <> "" ->
  guest_body_storable b ->
  code_taken (generateAccessCode bytes) w = false ->
  guest_added w id (run (add_guest user id b bytes) w).
Proof.
  intros Hn Htrim Hfit Hfree. unfold add_guest.
  rewrite Hn, (@trim_nonblank name Htrim).
  destruct (String.eqb (Js.trim name) "") eqn:E;
    [apply String.eqb_eq in E; contradiction|].
  cbn [run exec].
  destruct (@createGuest_stores (guest_of_body id name b bytes) w)
    as [row [Hrow Hstore]];
    [now apply body_storable|exact Hfree|].
  rewrite Hstore. cbn [run exec createAuditLog]. exists row. cbn [fst snd].
  pose proof (new_guest_fits (guest_of_body id name b bytes) w) as F.
  rewrite Hrow in F. destruct F as [_ [_ [He [_ [_ Hp]]]]].
  split; [reflexivity|]. split; [reflexivity|].
  split; [exact He|now rewrite Hp].
Qed.


(** *** The multi-row insert *)














(** *** Single add *)




(** *** Bulk import *)




End Capacity.

(** ** The check-in state machine *)

Module CheckIn.
Import Schema Storage Async Routes Spec Session ListFacts.

Lemma any_role_may_scan r :
  existsb (role_eqb r) [organizer; event_manager; admin; super_admin] = true.
Proof. destruct r; reflexivity. Qed.

Lemma run_verify_access w uid user eventId next :
  may_check_in w uid user eventId ->
  run (verify_access user eventId next) w = run next w.
Proof.
  intros [_ Hrel]. unfold verify_access.
  destruct (role user); try reflexivity; cbn [run exec].
  - destruct Hrel as [event [Hev Hown]]. rewrite Hev, Hown, String.eqb_refl.
    reflexivity.
  - rewrite Hrel. reflexivity.
Qed.

Lemma run_verify_access_barred w uid user eventId next :
  barred w uid user eventId ->
  run (verify_access user eventId next) w
  = (res 403 (json_error err_not_allowed), w).
Proof.
  intros [_ Hrel]. unfold verify_access.
  destruct (role user); try contradiction; cbn [run exec].
  - destruct Hrel as [Hnone | [event [Hev Hother]]].
    + rewrite Hnone. reflexivity.
    + rewrite Hev. apply String.eqb_neq in Hother. rewrite Hother. reflexivity.
  - rewrite Hrel. reflexivity.
Qed.

Lemma run_answer_duplicate w g :
  run (answer_duplicate g) w = (duplicate_answer w g, w).
Proof.
  unfold answer_duplicate, duplicate_answer, checker_name.
  destruct (Js.truthy_string (checkedInBy g)); [|reflexivity].
  destruct (checkedInBy g); reflexivity.
Qed.

(** Both routes, up to the point where the guest's flag is looked at;
    [after_access] is what the access block makes of the rest. *)
Lemma run_scan w id g s user (after_access : Prog Response -> Response * World) :
  getGuest id w = Some g ->
  logged_in w (scan_uid s) user ->
  reaches w g s ->
  (forall next, run (verify_access user (guest_eventId g) next) w
                = after_access next) ->
  run (scan_program id s) w
  = after_access
      (if Js.truthy_bool (isCheckedIn g)
       then answer_duplicate g
       else record_check_in user g
              match s with scan_id _ => id | scan_code _ _ _ => guest_id g end
              match s with
              | scan_id _ => "تم تسجيل حضور: "
              | scan_code _ _ _ => "تم تسجيل حضور عبر المسح: "
              end).
Proof.
  intros Hg Hlog Hreach Hverify. destruct s as [uid | uid code hint].
  - cbn [scan_program scan_uid] in *. unfold post_api_guests_id_check_in.
    rewrite (run_requireRole _ _ Hlog (any_role_may_scan _)).
    cbn [run exec]. rewrite Hg. apply Hverify.
  - cbn [scan_program scan_uid reaches] in *.
    destruct Hreach as [Hcode [Hfind Hhint]].
    unfold post_api_check_in_code.
    rewrite (run_requireRole _ _ Hlog (any_role_may_scan _)).
    rewrite Hcode. cbn [run exec]. rewrite Hfind.
    unfold hint_fits in Hhint. rewrite Hhint. apply Hverify.
Qed.

(** A scan of a checked-in guest by an allowed user. *)
Lemma run_scan_duplicate w id g s :
  getGuest id w = Some g ->
  Js.truthy_bool (isCheckedIn g) = true ->
  scan_allowed w g s ->
  run (scan_program id s) w = (duplicate_answer w g, w).
Proof.
  intros Hg Hin [[user Hmay] Hreach].
  rewrite (@run_scan w id g s user (fun next => run next w)
             Hg (proj1 Hmay) Hreach);
    [|intros; apply (run_verify_access _ Hmay)].
  rewrite Hin. apply run_answer_duplicate.
Qed.

(** A scan by a user barred from the guest's event. *)
Lemma run_scan_barred w id g s user :
  getGuest id w = Some g ->
  barred w (scan_uid s) user (guest_eventId g) ->
  reaches w g s ->
  run (scan_program id s) w = (res 403 (json_error err_not_allowed), w).
Proof.
  intros Hg Hbar Hreach.
  apply (@run_scan w id g s user
           (fun _ => (res 403 (json_error err_not_allowed), w))
           Hg (proj1 Hbar) Hreach).
  intros; apply (run_verify_access_barred _ Hbar).
Qed.

Lemma same_store_refl w : same_store w w.
Proof. unfold same_store. destruct w; reflexivity. Qed.

(** Scans of a checked-in guest, one after the other: the same answer
    each time, and the same tables afterwards. *)
Lemma serve_duplicates id g calls :
  forall w,
    getGuest id w = Some g ->
    Js.truthy_bool (isCheckedIn g) = true ->
    Forall (fun c => scan_allowed w g (snd c)) calls ->
    exists w',
      serve_scans id calls w = (repeat (duplicate_answer w g) (length calls), w')
      /\ same_store w w'.
Proof.
  unfold serve_scans.
  induction calls as [|[t s] calls IH]; intros w Hg Hin Hall.
  - exists w. split; [reflexivity|apply same_store_refl].
  - inversion Hall as [|c cs Hs Hrest]; subst. cbn [snd] in Hs.
    cbn [map serve fst snd].
    rewrite (@run_scan_duplicate (set_clock w t) id g s Hg Hin Hs).
    destruct (IH (set_clock w t) Hg Hin Hrest) as [w' [Hserve Hsame]].
    rewrite Hserve. exists w'. split; [reflexivity|].
    unfold same_store in *. rewrite Hsame at 1. reflexivity.
Qed.

(** *** Duplicates *)

(** C3 does not hold as specified: scans of a guest who is already
    checked in need not get the same answer.  The usher's request reads
    the guest as pending and waits; the owner's request checks the guest
    in.  The manager's scan of the guest, now checked in, is answered
    DUPLICATE with the owner as the checker.  Then the write of the usher's
    request lands, keyed on the id alone, and stamps the row again: the
    next scan is answered DUPLICATE with the usher as the checker. *)
Lemma late_write_counterexample :
  exists (first second : Response) (g g' : Guest),
    let started := interleave Examples.usher_waits Examples.four_scans
                              Examples.venue in
    let ended := interleave Examples.usher_writes (fst started) (snd started) in
    getGuest "g1" (snd started) = Some g
    /\ isCheckedIn g = Some true /\ checkedInBy g = Some "s1"
    /\ skipn 2 (fst started) = skipn 2 Examples.four_scans
    /\ answers (fst ended)
       = [Some first; Some second;
          Some (res 200 (json_duplicate g (Some 10) "Owner"));
          Some (res 200 (json_duplicate g' (Some 10) "Omar"))]
    /\ kind_of first = Some SUCCESS /\ kind_of second = Some SUCCESS
    /\ getGuest "g1" (snd ended) = Some g'
    /\ checkedInBy g' = Some "o1"
    /\ g <> g'.
Proof.
  eexists. eexists. eexists. eexists. cbv zeta.
  split; [vm_compute; reflexivity|].
  split; [reflexivity|]. split; [reflexivity|].
  split; [vm_compute; reflexivity|].
  split; [vm_compute; reflexivity|].
  split; [reflexivity|]. split; [reflexivity|].
  split; [vm_compute; reflexivity|].
  split; [reflexivity|].
  discriminate.
Qed.

(** C3, as the code has it.  A guest is already checked in, and no
    check-in of that guest is under way: requests are served one after the
    other.  Every scan that an allowed user makes of that guest, by id or
    by code, is answered DUPLICATE with the stored row, its check-in time
    and the name of whoever checked the guest in, and leaves the store as
    it was; so any number of such scans, at any times and by any allowed
    users, get the same answer. *)
Theorem duplicate_scan_idempotent w id g :
  getGuest id w = Some g ->
  Js.truthy_bool (isCheckedIn g) = true ->
  kind_of (duplicate_answer w g) = Some DUPLICATE
  /\ body (duplicate_answer w g)
     = json_duplicate g (checkedInAt g) (checker_name w g)
  /\ (forall s,
        scan_allowed w g s -> ascii_scan s ->
        run (scan_program id s) w = (duplicate_answer w g, w))
  /\ (forall calls,
        Forall (fun c => scan_allowed w g (snd c) /\ ascii_scan (snd c)) calls ->
        exists w',
          serve_scans id calls w
          = (repeat (duplicate_answer w g) (length calls), w')
          /\ same_store w w').
Proof.
  intros Hg Hin. split; [reflexivity|]. split; [reflexivity|]. split.
  - intros s Hs _. now apply run_scan_duplicate.
  - intros calls Hall. apply serve_duplicates; [exact Hg|exact Hin|].
    eapply Forall_impl; [|exact Hall]. intros c [Hc _]. exact Hc.
Qed.

Lemma duplicate_scan_idempotent_witness :
  run (scan_program "g2" (scan_code "o1" "npqr-stuv-wxyz" None)) Examples.full_venue
  = (res 200 (json_duplicate Examples.arrived_guest (Some 7) "Omar"),
     Examples.full_venue).
Proof.
  destruct (@duplicate_scan_idempotent Examples.full_venue "g2"
              Examples.arrived_guest eq_refl eq_refl)
    as [_ [_ [Hone _]]].
  apply (Hone (scan_code "o1" "npqr-stuv-wxyz" None)); [|reflexivity].
  split.
  - exists Examples.usher. split; [split; reflexivity|reflexivity].
  - repeat split.
Defined.

(** *** Barred users *)




(** *** Pending guests *)

Lemma stamp_keeps_id id by_ t g :
  guest_id (stamp_check_in id by_ t g) = guest_id g.
Proof. unfold stamp_check_in. destruct (String.eqb _ _); reflexivity. Qed.

Lemma stamp_keeps_code id by_ t g :
  qrCode (stamp_check_in id by_ t g) = qrCode g.
Proof. unfold stamp_check_in. destruct (String.eqb _ _); reflexivity. Qed.

Lemma stamp_keeps_event id by_ t g :
  guest_eventId (stamp_check_in id by_ t g) = guest_eventId g.
Proof. unfold stamp_check_in. destruct (String.eqb _ _); reflexivity. Qed.

Lemma getGuest_id id w g : getGuest id w = Some g -> guest_id g = id.
Proof.
  unfold getGuest. intros H. apply find_some in H. destruct H as [_ H].
  now apply String.eqb_eq in H.
Qed.

Lemma stamp_own id by_ t g :
  guest_id g = id ->
  Js.truthy_bool (isCheckedIn (stamp_check_in id by_ t g)) = true
  /\ checkedInAt (stamp_check_in id by_ t g) = Some t
  /\ checkedInBy (stamp_check_in id by_ t g) = Some by_.
Proof.
  intros H. unfold stamp_check_in. rewrite H, String.eqb_refl. repeat split.
Qed.

(** The update is keyed on the id alone: it stamps the row whatever its
    flag says. *)
Lemma checkInGuest_unconditional id by_ w g :
  getGuest id w = Some g ->
  checkInGuest id by_ w
  = (Some (stamp_check_in id by_ (clock w) g),
     set_guests w (map (stamp_check_in id by_ (clock w)) (guests w)) (drawn w)).
Proof.
  intros Hg. unfold checkInGuest. f_equal.
  rewrite find_map_stable by (intro; now rewrite stamp_keeps_id).
  unfold getGuest in Hg. now rewrite Hg.
Qed.

(** A scan of a pending guest by an allowed user. *)
Lemma run_scan_success w id g s :
  getGuest id w = Some g ->
  Js.truthy_bool (isCheckedIn g) = false ->
  scan_allowed w g s ->
  exists w1,
    run (scan_program id s) w
    = (res 200 (json_success (Some (stamp_check_in id (scan_uid s) (clock w) g))),
       w1)
    /\ guests w1 = map (stamp_check_in id (scan_uid s) (clock w)) (guests w)
    /\ users w1 = users w /\ events w1 = events w
    /\ eventOrganizers w1 = eventOrganizers w
    /\ length (auditLogs w1) = S (length (auditLogs w)).
Proof.
  intros Hg Hpending [[user Hmay] Hreach].
  pose proof (getGuest_id _ _ Hg) as Hid.
  pose proof (getUser_id _ _ (proj2 (proj1 Hmay))) as Huid.
  rewrite (@run_scan w id g s user (fun next => run next w)
             Hg (proj1 Hmay) Hreach);
    [|intros; apply (run_verify_access _ Hmay)].
  rewrite Hpending. unfold record_check_in. cbn [run exec].
  assert (Hcall :
            checkInGuest match s with scan_id _ => id | scan_code _ _ _ => guest_id g end
                         (user_id user) w
            = checkInGuest id (scan_uid s) w)
    by (rewrite Huid; destruct s; [reflexivity|now rewrite Hid]).
  rewrite Hcall, (@checkInGuest_unconditional id (scan_uid s) w g Hg).
  cbn [run exec createAuditLog]. eexists. split; [reflexivity|].
  cbn [guests users events eventOrganizers auditLogs set_auditLogs set_guests].
  repeat split. rewrite length_app. cbn. lia.
Qed.

Lemma checker_name_users w w1 g :
  users w1 = users w -> checker_name w1 g = checker_name w g.
Proof.
  intros Hu. unfold checker_name, getUser. now rewrite Hu.
Qed.

(** Who may scan whom is not changed by a check-in. *)
Lemma scan_allowed_after w w1 id by_ t g s :
  users w1 = users w -> events w1 = events w ->
  eventOrganizers w1 = eventOrganizers w ->
  guests w1 = map (stamp_check_in id by_ t) (guests w) ->
  scan_allowed w g s ->
  scan_allowed w1 (stamp_check_in id by_ t g) s.
Proof.
  intros Hu He Ho Hgs [[user Hmay] Hreach]. split.
  - exists user. rewrite stamp_keeps_event.
    unfold may_check_in, logged_in, getOrganizerEvents, getEvent, getUser in *.
    rewrite Hu, He, Ho. exact Hmay.
  - destruct s as [uid | uid code hint]; [exact I|].
    destruct Hreach as [Hcode [Hfind Hhint]]. split; [exact Hcode|]. split.
    + unfold getGuestByQrCode in *. rewrite Hgs.
      rewrite find_map_stable by (intro; now rewrite stamp_keeps_code).
      now rewrite Hfind.
    + unfold hint_fits in *. now rewrite stamp_keeps_event.
Qed.

(** *** Requests in flight together *)

Section Interleaving.

Variables (w0 : World) (id : string) (g : Guest).
Hypothesis Hguest : getGuest id w0 = Some g.
Hypothesis Hpending : Js.truthy_bool (isCheckedIn g) = false.

Lemma reachable_start : reachable w0 id w0.
Proof. repeat split. left. reflexivity. Qed.

Lemma reachable_getUser w uid :
  reachable w0 id w -> getUser uid w = getUser uid w0.
Proof. intros [Hu _]. unfold getUser. now rewrite Hu. Qed.

Lemma reachable_getEvent w eventId :
  reachable w0 id w -> getEvent eventId w = getEvent eventId w0.
Proof. intros [_ [He _]]. unfold getEvent. now rewrite He. Qed.

Lemma reachable_getOrganizerEvents w o :
  reachable w0 id w -> getOrganizerEvents o w = getOrganizerEvents o w0.
Proof.
  intros [_ [He [Ho _]]]. unfold getOrganizerEvents, getEvent. now rewrite He, Ho.
Qed.

Lemma stamp_twice by0 t0 by1 t1 x :
  stamp_check_in id by1 t1 (stamp_check_in id by0 t0 x)
  = stamp_check_in id by1 t1 x.
Proof.
  unfold stamp_check_in.
  destruct (String.eqb (guest_id x) id) eqn:E; cbn [guest_id]; now rewrite E.
Qed.

Lemma reachable_checkInGuest w by_ :
  reachable w0 id w -> reachable w0 id (snd (checkInGuest id by_ w)).
Proof.
  intros [Hu [He [Ho Hgs]]]. unfold checkInGuest. cbn [snd].
  repeat split; try assumption. right.
  destruct Hgs as [Hsame | [by0 [t0 Hst]]].
  - exists by_, (clock w). cbn [guests set_guests]. now rewrite Hsame.
  - exists by_, (clock w). cbn [guests set_guests]. rewrite Hst, map_map.
    apply map_ext. intros x. apply stamp_twice.
Qed.

Lemma quiet_createAuditLog w l :
  reachable w0 id w -> quiet w0 id (CreateAuditLog l) w.
Proof. intros [Hu [He [Ho Hgs]]]. repeat split; assumption. Qed.

(** What a read of the guest row finds. *)
Lemma reachable_guest_by (key : Guest -> bool) w :
  (forall by_ t x, key (stamp_check_in id by_ t x) = key x) ->
  find key (guests w0) = Some g ->
  reachable w0 id w ->
  (untouched w0 w /\ find key (guests w) = Some g)
  \/ (exists by_ t, find key (guests w) = Some (stamp_check_in id by_ t g)).
Proof.
  intros Hkey Hfind [_ [_ [_ [Hsame | [by_ [t Hst]]]]]].
  - left. split; [exact Hsame|]. now rewrite Hsame.
  - right. exists by_, t. rewrite Hst.
    rewrite find_map_stable by (intro; apply Hkey). now rewrite Hfind.
Qed.

Lemma winner_settling p : winner w0 id p -> settling w0 id p.
Proof. destruct p; intros H; [left; exact H|right; exact H]. Qed.

Lemma record_check_in_winner user g' prefix :
  winner w0 id (record_check_in user g' id prefix).
Proof.
  unfold record_check_in. cbn [winner]. intros w Hw.
  split; [now apply reachable_checkInGuest|].
  intros w' Hw'. split; [apply (quiet_createAuditLog _ Hw')|reflexivity].
Qed.

Lemma answer_duplicate_settling g' : settling w0 id (answer_duplicate g').
Proof.
  unfold answer_duplicate.
  destruct (Js.truthy_string (checkedInBy g')); [|right; reflexivity].
  destruct (checkedInBy g'); [|right; reflexivity].
  left. intros w Hw. split; [split; [exact Hw|reflexivity]|].
  right. reflexivity.
Qed.

Lemma verify_access_winner uid user eventId next :
  may_check_in w0 uid user eventId ->
  winner w0 id next ->
  winner w0 id (verify_access user eventId next).
Proof.
  intros [_ Hrel] Hnext. unfold verify_access.
  destruct (role user); try exact Hnext; cbn [winner exec fst snd];
    intros w Hw; (split; [exact Hw|]).
  - destruct Hrel as [event [Hev Hown]].
    rewrite (reachable_getEvent _ Hw), Hev, Hown, String.eqb_refl. exact Hnext.
  - rewrite (reachable_getOrganizerEvents _ Hw), Hrel. exact Hnext.
Qed.

Lemma verify_access_settling uid user eventId next :
  may_check_in w0 uid user eventId ->
  settling w0 id next ->
  settling w0 id (verify_access user eventId next).
Proof.
  intros [_ Hrel] Hnext. unfold verify_access.
  destruct (role user); try exact Hnext; cbn [settling]; left;
    intros w Hw; (split; [split; [exact Hw|reflexivity]|]); cbn [exec fst].
  - destruct Hrel as [event [Hev Hown]].
    rewrite (reachable_getEvent _ Hw), Hev, Hown, String.eqb_refl. exact Hnext.
  - rewrite (reachable_getOrganizerEvents _ Hw), Hrel. exact Hnext.
Qed.

Lemma quiet_read {X : Type} (c : Call X) w x :
  reachable w0 id w -> exec c w = (x, w) -> quiet w0 id c w.
Proof. intros Hw E. unfold quiet. rewrite E. split; [exact Hw|reflexivity]. Qed.

Lemma after_read_winner uid user prefix :
  may_check_in w0 uid user (guest_eventId g) ->
  winner w0 id (after_read user g id prefix).
Proof.
  intros Hmay. unfold after_read. rewrite Hpending.
  eapply verify_access_winner; [exact Hmay|apply record_check_in_winner].
Qed.

Lemma after_read_settling uid user g' prefix :
  may_check_in w0 uid user (guest_eventId g) ->
  g' = g \/ (exists by_ t, g' = stamp_check_in id by_ t g) ->
  settling w0 id (after_read user g' id prefix).
Proof.
  intros Hmay [Hsame | [by_ [t Hst]]]; subst g'.
  - apply winner_settling. eapply after_read_winner; exact Hmay.
  - unfold after_read. rewrite stamp_keeps_event.
    destruct (@stamp_own id by_ t g (getGuest_id _ _ Hguest)) as [Hin _].
    rewrite Hin.
    eapply verify_access_settling; [exact Hmay|apply answer_duplicate_settling].
Qed.

Lemma after_read_id g' :
  g' = g \/ (exists by_ t, g' = stamp_check_in id by_ t g) ->
  guest_id g' = id /\ guest_eventId g' = guest_eventId g.
Proof.
  pose proof (getGuest_id _ _ Hguest) as Hid.
  intros [Hsame | [by_ [t Hst]]]; subst g'; [split; [exact Hid|reflexivity]|].
  now rewrite stamp_keeps_id, stamp_keeps_event.
Qed.

(** What the read of either route finds in a reachable world. *)
Lemma read_finds (key : Guest -> bool) w :
  (forall by_ t x, key (stamp_check_in id by_ t x) = key x) ->
  find key (guests w0) = Some g ->
  reachable w0 id w ->
  exists g',
    find key (guests w) = Some g'
    /\ (g' = g \/ (exists by_ t, g' = stamp_check_in id by_ t g))
    /\ (untouched w0 w -> g' = g).
Proof.
  intros Hkey Hfind Hw.
  destruct (reachable_guest_by key Hkey Hfind Hw) as [[Hun Hf] | [by_ [t Hf]]].
  - exists g. split; [exact Hf|]. split; [left; reflexivity|intros _; reflexivity].
  - exists (stamp_check_in id by_ t g). split; [exact Hf|].
    split; [right; eauto|].
    intros Hun. unfold untouched in Hun. rewrite Hun, Hfind in Hf. congruence.
Qed.

(** A scan unfolded to its two reads and the rest of the handler. *)
Lemma scan_program_shape s :
  Js.truthy_string (Some (scan_uid s)) = true ->
  reaches w0 g s ->
  exists (key : Guest -> bool) (read : Call (option Guest))
         (rest : User -> option Guest -> Prog Response) prefix,
    scan_program id s
    = Await (GetUser (scan_uid s))
        (fun u => match u with
                  | Some u =>
                      if existsb (role_eqb (role u))
                                 [organizer; event_manager; admin; super_admin]
                      then Await read (rest u)
                      else Return (res 403 (json_error err_not_allowed))
                  | None => Return (res 403 (json_error err_not_allowed))
                  end)
    /\ (forall w, exec read w = (find key (guests w), w))
    /\ (forall by_ t x, key (stamp_check_in id by_ t x) = key x)
    /\ find key (guests w0) = Some g
    /\ (forall u g', guest_id g' = id -> guest_eventId g' = guest_eventId g ->
                     rest u (Some g') = after_read u g' id prefix).
Proof.
  intros Htr Hreach. destruct s as [uid | uid code hint].
  - exists (fun x => String.eqb (guest_id x) id), (GetGuest id). eexists. eexists.
    cbn [scan_program scan_uid] in *. unfold post_api_guests_id_check_in, requireRole.
    rewrite Htr. split; [reflexivity|]. cbn beta.
    split; [reflexivity|]. split; [intros; now rewrite stamp_keeps_id|].
    split; [exact Hguest|]. intros u g' _ _. reflexivity.
  - destruct Hreach as [Hcode [Hfind Hhint]].
    exists (fun x => String.eqb (qrCode x) (Js.toUpperCase code)),
           (GetGuestByQrCode (Js.toUpperCase code)). eexists. eexists.
    cbn [scan_program scan_uid] in *. unfold post_api_check_in_code, requireRole.
    rewrite Htr, Hcode. split; [reflexivity|]. cbn beta.
    split; [reflexivity|]. split; [intros; now rewrite stamp_keeps_code|].
    split; [exact Hfind|]. intros u g' Hid' Hev'.
    unfold hint_fits in Hhint. unfold after_read.
    rewrite Hev', Hhint, Hid'. reflexivity.
Qed.

(** Establish: every allowed scan starts out settling and unread. *)
Lemma scan_settling s :
  scan_allowed w0 g s -> settling w0 id (scan_program id s).
Proof.
  intros [[user Hmay] Hreach]. pose proof Hmay as [[Htr Huser] _].
  destruct (scan_program_shape s Htr Hreach)
    as [key [read [rest [prefix [Hshape [Hread [Hkey [Hfind Hrest]]]]]]]].
  rewrite Hshape. cbn [settling]. left. intros w Hw.
  split; [eapply quiet_read; [exact Hw|reflexivity]|].
  cbn [exec fst]. rewrite (reachable_getUser _ Hw), Huser, any_role_may_scan.
  cbn [settling]. left. intros w' Hw'.
  split; [eapply quiet_read; [exact Hw'|apply Hread]|].
  rewrite Hread. cbn [fst].
  destruct (read_finds key Hkey Hfind Hw') as [g' [Hf [Hg' _]]]. rewrite Hf.
  destruct (after_read_id Hg') as [Hid Hev]. rewrite (Hrest user g' Hid Hev).
  eapply after_read_settling; eassumption.
Qed.

Lemma scan_unread s :
  scan_allowed w0 g s -> unread w0 id (scan_program id s).
Proof.
  intros [[user Hmay] Hreach]. pose proof Hmay as [[Htr Huser] _].
  destruct (scan_program_shape s Htr Hreach)
    as [key [read [rest [prefix [Hshape [Hread [Hkey [Hfind Hrest]]]]]]]].
  rewrite Hshape. cbn [unread]. intros w Hw Hun.
  split; [eapply quiet_read; [exact Hw|reflexivity]|]. left.
  cbn [exec fst]. rewrite (reachable_getUser _ Hw), Huser, any_role_may_scan.
  cbn [unread]. intros w' Hw' Hun'.
  split; [eapply quiet_read; [exact Hw'|apply Hread]|]. right.
  rewrite Hread. cbn [fst].
  destruct (read_finds key Hkey Hfind Hw') as [g' [Hf [Hg' Hsame]]]. rewrite Hf.
  destruct (after_read_id Hg') as [Hid Hev]. rewrite (Hrest user g' Hid Hev).
  rewrite (Hsame Hun'). eapply after_read_winner; exact Hmay.
Qed.

Lemma race_start scans :
  Forall (scan_allowed w0 g) scans ->
  race_invariant w0 id (map (scan_program id) scans) w0.
Proof.
  intros Hall. split; [apply reachable_start|]. split.
  - apply Forall_map. eapply Forall_impl; [|exact Hall]. apply scan_settling.
  - left. split; [reflexivity|].
    apply Forall_map. eapply Forall_impl; [|exact Hall]. apply scan_unread.
Qed.

(** Preserve: one turn of one request. *)
Lemma turn_invariant p w :
  reachable w0 id w ->
  settling w0 id p ->
  reachable w0 id (snd (turn p w))
  /\ settling w0 id (fst (turn p w))
  /\ (winner w0 id p -> winner w0 id (fst (turn p w)))
  /\ (untouched w0 w -> unread w0 id p ->
      untouched w0 (snd (turn p w))
      /\ (unread w0 id (fst (turn p w)) \/ winner w0 id (fst (turn p w)))).
Proof.
  intros Hw Hp. destruct p as [r | X c k].
  - cbn [turn fst snd]. split; [exact Hw|]. split; [exact Hp|].
    split; [tauto|]. intros _ Hfalse. destruct Hfalse.
  - cbn [turn]. destruct (exec c w) as [x w'] eqn:E. cbn [fst snd].
    assert (Hwin : winner w0 id (Await c k) ->
                   reachable w0 id w' /\ winner w0 id (k x)).
    { intros H. cbn [winner] in H. specialize (H w Hw). now rewrite E in H. }
    assert (Hmain : reachable w0 id w' /\ settling w0 id (k x)).
    { cbn [settling] in Hp. destruct Hp as [Hq | Hwn].
      - specialize (Hq w Hw). unfold quiet in Hq. rewrite E in Hq.
        cbn [fst snd] in Hq. tauto.
      - destruct (Hwin Hwn) as [Hr Hk]. split; [exact Hr|now apply winner_settling]. }
    split; [tauto|]. split; [tauto|]. split; [intros H; now apply Hwin|].
    intros Hun Hunread. cbn [unread] in Hunread.
    specialize (Hunread w Hw Hun). unfold quiet in Hunread. rewrite E in Hunread.
    cbn [fst snd] in Hunread. destruct Hunread as [[_ Hsame] Hnext].
    split; [|exact Hnext]. unfold untouched in *. congruence.
Qed.

(** Preserve: one turn of the pool. *)
Lemma turn_nth_parts pool :
  forall i w,
    reachable w0 id w ->
    Forall (settling w0 id) pool ->
    reachable w0 id (snd (turn_nth i pool w))
    /\ Forall (settling w0 id) (fst (turn_nth i pool w))
    /\ (Exists (winner w0 id) pool ->
        Exists (winner w0 id) (fst (turn_nth i pool w)))
    /\ (untouched w0 w -> Forall (unread w0 id) pool ->
        (untouched w0 (snd (turn_nth i pool w))
         /\ Forall (unread w0 id) (fst (turn_nth i pool w)))
        \/ Exists (winner w0 id) (fst (turn_nth i pool w))).
Proof.
  induction pool as [|p pool IH]; intros i w Hw Hall.
  - destruct i; cbn [turn_nth fst snd]; (split; [exact Hw|]);
      (split; [exact Hall|]); (split; [tauto|]);
      intros Hun Hunread; left; split; assumption.
  - inversion Hall as [|p' pool' Hp Hpool]; subst.
    destruct i as [|j]; cbn [turn_nth].
    + destruct (@turn_invariant p w Hw Hp) as [Hw' [Hp' [Hwin Hread]]].
      destruct (turn p w) as [q w'] eqn:E. cbn [fst snd] in *.
      split; [exact Hw'|]. split; [constructor; assumption|]. split.
      * intros Hex. inversion Hex as [a b Hpw | a b Hrest]; subst.
        -- constructor. now apply Hwin.
        -- now apply Exists_cons_tl.
      * intros Hun Hunread. inversion Hunread as [|a b Hpu Hpoolu]; subst.
        destruct (Hread Hun Hpu) as [Hun' [Hq | Hq]].
        -- left. split; [exact Hun'|constructor; assumption].
        -- right. now constructor.
    + destruct (IH j w Hw Hpool) as [Hw' [Hall' [Hex' Hread']]].
      destruct (turn_nth j pool w) as [pool2 w'] eqn:E. cbn [fst snd] in *.
      split; [exact Hw'|]. split; [constructor; assumption|]. split.
      * intros Hex. inversion Hex as [a b Hpw | a b Hrest]; subst.
        -- now constructor.
        -- apply Exists_cons_tl. now apply Hex'.
      * intros Hun Hunread. inversion Hunread as [|a b Hpu Hpoolu]; subst.
        destruct (Hread' Hun Hpoolu) as [[Hun' Hall2] | Hex2].
        -- left. split; [exact Hun'|constructor; assumption].
        -- right. now apply Exists_cons_tl.
Qed.

Lemma turn_nth_invariant pool i w :
  race_invariant w0 id pool w ->
  race_invariant w0 id (fst (turn_nth i pool w)) (snd (turn_nth i pool w)).
Proof.
  intros [Hw [Hall Hrace]].
  destruct (@turn_nth_parts pool i w Hw Hall) as [Hw' [Hall' [Hex Hread]]].
  split; [exact Hw'|]. split; [exact Hall'|].
  destruct Hrace as [[Hun Hunread] | Hwin].
  - destruct (Hread Hun Hunread) as [H | H]; [left; exact H|right; exact H].
  - right. now apply Hex.
Qed.

(** Preserve: any schedule. *)
Lemma interleave_invariant schedule :
  forall pool w,
    race_invariant w0 id pool w ->
    race_invariant w0 id (fst (interleave schedule pool w))
                   (snd (interleave schedule pool w)).
Proof.
  induction schedule as [|i schedule IH]; intros pool w Hinv; [exact Hinv|].
  cbn [interleave]. pose proof (@turn_nth_invariant pool i w Hinv) as Hstep.
  destruct (turn_nth i pool w) as [pool' w']. cbn [fst snd] in Hstep.
  now apply IH.
Qed.

(** Use: what the invariant says once every request has answered. *)
Lemma answered_returns pool :
  forall rs, all_answered pool rs -> pool = map (@Return Response) rs.
Proof.
  unfold all_answered, answers.
  induction pool as [|p pool IH]; intros [|r rs] H; try discriminate H;
    [reflexivity|].
  cbn [map] in H. inversion H as [[Hp Hrest]].
  destruct p as [r' | X c k]; [|discriminate Hp].
  cbn [finished] in Hp. inversion Hp. subst r'.
  cbn [map]. f_equal. now apply IH.
Qed.

Lemma count_kinds_total rs :
  Forall (fun r => kind_of r = Some SUCCESS \/ kind_of r = Some DUPLICATE) rs ->
  (count_kind SUCCESS rs + count_kind DUPLICATE rs = length rs)%nat.
Proof.
  unfold count_kind. induction 1 as [|r rs Hr Hrs IH]; [reflexivity|].
  cbn [filter length]. destruct Hr as [Hr | Hr]; rewrite Hr; cbn [kind_eqb length] in *; lia.
Qed.

Lemma count_success_exists rs :
  Exists (fun r => kind_of r = Some SUCCESS) rs ->
  (1 <= count_kind SUCCESS rs)%nat.
Proof.
  unfold count_kind. induction 1 as [r rs Hr | r rs Hrs IH]; cbn [filter].
  - rewrite Hr. cbn [kind_eqb length] in *. lia.
  - destruct (match kind_of r with Some k' => kind_eqb SUCCESS k' | None => false end);
      cbn [length]; lia.
Qed.

Lemma race_outcome pool w rs :
  race_invariant w0 id pool w ->
  pool <> [] ->
  all_answered pool rs ->
  length rs = length pool
  /\ Forall (fun r => kind_of r = Some SUCCESS \/ kind_of r = Some DUPLICATE) rs
  /\ (1 <= count_kind SUCCESS rs)%nat
  /\ (count_kind SUCCESS rs + count_kind DUPLICATE rs = length rs)%nat.
Proof.
  intros [_ [Hall Hrace]] Hne Hans.
  apply answered_returns in Hans. subst pool.
  assert (Hkinds : Forall (fun r => kind_of r = Some SUCCESS
                                    \/ kind_of r = Some DUPLICATE) rs).
  { rewrite Forall_map in Hall. exact Hall. }
  split; [now rewrite length_map|]. split; [exact Hkinds|].
  split; [|now apply count_kinds_total].
  destruct Hrace as [[_ Hunread] | Hwin].
  - destruct rs as [|r rs]; [now contradiction Hne|].
    inversion Hunread as [|a b Hfalse _]; subst. destruct Hfalse.
  - apply count_success_exists. rewrite Exists_map in Hwin. exact Hwin.
Qed.

End Interleaving.

Lemma turn_nth_length {R : Type} (pool : list (Prog R)) :
  forall i w, length (fst (turn_nth i pool w)) = length pool.
Proof.
  induction pool as [|p pool IH]; intros [|j] w; cbn [turn_nth]; try reflexivity.
  - destruct (turn p w). reflexivity.
  - specialize (IH j w). destruct (turn_nth j pool w). cbn [fst length] in *.
    now rewrite IH.
Qed.

Lemma interleave_length {R : Type} (schedule : list nat) :
  forall (pool : list (Prog R)) w,
    length (fst (interleave schedule pool w)) = length pool.
Proof.
  induction schedule as [|i schedule IH]; intros pool w; [reflexivity|].
  cbn [interleave]. pose proof (turn_nth_length pool i w) as Hlen.
  destruct (turn_nth i pool w) as [pool' w']. cbn [fst] in Hlen.
  now rewrite IH.
Qed.

(** Every request can be driven to its answer. *)
Ltac answer_step :=
  cbn [answers_within]; intros;
  match goal with
  | |- True => exact I
  | |- answers_within _ (match ?x with _ => _ end) => destruct x
  end.

Lemma scan_answers_within id s : answers_within 5 (scan_program id s).
Proof.
  destruct s as [uid | uid code hint]; cbn [scan_program];
    unfold post_api_guests_id_check_in, post_api_check_in_code, requireRole,
      verify_access, answer_duplicate, record_check_in.
  - repeat answer_step.
  - repeat answer_step.
Qed.

Lemma turn_nth_at (pre post : list (Prog Response)) p w :
  turn_nth (length pre) (pre ++ p :: post) w
  = ((pre ++ fst (turn p w) :: post)%list, snd (turn p w)).
Proof.
  induction pre as [|q pre IH]; cbn [length app turn_nth].
  - now destruct (turn p w).
  - now rewrite IH.
Qed.

Lemma interleave_app {R : Type} (s1 s2 : list nat) :
  forall (pool : list (Prog R)) w,
    interleave (s1 ++ s2) pool w
    = interleave s2 (fst (interleave s1 pool w)) (snd (interleave s1 pool w)).
Proof.
  induction s1 as [|i s1 IH]; intros pool w; [reflexivity|].
  cbn [app interleave]. destruct (turn_nth i pool w) as [pool' w']. apply IH.
Qed.

Lemma drive (pre post : list (Prog Response)) n :
  forall p w,
    answers_within n p ->
    exists r w',
      interleave (repeat (length pre) n) (pre ++ p :: post) w
      = ((pre ++ Return r :: post)%list, w').
Proof.
  induction n as [|n IH]; intros p w Hp.
  - destruct p as [r | X c k]; [|destruct Hp]. exists r, w. reflexivity.
  - cbn [repeat interleave]. rewrite turn_nth_at.
    apply IH. destruct p as [r | X c k]; [exact I|].
    cbn [turn]. destruct (exec c w) as [x w']. cbn [fst]. apply Hp.
Qed.

Lemma pool_can_answer n (todo : list (Prog Response)) :
  forall done w,
    Forall (answers_within n) todo ->
    exists schedule rs,
      all_answered
        (fst (interleave schedule (map (@Return Response) done ++ todo) w)) rs.
Proof.
  induction todo as [|p todo IH]; intros done w Hall.
  - exists [], done. unfold all_answered, answers. cbn [interleave fst].
    rewrite app_nil_r, map_map. reflexivity.
  - inversion Hall as [|a b Hp Htodo]; subst.
    destruct (@drive (map (@Return Response) done) todo n p w Hp) as [r [w' Hrun]].
    destruct (IH (done ++ [r])%list w' Htodo) as [schedule [rs Hans]].
    exists (repeat (length (map (@Return Response) done)) n ++ schedule)%list, rs.
    rewrite interleave_app, Hrun. cbn [fst snd].
    rewrite map_app, <- app_assoc in Hans. exact Hans.
Qed.

Lemma scans_can_answer id scans w :
  exists schedule rs,
    all_answered (fst (interleave schedule (map (scan_program id) scans) w)) rs.
Proof.
  apply (@pool_can_answer 5 (map (scan_program id) scans) [] w).
  apply Forall_map. apply Forall_forall. intros s _. apply scan_answers_within.
Qed.

(** Scans of a pending guest by allowed users, interleaved in any way:
    once all have answered, every answer is SUCCESS or DUPLICATE and at
    least one is SUCCESS. *)
Lemma interleaved_scans_settle w id g scans schedule rs :
  getGuest id w = Some g ->
  Js.truthy_bool (isCheckedIn g) = false ->
  Forall (scan_allowed w g) scans ->
  scans <> [] ->
  all_answered (fst (interleave schedule (map (scan_program id) scans) w)) rs ->
  length rs = length scans
  /\ Forall (fun r => kind_of r = Some SUCCESS \/ kind_of r = Some DUPLICATE) rs
  /\ (1 <= count_kind SUCCESS rs)%nat
  /\ (count_kind SUCCESS rs + count_kind DUPLICATE rs = length scans)%nat.
Proof.
  intros Hg Hpending Hall Hne Hans.
  pose proof (@race_start w id g Hg Hpending scans Hall) as Hstart.
  pose proof (@interleave_invariant w id schedule _ _ Hstart) as Hend.
  pose proof (interleave_length schedule (map (scan_program id) scans) w) as Hlen.
  rewrite length_map in Hlen.
  destruct (@race_outcome w id _ _ rs Hend) as [Hn [Hk [Hs Ht]]];
    [|exact Hans|].
  - intros Hnil. rewrite Hnil in Hlen. destruct scans; [now apply Hne|discriminate].
  - rewrite Hlen in Hn. rewrite <- Hn. tauto.
Qed.

(** *** Exactly once *)

Lemma count_repeat_duplicate w g n :
  count_kind DUPLICATE (repeat (duplicate_answer w g) n) = n.
Proof.
  unfold count_kind. induction n as [|n IH]; [reflexivity|].
  cbn [repeat filter]. unfold kind_of at 1. cbn [duplicate_answer body kind_eqb length].
  f_equal. exact IH.
Qed.

Lemma count_repeat_success w g n :
  count_kind SUCCESS (repeat (duplicate_answer w g) n) = 0%nat.
Proof.
  unfold count_kind. induction n as [|n IH]; [reflexivity|exact IH].
Qed.

Lemma count_success_first g rs :
  count_kind SUCCESS (res 200 (json_success g) :: rs)
  = S (count_kind SUCCESS rs).
Proof. reflexivity. Qed.

Lemma count_duplicate_first g rs :
  count_kind DUPLICATE (res 200 (json_success g) :: rs)
  = count_kind DUPLICATE rs.
Proof. reflexivity. Qed.

(** C1 does not hold as specified: two requests for the same pending
    guest, interleaved so that both read the guest row before either
    updates it, are both answered SUCCESS, and the second update overwrites
    the first stamp. *)
Lemma concurrent_scans_counterexample :
  getGuest "g1" Examples.venue = Some Examples.pending_guest
  /\ Js.truthy_bool (isCheckedIn Examples.pending_guest) = false
  /\ exists r1 r2 w',
      interleave Examples.race Examples.two_scans Examples.venue
      = ([Return r1; Return r2], w')
      /\ kind_of r1 = Some SUCCESS /\ kind_of r2 = Some SUCCESS
      /\ count_kind SUCCESS [r1; r2] = 2%nat
      /\ count_kind DUPLICATE [r1; r2] = 0%nat
      /\ length (auditLogs w') = 2%nat
      /\ exists g,
          getGuest "g1" w' = Some g
          /\ body r1 = json_success (Some (stamp_check_in "g1" "o1" 10
                                             Examples.pending_guest))
          /\ g = stamp_check_in "g1" "s1" 10 Examples.pending_guest
          /\ body r2 = json_success (Some g).
Proof.
  split; [reflexivity|]. split; [reflexivity|].
  eexists. eexists. eexists. split; [vm_compute; reflexivity|].
  repeat split. eexists. repeat split.
Qed.

(** C1, as the code has it.  Scans of a pending guest by allowed users,
    served one after the other, get exactly one SUCCESS, the first, and
    DUPLICATE for each of the others, all carrying the time and the user of
    the first; one audit entry is written.  Interleaved in any way, they
    each get SUCCESS or DUPLICATE, and at least one of them SUCCESS.  The
    transition is a read of the guest row followed by an update keyed on
    the guest's id alone, which stamps the row whatever its flag says. *)
Theorem scans_of_a_pending_guest w id g t s calls :
  getGuest id w = Some g ->
  Js.truthy_bool (isCheckedIn g) = false ->
  Forall (fun c => scan_allowed w g (snd c)) ((t, s) :: calls) ->
  let g' := stamp_check_in id (scan_uid s) t g in
  let out := serve_scans id ((t, s) :: calls) w in
  fst out = res 200 (json_success (Some g'))
            :: repeat (duplicate_answer w g') (length calls)
  /\ count_kind SUCCESS (fst out) = 1%nat
  /\ count_kind DUPLICATE (fst out) = length calls
  /\ checkedInAt g' = Some t /\ checkedInBy g' = Some (scan_uid s)
  /\ getGuest id (snd out) = Some g'
  /\ length (auditLogs (snd out)) = S (length (auditLogs w))
  /\ (forall by_,
        checkInGuest id by_ (snd out)
        = (Some (stamp_check_in id by_ (clock (snd out)) g'),
           set_guests (snd out)
             (map (stamp_check_in id by_ (clock (snd out))) (guests (snd out)))
             (drawn (snd out))))
  /\ (forall scans,
        Forall (scan_allowed w g) scans ->
        scans <> [] ->
        (exists schedule rs,
            all_answered
              (fst (interleave schedule (map (scan_program id) scans) w)) rs)
        /\ forall schedule rs,
            all_answered
              (fst (interleave schedule (map (scan_program id) scans) w)) rs ->
            length rs = length scans
            /\ Forall (fun r => kind_of r = Some SUCCESS
                                \/ kind_of r = Some DUPLICATE) rs
            /\ (1 <= count_kind SUCCESS rs)%nat
            /\ (count_kind SUCCESS rs + count_kind DUPLICATE rs
                = length scans)%nat).
Proof.
  intros Hg Hpending Hall g' out.
  inversion Hall as [|c cs Hs Hrest]; subst. cbn [snd] in Hs.
  pose proof (getGuest_id _ _ Hg) as Hid.
  destruct (@run_scan_success (set_clock w t) id g s Hg Hpending Hs)
    as [w1 [Hrun [Hgs [Hu [He [Ho Hlog]]]]]].
  cbn [clock set_clock] in Hrun, Hgs. fold g' in Hrun.
  cbn [users events eventOrganizers auditLogs guests set_clock] in Hu, He, Ho, Hlog, Hgs.
  assert (Hg1 : getGuest id w1 = Some g').
  { unfold getGuest. rewrite Hgs.
    rewrite find_map_stable by (intro; now rewrite stamp_keeps_id).
    unfold getGuest in Hg. now rewrite Hg. }
  destruct (@stamp_own id (scan_uid s) t g Hid) as [Hin [Hat Hby]]. fold g' in Hin, Hat, Hby.
  assert (Hall1 : Forall (fun c => scan_allowed w1 g' (snd c)) calls).
  { eapply Forall_impl; [|exact Hrest]. intros c Hc.
    eapply scan_allowed_after; eassumption. }
  destruct (@serve_duplicates id g' calls w1 Hg1 Hin Hall1) as [w' [Hserve Hsame]].
  assert (Hout : out = (res 200 (json_success (Some g'))
                          :: repeat (duplicate_answer w g') (length calls), w')).
  { unfold out, serve_scans. cbn [map serve fst snd]. rewrite Hrun.
    unfold serve_scans in Hserve. rewrite Hserve.
    unfold duplicate_answer. now rewrite (@checker_name_users w w1 g' Hu). }
  rewrite Hout. cbn [fst snd].
  assert (Hg' : getGuest id w' = Some g')
    by (rewrite Hsame; exact Hg1).
  split; [reflexivity|].
  split; [now rewrite count_success_first, count_repeat_success|].
  split; [now rewrite count_duplicate_first, count_repeat_duplicate|].
  split; [exact Hat|]. split; [exact Hby|]. split; [exact Hg'|].
  split; [rewrite Hsame; exact Hlog|].
  split; [intros by_; now apply checkInGuest_unconditional|].
  intros scans Hscans Hne. split; [apply scans_can_answer|].
  intros schedule rs Hans.
  exact (@interleaved_scans_settle w id g scans schedule rs
           Hg Hpending Hscans Hne Hans).
Qed.

Lemma scans_of_a_pending_guest_witness :
  fst (serve_scans "g1"
         [(11, scan_id "o1"); (12, scan_code "s1" "abcd-efgh-jklm" (Some "e1"));
          (13, scan_id "m1")]
         Examples.venue)
  = [res 200 (json_success
                (Some (stamp_check_in "g1" "o1" 11 Examples.pending_guest)));
     res 200 (json_duplicate (stamp_check_in "g1" "o1" 11 Examples.pending_guest)
                             (Some 11) "Omar");
     res 200 (json_duplicate (stamp_check_in "g1" "o1" 11 Examples.pending_guest)
                             (Some 11) "Omar")].
Proof.
  refine (proj1 (@scans_of_a_pending_guest Examples.venue "g1"
                   Examples.pending_guest 11 (scan_id "o1")
                   [(12, scan_code "s1" "abcd-efgh-jklm" (Some "e1"));
                    (13, scan_id "m1")]
                   eq_refl eq_refl _)).
  repeat constructor.
  - exists Examples.usher. split; [split; reflexivity|reflexivity].
  - exists Examples.owner. split; [split; reflexivity|exact I].
  - exists Examples.manager. split; [split; reflexivity|].
    exists Examples.wedding. split; reflexivity.
Defined.

End CheckIn.

(** * Further properties *)

(** ** Access codes: bias, letter case, and the way back to the guest *)

(** ** More on lists *)

Module ListFactsRest.

Lemma find_app_none {A : Type} (p : A -> bool) (l l' : list A) :
  find p l = None -> find p (l ++ l')%list = find p l'.
Proof.
  induction l as [|a l IH]; [reflexivity|].
  cbn [app find]. destruct (p a); [discriminate|exact IH].
Qed.

Lemma find_app_some {A : Type} (p : A -> bool) (l l' : list A) (a : A) :
  find p l = Some a -> find p (l ++ l')%list = Some a.
Proof.
  induction l as [|x l IH]; [discriminate|].
  cbn [app find]. destruct (p x); [trivial|exact IH].
Qed.

Lemma existsb_find_none {A : Type} (p : A -> bool) (l : list A) :
  existsb p l = false -> find p l = None.
Proof.
  induction l as [|a l IH]; [reflexivity|].
  cbn [existsb find]. destruct (p a); [discriminate|exact IH].
Qed.

Lemma find_in_some {A : Type} (p : A -> bool) (l : list A) (a : A) :
  In a l -> p a = true -> exists x, find p l = Some x.
Proof.
  intros Hin Hp. destruct (find p l) as [x|] eqn:E; [now exists x|].
  rewrite (find_none _ _ E _ Hin) in Hp. discriminate.
Qed.

End ListFactsRest.

Module AccessCodeRest.
Import Schema Storage Async Routes Spec SpecRest Session AccessCode.

(** X1. The alphabet has 32 characters and a byte 256 values, so the
    remainder [bytes[i] % chars.length] has no bias: each character of the
    alphabet is written for exactly 8 of the 256 byte values. *)
Theorem pick_unbiased :
  (forall b : byte, In b all_bytes)
  /\ length all_bytes = 256%nat
  /\ Forall (fun c => length (picked_by c) = 8%nat) alphabet.
Proof.
  split; [|split].
  - intros b. unfold all_bytes. apply in_map_iff.
    exists (N.to_nat (Byte.to_N b)). split.
    + destruct b; reflexivity.
    + apply in_seq. destruct b; vm_compute; repeat split; lia.
  - reflexivity.
  - unfold alphabet. cbn [chars list_ascii_of_string].
    repeat (constructor; [vm_compute; reflexivity|]). constructor.
Qed.

Lemma alphabet_upper (c : ascii) :
  in_alphabet c = true -> Js.upper_ascii c = c.
Proof.
  destruct c as [[] [] [] [] [] [] [] []]; vm_compute; intros H;
    first [reflexivity | discriminate H].
Qed.

(** X2. The by-code route upper-cases what it is given before the lookup;
    a code made of twelve random bytes is left as it is by that, so the
    code printed on an invitation is the key it is stored under. *)
Theorem generateAccessCode_upper (bytes : list byte) :
  length bytes = 12%nat ->
  Js.toUpperCase (generateAccessCode bytes) = generateAccessCode bytes.
Proof.
  intros Hlen.
  do 12 (destruct bytes as [|? bytes]; [discriminate Hlen|]).
  destruct bytes; [clear Hlen|discriminate Hlen].
  unfold generateAccessCode.
  cbn [seq fold_left nth_error].
  name_char b. name_char b0. name_char b1. name_char b2.
  name_char b3. name_char b4. name_char b5. name_char b6.
  name_char b7. name_char b8. name_char b9. name_char b10.
  cbn [append slice String.substring Nat.sub Js.toUpperCase].
  rewrite (@alphabet_upper c Hin), (@alphabet_upper c0 Hin0),
    (@alphabet_upper c1 Hin1), (@alphabet_upper c2 Hin2),
    (@alphabet_upper c3 Hin3), (@alphabet_upper c4 Hin4),
    (@alphabet_upper c5 Hin5), (@alphabet_upper c6 Hin6),
    (@alphabet_upper c7 Hin7), (@alphabet_upper c8 Hin8),
    (@alphabet_upper c9 Hin9), (@alphabet_upper c10 Hin10).
  reflexivity.
Qed.

Lemma generateAccessCode_upper_witness :
  Js.toUpperCase (generateAccessCode Examples.some_bytes)
  = generateAccessCode Examples.some_bytes.
Proof.
  apply (generateAccessCode_upper Examples.some_bytes). reflexivity.
Defined.

Lemma generateAccessCode_not_empty (bytes : list byte) :
  generateAccessCode bytes <> "".
Proof.
  unfold generateAccessCode.
  destruct (slice 0 4 _); cbn; discriminate.
Qed.

Lemma upper_truthy (code : string) :
  Js.toUpperCase code <> "" -> Js.truthy_string (Some code) = true.
Proof.
  destruct code; [intros H; now contradiction H|reflexivity].
Qed.

End AccessCodeRest.

(** ** From the guest list to the door *)

Module RoundTrip.
Import Schema Storage Async Routes Spec SpecRest Session ListFacts ListFactsRest.
Import Capacity CheckIn AccessCodeRest.

(** What a 200 of the creation step tells. *)
Lemma add_guest_inv w user id b bytes g w1 :
  run (add_guest user id b bytes) w = (res 200 (json_guest g), w1) ->
  code_taken (generateAccessCode bytes) w = false
  /\ qrCode g = generateAccessCode bytes
  /\ guest_eventId g = id
  /\ isCheckedIn g = Some false
  /\ guests w1 = (guests w ++ [g])%list
  /\ users w1 = users w /\ events w1 = events w
  /\ eventOrganizers w1 = eventOrganizers w.
Proof.
  unfold add_guest.
  destruct (Js.truthy_string (gb_name b)); [|discriminate].
  destruct (gb_name b) as [name|]; [|discriminate].
  destruct (String.eqb (Js.trim name) ""); [discriminate|].
  cbn [run exec].
  destruct (createGuest (guest_of_body id name b bytes) w) as [[row|] w'] eqn:Hc;
    [|discriminate].
  apply Columns.createGuest_some in Hc. destruct Hc as [_ [Hfree [Hrow Hw']]].
  pose proof (Columns.new_guest_fits (guest_of_body id name b bytes) w) as F.
  rewrite Hrow in F. destruct F as [_ [_ [Fe [_ [Fc Fp]]]]].
  cbn [run exec createAuditLog]. intros H. inversion H; subst.
  repeat split; assumption.
Qed.

Lemma may_manage_may_check_in w w1 uid user id event :
  may_manage w uid user id event ->
  users w1 = users w -> events w1 = events w ->
  may_check_in w1 uid user id.
Proof.
  intros [[Huid Huser] [Hrole [Hev Hown]]] Hu He. split.
  - split; [exact Huid|]. unfold getUser in *. now rewrite Hu.
  - destruct (role user) eqn:Er; try exact I.
    + exists event. split; [unfold getEvent in *; now rewrite He|].
      destruct Hown as [Hby | Hown]; [discriminate Hby|exact Hown].
    + congruence.
Qed.

(** X3. Round trip from the guest list to the door.  A user who may manage
    the event adds a guest and gets the new row back.  The code of that row,
    typed or scanned in any letter case and with a fitting event hint, then
    leads the same user's scan to that guest: the scan is answered SUCCESS,
    and the row stored under the code is checked in afterwards. *)
Theorem added_guest_found_by_code w uid user id event b bytes g w1 code hint :
  may_manage w uid user id event ->
  run (post_api_events_id_guests (Some uid) id b bytes) w
  = (res 200 (json_guest g), w1) ->
  Js.toUpperCase code = qrCode g ->
  hint_fits hint g ->
  exists g' w2,
    run (post_api_check_in_code (Some uid) (Some code) hint) w1
    = (res 200 (json_success (Some g')), w2)
    /\ guest_id g' = guest_id g
    /\ option_map (fun r => Js.truthy_bool (isCheckedIn r))
                  (getGuestByQrCode (qrCode g) w2) = Some true.
Proof.
  intros Hm Hrun Hcode Hhint.
  rewrite (run_post_guest b bytes Hm) in Hrun.
  assert (Hadd : run (add_guest user id b bytes) w = (res 200 (json_guest g), w1)).
  { destruct (guest_limit w event) as [M|]; [|exact Hrun].
    destruct (guest_count w id >=? M); [discriminate Hrun|exact Hrun]. }
  clear Hrun.
  destruct (add_guest_inv _ _ _ _ _ Hadd)
    as [Hfree [Hqr [Hevt [Hpend [Hgs [Hu [He Ho]]]]]]].
  pose proof (@may_manage_may_check_in w w1 uid user id event Hm Hu He) as Hmay.
  assert (Hfind : getGuestByQrCode (Js.toUpperCase code) w1 = Some g).
  { unfold getGuestByQrCode. rewrite Hcode, Hgs, find_app_none.
    - cbn [find]. now rewrite String.eqb_refl.
    - apply existsb_find_none. rewrite Hqr. exact Hfree. }
  assert (Htruthy : Js.truthy_string (Some code) = true).
  { apply upper_truthy. rewrite Hcode, Hqr. apply generateAccessCode_not_empty. }
  unfold post_api_check_in_code.
  rewrite (run_requireRole _ _ (proj1 Hmay) (any_role_may_scan _)).
  rewrite Htruthy. cbn [run exec]. rewrite Hfind.
  unfold hint_fits in Hhint. rewrite Hhint.
  rewrite Hevt in *. rewrite (run_verify_access _ Hmay).
  rewrite Hpend. cbn [Js.truthy_bool]. unfold record_check_in.
  cbn [run exec]. unfold checkInGuest.
  rewrite find_map_stable by (intro; now rewrite stamp_keeps_id).
  assert (Hin : In g (guests w1)) by (rewrite Hgs; apply in_or_app; right; now left).
  destruct (@find_in_some _ (fun x => String.eqb (guest_id x) (guest_id g))
              (guests w1) g Hin (String.eqb_refl _)) as [x Hx].
  rewrite Hx. cbn [option_map run exec createAuditLog].
  eexists. eexists. split; [reflexivity|]. split.
  - rewrite stamp_keeps_id. apply find_some in Hx.
    now apply String.eqb_eq.
  - unfold getGuestByQrCode. cbn [guests set_auditLogs set_guests].
    rewrite find_map_stable by (intro; now rewrite stamp_keeps_code).
    unfold getGuestByQrCode in Hfind. rewrite Hcode in Hfind. rewrite Hfind.
    cbn [option_map]. f_equal.
    apply (@stamp_own (guest_id g) (user_id user) (clock w1) g eq_refl).
Qed.

Lemma added_guest_found_by_code_witness :
  exists g' w2,
    run (post_api_check_in_code (Some "m1") (Some "a9a9-hjb4-s34d") (Some "e1"))
        (snd (run (post_api_events_id_guests (Some "m1") "e1" Examples.walk_in
                                             Examples.some_bytes)
                  Examples.venue))
    = (res 200 (json_success (Some g')), w2)
    /\ guest_name g' = "Rana".
Proof.
  assert (Hm : may_manage Examples.venue "m1" Examples.manager "e1" Examples.wedding).
  { split; [split; reflexivity|]. split; [discriminate|].
    split; [reflexivity|right; reflexivity]. }
  destruct (@added_guest_found_by_code Examples.venue "m1" Examples.manager "e1"
              Examples.wedding Examples.walk_in Examples.some_bytes
              _ _ "a9a9-hjb4-s34d" (Some "e1") Hm eq_refl eq_refl eq_refl)
    as [g' [w2 [Hrun _]]].
  exists g', w2. split; [exact Hrun|].
  vm_compute in Hrun. inversion Hrun. reflexivity.
Defined.

End RoundTrip.

(** ** Quotas: the invariant, the quota page and the quota update *)

Module QuotaRest.
Import Schema Storage StorageRest Async Routes Direct RoutesRest.
Import Spec SpecRest Session ListFacts ListFactsRest EventQuota TierQuota.

(** *** Requests served one after the other stay within quota *)

Lemma store_event_effect w user b :
  let w' := snd (run (store_event user b) w) in
  users w' = users w /\ userTierQuotas w' = userTierQuotas w
  /\ (events w' = events w
      \/ exists e, events w' = (events w ++ [e])%list
                   /\ eventManagerId e = user_id user
                   /\ event_capacityTierId e = eb_capacityTierId b).
Proof.
  unfold store_event.
  destruct (Js.truthy_string (eb_name b)); [|cbn; tauto].
  destruct (eb_name b) as [name|]; [|cbn; tauto].
  destruct (parsed_date (eb_date b)) as [d|]; [|cbn; tauto].
  cbn [run exec]. unfold createEvent. cbn [ie_date].
  destruct d as [d|]; cbn [run exec createAuditLog snd]; [|tauto].
  cbn [users userTierQuotas events set_auditLogs set_events].
  split; [reflexivity|]. split; [reflexivity|]. right.
  eexists. split; [reflexivity|]. split; reflexivity.
Qed.

Lemma post_api_events_cases w session b :
  snd (run (post_api_events session b) w) = w
  \/ exists uid user,
      getUser uid w = Some user /\ below_quota w user b
      /\ snd (run (post_api_events session b) w)
         = snd (run (store_event user b) w).
Proof.
  unfold post_api_events, Routes.requireRole.
  destruct session as [uid|]; [|left; reflexivity].
  destruct (Js.truthy_string (Some uid)); [|left; reflexivity].
  cbn [run exec]. destruct (getUser uid w) as [user|] eqn:Huser;
    [|left; reflexivity].
  destruct (existsb _ _); [|left; reflexivity].
  destruct (role_eqb (role user) event_manager) eqn:Hrole.
  - assert (Hr : role user = event_manager)
      by (destruct (role user); try discriminate Hrole; reflexivity).
    destruct (Js.truthy_string (eb_capacityTierId b)) eqn:Htruthy;
      [|left; reflexivity].
    cbn [negb andb]. destruct (eb_capacityTierId b) as [T|] eqn:HT;
      [|discriminate Htruthy].
    cbn [run exec]. destruct (getCapacityTier T w) as [tier|];
      [|left; reflexivity].
    destruct (negb (Js.truthy_bool (tier_isActive tier))); [left; reflexivity|].
    cbn [run exec]. rewrite or_int_quota.
    rewrite quota_row_found. fold (quota_of w (user_id user) T).
    destruct (quota_of w (user_id user) T =? 0) eqn:HQ; [left; reflexivity|].
    cbn [run exec]. rewrite count_is_live.
    destruct (used_of w (user_id user) T >=? quota_of w (user_id user) T) eqn:HU;
      [left; reflexivity|].
    right. exists uid, user. split; [exact Huser|]. split; [|reflexivity].
    intros _. exists T. split; [exact HT|].
    rewrite Z.geb_leb in HU. apply Z.leb_gt in HU. exact HU.
  - assert (Hr : role user <> event_manager)
      by (intros E; rewrite E in Hrole; discriminate Hrole).
    cbn [andb].
    assert (Hgo : exists uid0 user0,
               getUser uid0 w = Some user0 /\ below_quota w user0 b
               /\ snd (run (store_event user b) w)
                  = snd (run (store_event user0 b) w)).
    { exists uid, user. split; [exact Huser|]. split; [|reflexivity].
      intros E. contradiction. }
    destruct (Js.truthy_string (eb_capacityTierId b)); [|right; exact Hgo].
    destruct (eb_capacityTierId b) as [T|]; [|right; exact Hgo].
    cbn [run exec]. destruct (getCapacityTier T w) as [tier|];
      [|left; reflexivity].
    destruct (negb (Js.truthy_bool (tier_isActive tier))); [left; reflexivity|].
    right. exact Hgo.
Qed.

Lemma used_of_app w w' e M T :
  events w' = (events w ++ [e])%list ->
  used_of w' M T
  = used_of w M T
    + (if String.eqb (eventManagerId e) M
          && Js.option_string_eqb (event_capacityTierId e) (Some T)
       then 1 else 0).
Proof.
  intros He. rewrite <- ?count_is_live; unfold getEventCountByManagerAndTier.
  rewrite He, filter_app, length_app. cbn [filter].
  destruct (_ && _); cbn [length]; lia.
Qed.

Lemma quota_of_same w w' M T :
  userTierQuotas w' = userTierQuotas w -> quota_of w' M T = quota_of w M T.
Proof.
  intros Hq. unfold quota_of. now rewrite Hq.
Qed.

Lemma used_of_same w w' M T :
  events w' = events w -> used_of w' M T = used_of w M T.
Proof.
  intros He. rewrite <- ?count_is_live; unfold getEventCountByManagerAndTier. now rewrite He.
Qed.

Lemma creation_step w session b M T :
  manager_account w M ->
  used_of w M T <= quota_of w M T ->
  let w' := snd (run (post_api_events session b) w) in
  users w' = users w
  /\ quota_of w' M T = quota_of w M T
  /\ used_of w' M T <= quota_of w' M T.
Proof.
  intros Hacc Hin w'. subst w'.
  destruct (post_api_events_cases w session b) as [Hsame | [uid [user [Hu [Hq Hrun]]]]].
  - rewrite Hsame. repeat split; lia.
  - rewrite Hrun.
    destruct (store_event_effect w user b) as [Hus [Hqs [Hev | [e [Hev [Hm Ht]]]]]].
    + rewrite (@quota_of_same w _ M T Hqs), (@used_of_same w _ M T Hev).
      repeat split; [exact Hus|exact Hin].
    + rewrite (@quota_of_same w _ M T Hqs), (@used_of_app w _ e M T Hev).
      split; [exact Hus|]. split; [reflexivity|].
      destruct (String.eqb (eventManagerId e) M) eqn:EM; cbn [andb]; [|lia].
      destruct (Js.option_string_eqb (event_capacityTierId e) (Some T)) eqn:ET;
        [|lia].
      apply String.eqb_eq in EM. rewrite Hm in EM.
      pose proof (getUser_id _ _ Hu) as Hid.
      assert (Hrole : role user = event_manager)
        by (apply Hacc; rewrite <- EM, Hid; exact Hu).
      destruct (Hq Hrole) as [T' [HT' Hlt]].
      rewrite Ht, HT' in ET. cbn [Js.option_string_eqb] in ET.
      apply String.eqb_eq in ET. subst T'. rewrite EM in Hlt. lia.
Qed.

(** X4. Creation requests served one after the other, from whichever
    sessions and for whichever tiers, never take an event manager over a
    tier quota: if the manager's live count on a tier is within the quota
    before, it is within it after, and the quota itself is not touched. *)
Theorem creations_keep_quota (requests : list CreationRequest) w M T :
  manager_account w M ->
  used_of w M T <= quota_of w M T ->
  let w' := snd (serve_creations requests w) in
  used_of w' M T <= quota_of w' M T
  /\ quota_of w' M T = quota_of w M T.
Proof.
  unfold serve_creations. revert w.
  induction requests as [|[t [s b]] rest IH]; intros w Hacc Hin; cbn [map serve fst snd].
  - split; [exact Hin|reflexivity].
  - destruct (run (post_api_events s b) (set_clock w t)) as [r w1] eqn:Hrun.
    assert (Hacc0 : manager_account (set_clock w t) M) by exact Hacc.
    assert (Hin0 : used_of (set_clock w t) M T <= quota_of (set_clock w t) M T)
      by exact Hin.
    destruct (@creation_step (set_clock w t) s b M T Hacc0 Hin0) as [Hu [Hq Hle]].
    rewrite Hrun in Hu, Hq, Hle. cbn [snd] in Hu, Hq, Hle.
    assert (Hacc1 : manager_account w1 M).
    { intros u Hget. apply Hacc. unfold getUser in *. rewrite Hu in Hget.
      exact Hget. }
    specialize (IH w1 Hacc1 Hle).
    destruct (serve _ w1) as [rs w2]. cbn [snd] in *.
    destruct IH as [IH1 IH2]. split; [exact IH1|].
    rewrite IH2, Hq. reflexivity.
Qed.

Lemma creations_keep_quota_witness :
  used_of (snd (serve_creations
                  [(11, (Some "m1", Examples.gala));
                   (12, (Some "m1", Examples.gala));
                   (13, (Some "s1", Examples.gala))] Examples.venue))
          "m1" "small" <= 2.
Proof.
  assert (Hacc : manager_account Examples.venue "m1").
  { intros u Hu. vm_compute in Hu. inversion Hu. reflexivity. }
  assert (Hin : used_of Examples.venue "m1" "small"
                <= quota_of Examples.venue "m1" "small")
    by (vm_compute; discriminate).
  destruct (@creations_keep_quota
              [(11, (Some "m1", Examples.gala));
               (12, (Some "m1", Examples.gala));
               (13, (Some "s1", Examples.gala))]
              Examples.venue "m1" "small" Hacc Hin) as [Hle Hq].
  rewrite Hq in Hle. exact Hle.
Defined.

(** *** The quota page *)

Lemma In_insert_tier x t l : In x (insert_tier t l) <-> x = t \/ In x l.
Proof.
  induction l as [|y l IH]; cbn [insert_tier].
  - cbn. intuition congruence.
  - destruct (sortOrder_le _ _); cbn [In]; [intuition congruence|].
    rewrite IH. intuition congruence.
Qed.

Lemma In_getCapacityTiers x w :
  In x (getCapacityTiers w) <-> In x (capacityTiers w).
Proof.
  unfold getCapacityTiers. induction (capacityTiers w) as [|t l IH]; [tauto|].
  cbn [fold_right]. rewrite In_insert_tier, IH. cbn [In]. intuition congruence.
Qed.


Lemma all_reads {A B : Type} (f : A -> Handler B) (g : A -> B) (l : list A) w :
  (forall a, f a w = (g a, w)) -> all f l w = (map g l, w).
Proof.
  intros Hf. induction l as [|a l IH]; [reflexivity|].
  cbn [all map]. unfold bind. rewrite Hf, IH. reflexivity.
Qed.

Lemma fold_left_sum_by (f : TierQuotaInfo -> Z) l a :
  fold_left (fun sum t => sum + f t) l a = a + sum_by f l.
Proof.
  revert a. induction l as [|i l IH]; intros a; cbn [fold_left sum_by fold_right].
  - lia.
  - rewrite IH. unfold sum_by. lia.
Qed.

Lemma run_quota_info w uid user :
  logged_in w uid user ->
  role user = event_manager ->
  let infos :=
    map (entry_of w uid)
        (filter (fun t => Js.truthy_bool (tier_isActive t)) (getCapacityTiers w)) in
  get_api_quota_info (Some uid) w
  = (ok (quota_info (sum_by info_quota infos >? 0)
                    (sum_by info_quota infos) (sum_by info_used infos)
                    (Z.max 0 (sum_by info_quota infos - sum_by info_used infos))
                    infos), w).
Proof.
  intros [Huid Huser] Hrole infos.
  pose proof (getUser_id _ _ Huser) as Hid.
  unfold get_api_quota_info, Direct.requireRole'. rewrite Huid.
  unfold bind, read, ret. rewrite Huser, Hrole. cbn [existsb role_eqb orb negb].
  rewrite (@all_reads _ _ _ (entry_of w uid)).
  - fold infos. rewrite !fold_left_sum_by. reflexivity.
  - intros tier. unfold tier_quota_info, bind, read, ret, entry_of.
    rewrite or_int_quota, Hid, quota_row_found, count_is_live. reflexivity.
Qed.

(** A manager's creation request for a stored, active tier, with the
    reads resolved. *)
Lemma run_post_events_manager w uid user b T tier :
  logged_in w uid user ->
  role user = event_manager ->
  eb_capacityTierId b = Some T ->
  Js.truthy_string (Some T) = true ->
  getCapacityTier T w = Some tier ->
  Js.truthy_bool (tier_isActive tier) = true ->
  run (post_api_events (Some uid) b) w
  = if quota_of w (user_id user) T =? 0
    then (res 403 (json_error (err_tier_no_permission (tier_name tier))), w)
    else if used_of w (user_id user) T >=? quota_of w (user_id user) T
    then (res 403 (json_error (err_tier_quota_reached
                                 (tier_name tier)
                                 (quota_of w (user_id user) T))), w)
    else run (store_event user b) w.
Proof.
  intros Hlog Hrole HT Htruthy Htier Hon.
  unfold post_api_events.
  rewrite (run_requireRole _ _ Hlog) by (rewrite Hrole; reflexivity).
  rewrite Hrole, HT, Htruthy. cbn [role_eqb negb andb run exec].
  rewrite Htier, Hon. cbn [negb run exec]. rewrite or_int_quota.
  rewrite quota_row_found. fold (quota_of w (user_id user) T).
  destruct (quota_of w (user_id user) T =? 0); [reflexivity|].
  cbn [run exec]. rewrite count_is_live.
  destruct (_ >=? _); reflexivity.
Qed.



Lemma remaining_sums (l : list TierQuotaInfo) :
  Forall (fun i => info_remaining i = Z.max 0 (info_quota i - info_used i)) l ->
  0 <= sum_by info_remaining l
  /\ sum_by info_quota l - sum_by info_used l <= sum_by info_remaining l
  /\ (Forall (fun i => info_used i <= info_quota i) l ->
      sum_by info_remaining l = sum_by info_quota l - sum_by info_used l).
Proof.
  induction 1 as [|i l Hi _ IH]; cbn [sum_by fold_right].
  - repeat split; lia.
  - fold (sum_by info_remaining l) (sum_by info_quota l) (sum_by info_used l).
    destruct IH as [IH0 [IH1 IH2]]. repeat split; try lia.
    intros Hall. inversion Hall as [|? ? Hle Hrest]; subst.
    specialize (IH2 Hrest). lia.
Qed.

(** X6. The totals of the quota page.  The headline figures are the sums
    of the per-tier quotas and counts, and the headline
    [remainingQuota = max(0, totalQuota - usedQuota)] never exceeds the sum
    of the per-tier remaining numbers; the two are equal when no tier is
    over its quota, and otherwise the events above one tier's quota are
    charged to the room left on the others. *)
Theorem quota_page_totals w uid user :
  logged_in w uid user ->
  role user = event_manager ->
  exists hasQuota total used remaining infos,
    get_api_quota_info (Some uid) w
    = (ok (quota_info hasQuota total used remaining infos), w)
    /\ total = sum_by info_quota infos
    /\ used = sum_by info_used infos
    /\ (hasQuota = true <-> 0 < total)
    /\ 0 <= remaining <= sum_by info_remaining infos
    /\ (Forall (fun i => info_used i <= info_quota i) infos ->
        remaining = sum_by info_remaining infos).
Proof.
  intros Hlog Hrole.
  do 4 eexists. exists (map (entry_of w uid)
                          (filter (fun t => Js.truthy_bool (tier_isActive t))
                                  (getCapacityTiers w))).
  split; [apply (run_quota_info Hlog Hrole)|].
  set (infos := map _ _).
  assert (Hall : Forall (fun i => info_remaining i
                                  = Z.max 0 (info_quota i - info_used i)) infos).
  { apply Forall_forall. intros i Hi. apply in_map_iff in Hi.
    destruct Hi as [tier [Hi _]]. subst i. reflexivity. }
  destruct (remaining_sums Hall) as [H0 [H1 H2]].
  split; [reflexivity|]. split; [reflexivity|]. split; [|split].
  - rewrite Z.gtb_ltb. apply Z.ltb_lt.
  - lia.
  - intros Hle. specialize (H2 Hle). lia.
Qed.

Lemma quota_page_totals_witness :
  exists hasQuota total used remaining infos,
    get_api_quota_info (Some "m1") Examples.venue
    = (ok (quota_info hasQuota total used remaining infos), Examples.venue)
    /\ 0 <= remaining <= sum_by info_remaining infos.
Proof.
  assert (Hlog : logged_in Examples.venue "m1" Examples.manager)
    by (split; reflexivity).
  destruct (@quota_page_totals Examples.venue "m1" Examples.manager Hlog eq_refl)
    as [hasQuota [total [used [remaining [infos [Hrun [_ [_ [_ [Hle _]]]]]]]]]].
  exists hasQuota, total, used, remaining, infos. split; [exact Hrun|exact Hle].
Defined.

(** *** The quota update *)

Lemma find_filter {A : Type} (f p : A -> bool) (l : list A) :
  find p (filter f l) = find (fun a => f a && p a) l.
Proof.
  induction l as [|a l IH]; [reflexivity|].
  cbn [filter find]. destruct (f a); cbn [find andb]; [|exact IH].
  destruct (p a); [reflexivity|exact IH].
Qed.

Lemma quota_of_find w u t :
  quota_of w u t
  = match find (quota_for u t) (userTierQuotas w) with
    | Some q => quota q
    | None => 0
    end.
Proof. reflexivity. Qed.

Lemma quota_for_found u t qs q :
  find (quota_for u t) qs = Some q ->
  In q qs /\ quota_userId q = u /\ quota_capacityTierId q = t.
Proof.
  intros H. apply find_some in H. destruct H as [Hin H].
  unfold quota_for in H. apply andb_true_iff in H. destruct H as [Hu Ht].
  apply String.eqb_eq in Hu. apply String.eqb_eq in Ht. tauto.
Qed.

(** What one [setUserTierQuota] does to the quota the gate reads. *)
Lemma quota_of_setUserTierQuota w u t n u' t' :
  int4 n = true ->
  quota_of (snd (setUserTierQuota u t n w)) u' t'
  = if String.eqb u' u && String.eqb t' t then n else quota_of w u' t'.
Proof.
  intros Hfit.
  rewrite !quota_of_find. unfold setUserTierQuota, write_quota, select_quota.
  rewrite Hfit. cbn [negb].
  destruct (0 <? length (filter (quota_for u t) (userTierQuotas w)))%nat eqn:Hex;
    cbn [snd userTierQuotas set_userTierQuotas].
  - rewrite find_map_stable by (intro; apply overwrite_keeps_key).
    destruct (find (quota_for u' t') (userTierQuotas w)) as [q|] eqn:Hq;
      cbn [option_map].
    + destruct (quota_for_found _ _ _ Hq) as [_ [Hu Ht]].
      unfold overwrite_quota, quota_for. rewrite Hu, Ht.
      destruct (String.eqb u' u && String.eqb t' t); reflexivity.
    + destruct (String.eqb u' u && String.eqb t' t) eqn:E; [|reflexivity].
      apply andb_true_iff in E. destruct E as [Eu Et].
      apply String.eqb_eq in Eu. apply String.eqb_eq in Et. subst u' t'.
      apply Nat.ltb_lt in Hex.
      destruct (filter (quota_for u t) (userTierQuotas w)) as [|q rest] eqn:Hf;
        [cbn in Hex; lia|].
      assert (Hin : In q (filter (quota_for u t) (userTierQuotas w)))
        by (rewrite Hf; now left).
      apply filter_In in Hin. destruct Hin as [Hin Hp].
      rewrite (find_none _ _ Hq _ Hin) in Hp. discriminate Hp.
  - apply Nat.ltb_ge in Hex.
    destruct (find (quota_for u' t') (userTierQuotas w)) as [q|] eqn:Hq.
    + rewrite (find_app_some _ _ _ Hq).
      destruct (String.eqb u' u && String.eqb t' t) eqn:E; [|reflexivity].
      apply andb_true_iff in E. destruct E as [Eu Et].
      apply String.eqb_eq in Eu. apply String.eqb_eq in Et. subst u' t'.
      apply find_some in Hq.
      assert (Hin : In q (filter (quota_for u t) (userTierQuotas w)))
        by (apply filter_In; exact Hq).
      destruct (filter (quota_for u t) (userTierQuotas w));
        [contradiction|cbn in Hex; lia].
    + rewrite (find_app_none _ _ _ Hq). cbn [find]. unfold quota_for at 1.
      cbn [quota_userId quota_capacityTierId].
      rewrite (String.eqb_sym u u'), (String.eqb_sym t t').
      destruct (String.eqb u' u && String.eqb t' t); reflexivity.
Qed.

Lemma setUserTierQuota_frame u t n w :
  let w' := snd (setUserTierQuota u t n w) in
  users w' = users w /\ events w' = events w /\ guests w' = guests w
  /\ capacityTiers w' = capacityTiers w.
Proof.
  unfold setUserTierQuota, write_quota.
  destruct (negb _); [cbn; repeat split|].
  destruct (_ <? _)%nat; cbn; repeat split.
Qed.

(** A quota between 0 and 100 fits the column, so that the call does not
    fail. *)
Lemma setUserTierQuota_stores u t n w :
  0 <= n <= 100 -> exists r, fst (setUserTierQuota u t n w) = Some r.
Proof.
  intros Hn. unfold setUserTierQuota, write_quota.
  assert (Hfit : int4 n = true) by (apply Columns.int4_range; lia).
  rewrite Hfit. cbn [negb]. destruct (_ <? _)%nat; eexists; reflexivity.
Qed.

(** The loop of a checked request runs to its end. *)
Lemma each_stored id tqs :
  Forall (fun tq => 0 <= tq_quota tq <= 100) tqs ->
  forall w,
    fst (each (fun tq => setUserTierQuota id (tq_tierId tq) (tq_quota tq)) tqs w)
    = true.
Proof.
  induction 1 as [|tq rest Hq _ IH]; intros w; [reflexivity|].
  cbn [each]. unfold bind.
  destruct (@setUserTierQuota_stores id (tq_tierId tq) (tq_quota tq) w Hq)
    as [r Hr].
  destruct (setUserTierQuota id (tq_tierId tq) (tq_quota tq) w) as [r' w1].
  cbn [fst] in Hr. subst r'. apply IH.
Qed.

(** The loop over the entries. *)
Lemma quota_of_each id tqs :
  Forall (fun tq => 0 <= tq_quota tq <= 100) tqs ->
  forall w u' t',
    quota_of (snd (each (fun tq => setUserTierQuota id (tq_tierId tq) (tq_quota tq))
                        tqs w)) u' t'
    = if String.eqb u' id
      then match asked tqs t' with
           | Some n => n
           | None => quota_of w u' t'
           end
      else quota_of w u' t'.
Proof.
  induction 1 as [|tq rest Hin _ IH]; intros w u' t'; cbn [each asked].
  - unfold ret. cbn [snd]. destruct (String.eqb u' id); reflexivity.
  - unfold bind.
    destruct (@setUserTierQuota_stores id (tq_tierId tq) (tq_quota tq) w Hin)
      as [r0 Hr0].
    destruct (setUserTierQuota id (tq_tierId tq) (tq_quota tq) w) as [r w1] eqn:Hset.
    cbn [fst] in Hr0. subst r.
    rewrite IH.
    assert (Hq : quota_of w1 u' t'
                 = if String.eqb u' id && String.eqb t' (tq_tierId tq)
                   then tq_quota tq else quota_of w u' t').
    { rewrite <- (@quota_of_setUserTierQuota w id (tq_tierId tq) (tq_quota tq) u' t')
        by (apply Columns.int4_range; lia).
      now rewrite Hset. }
    rewrite Hq. rewrite (String.eqb_sym (tq_tierId tq) t').
    destruct (String.eqb u' id); cbn [andb]; [|reflexivity].
    destruct (asked rest t'); [reflexivity|].
    destruct (String.eqb t' (tq_tierId tq)); reflexivity.
Qed.

Lemma first_issue_none tqs :
  first_issue tqs = None <-> Forall (fun tq => 0 <= tq_quota tq <= 100) tqs.
Proof.
  induction tqs as [|tq rest IH]; cbn [first_issue].
  - split; [constructor|reflexivity].
  - destruct (tq_quota tq <? 0) eqn:E0.
    + apply Z.ltb_lt in E0. split; [discriminate|].
      intros H. inversion H; subst. lia.
    + apply Z.ltb_ge in E0. destruct (100 <? tq_quota tq) eqn:E1.
      * apply Z.ltb_lt in E1. split; [discriminate|].
        intros H. inversion H; subst. lia.
      * apply Z.ltb_ge in E1. rewrite IH. split.
        -- intros H. constructor; [lia|exact H].
        -- intros H. inversion H; subst. assumption.
Qed.

Lemma tiers_all_stored w tqs :
  find (fun tq => negb (existsb (String.eqb (tq_tierId tq))
                                (map tier_id (getCapacityTiers w)))) tqs = None
  <-> Forall (fun tq => exists tier, In tier (capacityTiers w)
                                     /\ tier_id tier = tq_tierId tq) tqs.
Proof.
  induction tqs as [|tq rest IH]; cbn [find].
  - split; [constructor|reflexivity].
  - destruct (existsb _ _) eqn:E; cbn [negb].
    + apply existsb_exists in E. destruct E as [x [Hin Hx]].
      apply String.eqb_eq in Hx. apply in_map_iff in Hin.
      destruct Hin as [tier [Hid Hin]]. apply In_getCapacityTiers in Hin.
      rewrite IH. split.
      * intros H. constructor; [|exact H]. exists tier. split; [exact Hin|].
        congruence.
      * intros H. inversion H; subst. assumption.
    + split; [discriminate|]. intros H. inversion H as [|? ? [tier [Hin Hid]] _]; subst.
      exfalso. assert (Hex : existsb (String.eqb (tq_tierId tq))
                                     (map tier_id (getCapacityTiers w)) = true).
      { apply existsb_exists. exists (tier_id tier). split.
        - apply in_map. now apply In_getCapacityTiers.
        - rewrite Hid. apply String.eqb_refl. }
      congruence.
Qed.

Ltac unchanged := intros H; inversion H; right; reflexivity.

(** The update under a super admin's session, with the reads resolved;
    [log] is the audit entry. *)
Lemma run_quota_update w uid admin_ id tqs :
  logged_in w uid admin_ ->
  role admin_ = super_admin ->
  exists log : User -> InsertAuditLog,
    patch_api_subscriptions_id_tier_quotas (Some uid) id tqs w
    = match first_issue tqs with
      | Some e => (fail 400 e, w)
      | None =>
          match getUser id w with
          | None => (fail 404 manager_missing, w)
          | Some user =>
              if negb (role_eqb (role user) event_manager)
              then (fail 404 manager_missing, w)
              else
                match find (fun tq =>
                              negb (existsb (String.eqb (tq_tierId tq))
                                            (map tier_id (getCapacityTiers w))))
                           tqs with
                | Some tq => (fail 400 (tier_missing (tq_tierId tq)), w)
                | None =>
                    (ok success,
                     snd (createAuditLog (log user)
                            (snd (each (fun tq => setUserTierQuota
                                                    id (tq_tierId tq) (tq_quota tq))
                                       tqs w))))
                end
          end
      end.
Proof.
  intros [Huid Huser] Hrole. eexists.
  unfold patch_api_subscriptions_id_tier_quotas, Direct.requireRole'.
  rewrite Huid. unfold bind, read, ret. rewrite Huser, Hrole.
  cbn [existsb role_eqb orb].
  destruct (first_issue tqs) eqn:Hrange; [reflexivity|].
  apply first_issue_none in Hrange.
  destruct (getUser id w) as [user|]; [|reflexivity].
  destruct (negb _); [reflexivity|].
  destruct (find _ tqs); [reflexivity|].
  pose proof (@each_stored id tqs Hrange w) as Hdone.
  destruct (each _ tqs w) as [u w1]. cbn [fst] in Hdone. subst u. cbn [snd].
  destruct (createAuditLog _ w1) as [l w2] eqn:E.
  instantiate (1 := fun user =>
    mkInsertAuditLog None (user_id admin_) "update_tier_quotas"
      (Some ("تم تحديث حصص الباقات لـ " ++ user_name user ++ " (إجمالي: "
             ++ string_of_Z (fold_left (fun sum tq => sum + tq_quota tq) tqs 0)
             ++ " مناسبة)"))
      None).
  cbv beta. rewrite E. reflexivity.
Qed.

(** X7. A quota update is all or nothing.  Every check of
    PATCH /api/subscriptions/:id/tier-quotas (the session, the range of
    every quota, the target account, the existence of every tier) comes
    before the first write: a request that is not answered with success
    leaves the store exactly as it was, even when only its last entry is
    at fault. *)
Theorem quota_update_all_or_nothing w session id tqs :
  fst (patch_api_subscriptions_id_tier_quotas session id tqs w) = ok success
  \/ snd (patch_api_subscriptions_id_tier_quotas session id tqs w) = w.
Proof.
  destruct (patch_api_subscriptions_id_tier_quotas session id tqs w)
    as [r w'] eqn:Hrun.
  cbn [fst snd]. revert Hrun.
  unfold patch_api_subscriptions_id_tier_quotas, Direct.requireRole'.
  unfold bind, read, ret.
  destruct session as [uid|]; [|unchanged].
  destruct (Js.truthy_string (Some uid)); [|unchanged].
  destruct (getUser uid w) as [admin_|]; [|unchanged].
  destruct (existsb _ _); [|unchanged].
  destruct (first_issue tqs) eqn:Hrange; [unchanged|].
  apply first_issue_none in Hrange.
  destruct (getUser id w) as [user|]; [|unchanged].
  destruct (negb _); [unchanged|].
  destruct (find _ tqs); [unchanged|].
  pose proof (@each_stored id tqs Hrange w) as Hdone.
  destruct (each _ tqs w) as [u w1]. cbn [fst] in Hdone. subst u.
  destruct (createAuditLog _ w1). intros H. inversion H. left. reflexivity.
Qed.

(** X8. A valid quota update is applied entry by entry.  For a super
    admin, the update is answered with success exactly when every quota is
    between 0 and 100, the target is a stored event manager and every tier
    is stored.  Afterwards the quota the creation gate reads for the
    manager and a tier is the one the last entry naming that tier asks
    for; tiers the request does not name, and other accounts, keep their
    quotas, and no event is touched. *)
Theorem quota_update_applies w uid admin_ id tqs :
  logged_in w uid admin_ ->
  role admin_ = super_admin ->
  let out := patch_api_subscriptions_id_tier_quotas (Some uid) id tqs w in
  (fst out = ok success <-> quota_update_valid w id tqs)
  /\ (quota_update_valid w id tqs ->
      (forall T, quota_of (snd out) id T
                 = match asked tqs T with
                   | Some n => n
                   | None => quota_of w id T
                   end)
      /\ (forall u T, u <> id -> quota_of (snd out) u T = quota_of w u T)
      /\ events (snd out) = events w).
Proof.
  intros Hlog Hrole out. subst out.
  destruct (run_quota_update id tqs Hlog Hrole) as [log Hrun]. rewrite Hrun.
  clear Hrun. unfold quota_update_valid.
  destruct (first_issue tqs) as [e|] eqn:Hissue.
  { assert (Hbad : ~ Forall (fun tq => 0 <= tq_quota tq <= 100) tqs)
      by (intros H; apply first_issue_none in H; congruence).
    split; [split; [discriminate|]|]; intros [H _]; contradiction. }
  apply first_issue_none in Hissue.
  destruct (getUser id w) as [user|] eqn:Htarget.
  2:{ split; [split; [discriminate|]|]; intros [_ [[u [Hu _]] _]];
        discriminate Hu. }
  destruct (role_eqb (role user) event_manager) eqn:Hmgr; cbn [negb].
  2:{ assert (Hno : role user <> event_manager)
        by (intros E; rewrite E in Hmgr; discriminate Hmgr).
      split; [split; [discriminate|]|]; intros [_ [[u [Hu Hr]] _]];
        inversion Hu; subst; contradiction. }
  assert (Hm : role user = event_manager)
    by (destruct (role user); try discriminate Hmgr; reflexivity).
  destruct (find _ tqs) as [tq|] eqn:Hfind.
  { assert (Hbad : ~ Forall (fun tq => exists tier, In tier (capacityTiers w)
                                                    /\ tier_id tier = tq_tierId tq)
                            tqs)
      by (intros H; apply tiers_all_stored in H; congruence).
    split; [split; [discriminate|]|]; intros [_ [_ H]]; contradiction. }
  apply tiers_all_stored in Hfind. cbn [fst snd]. split.
  - split; [intros _|reflexivity].
    split; [exact Hissue|]. split; [exists user; split; [reflexivity|exact Hm]|].
    exact Hfind.
  - intros _.
    set (w1 := snd (each _ tqs w)).
    assert (Hq : forall u T,
               quota_of (snd (createAuditLog (log user) w1)) u T = quota_of w1 u T)
      by reflexivity.
    split; [|split].
    + intros T. rewrite Hq. unfold w1.
      rewrite (@quota_of_each id tqs Hissue), String.eqb_refl. reflexivity.
    + intros u T Hne. rewrite Hq. unfold w1.
      rewrite (@quota_of_each id tqs Hissue).
      apply String.eqb_neq in Hne. rewrite Hne. reflexivity.
    + cbn [createAuditLog snd events set_auditLogs]. unfold w1. clear.
      revert w. induction tqs as [|tq rest IH]; intros w; [reflexivity|].
      cbn [each]. unfold bind.
      destruct (setUserTierQuota id (tq_tierId tq) (tq_quota tq) w) as [r w2] eqn:E.
      pose proof (setUserTierQuota_frame id (tq_tierId tq) (tq_quota tq) w) as Hf.
      rewrite E in Hf. cbn [snd] in Hf.
      destruct r; [rewrite IH|cbn [ret snd]]; tauto.
Qed.

Lemma quota_update_applies_witness :
  quota_of (snd (patch_api_subscriptions_id_tier_quotas
                   (Some "s1") "m1"
                   [mkTierQuotaEntry "small" 5; mkTierQuotaEntry "open" 1;
                    mkTierQuotaEntry "small" 3]
                   Examples.venue))
           "m1" "small" = 3.
Proof.
  assert (Hlog : logged_in Examples.venue "s1" Examples.owner)
    by (split; reflexivity).
  destruct (@quota_update_applies Examples.venue "s1" Examples.owner "m1"
              [mkTierQuotaEntry "small" 5; mkTierQuotaEntry "open" 1;
               mkTierQuotaEntry "small" 3] Hlog eq_refl) as [_ Happly].
  assert (Hvalid : quota_update_valid Examples.venue "m1"
                     [mkTierQuotaEntry "small" 5; mkTierQuotaEntry "open" 1;
                      mkTierQuotaEntry "small" 3]).
  { split; [|split].
    - repeat constructor; cbn; lia.
    - exists Examples.manager. split; reflexivity.
    - repeat constructor.
      + exists Examples.small. split; [cbn; tauto|reflexivity].
      + exists Examples.open_tier. split; [cbn; tauto|reflexivity].
      + exists Examples.small. split; [cbn; tauto|reflexivity]. }
  destruct (Happly Hvalid) as [Hread _].
  apply (Hread "small").
Defined.

(** *** Requests in flight together can pass the gate together *)







(** *** Deleting a user's quota rows *)

(** X29. Deleting a user's quota rows closes the creation gate for that
    user only.  After [deleteUserTierQuotas] the user has no quota row
    left while every other user's quotas are as before, and no event is
    touched; a creation request of that user, an event manager, for a
    stored active tier is then refused with 403 "no permission for this
    tier", however few events the manager has. *)
Theorem quota_rows_deleted_gate_closed w uid user b T tier :
  logged_in w uid user ->
  role user = event_manager ->
  eb_capacityTierId b = Some T ->
  Js.truthy_string (Some T) = true ->
  getCapacityTier T w = Some tier ->
  Js.truthy_bool (tier_isActive tier) = true ->
  let w' := snd (deleteUserTierQuotas uid w) in
  getUserTierQuotas uid w' = []
  /\ (forall u T', u <> uid -> quota_of w' u T' = quota_of w u T')
  /\ events w' = events w
  /\ run (post_api_events (Some uid) b) w'
     = (res 403 (json_error (err_tier_no_permission (tier_name tier))), w').
Proof.
  intros Hlog Hrole HT Htruthy Htier Hon w'.
  pose proof (getUser_id _ _ (proj2 Hlog)) as Hid.
  assert (Hnone : getUserTierQuotas uid w' = []).
  { unfold w', deleteUserTierQuotas, getUserTierQuotas.
    cbn [snd userTierQuotas set_userTierQuotas].
    induction (userTierQuotas w) as [|q l IH]; [reflexivity|].
    cbn [filter]. destruct (String.eqb (quota_userId q) uid) eqn:E; cbn [negb].
    - exact IH.
    - cbn [filter]. rewrite E. exact IH. }
  split; [exact Hnone|]. split; [|split; [reflexivity|]].
  - intros u T' Hne. unfold quota_of, w', deleteUserTierQuotas.
    cbn [snd userTierQuotas set_userTierQuotas].
    assert (Hf : find (quota_row_of u T')
                      (filter (fun q => negb (String.eqb (quota_userId q) uid))
                              (userTierQuotas w))
                 = find (quota_row_of u T') (userTierQuotas w)).
    { induction (userTierQuotas w) as [|q l IH]; [reflexivity|].
      cbn [filter find]. unfold quota_row_of at 2.
      destruct (String.eqb (quota_userId q) uid) eqn:E; cbn [negb].
      - apply String.eqb_eq in E.
        destruct (String.eqb (quota_userId q) u) eqn:E'; [|exact IH].
        apply String.eqb_eq in E'. congruence.
      - cbn [find]. unfold quota_row_of at 1.
        destruct (String.eqb (quota_userId q) u && _); [reflexivity|exact IH]. }
    now rewrite Hf.
  - assert (Hlog' : logged_in w' uid user) by exact Hlog.
    assert (Htier' : getCapacityTier T w' = Some tier) by exact Htier.
    rewrite (@run_post_events_manager w' uid user b T tier
               Hlog' Hrole HT Htruthy Htier' Hon).
    rewrite Hid. unfold quota_of at 1. rewrite <- quota_row_found, Hnone.
    reflexivity.
Qed.

Lemma quota_rows_deleted_gate_closed_witness :
  run (post_api_events (Some "m1") Examples.gala)
      (snd (deleteUserTierQuotas "m1" Examples.venue))
  = (res 403 (json_error (err_tier_no_permission "Small")),
     snd (deleteUserTierQuotas "m1" Examples.venue)).
Proof.
  assert (Hlog : logged_in Examples.venue "m1" Examples.manager)
    by (split; reflexivity).
  apply (@quota_rows_deleted_gate_closed Examples.venue "m1" Examples.manager
           Examples.gala "small" Examples.small Hlog eq_refl eq_refl eq_refl
           eq_refl eq_refl).
Defined.

End QuotaRest.

(** ** Check-in: what a scan writes, the QR payload, closed events *)

Module CheckInRest.
Import Schema Storage StorageRest Async Routes Direct RoutesRest.
Import Spec SpecRest Session ListFacts ListFactsRest CheckIn.

(** *** What a scan writes *)

Lemma scan_effect_refl id0 w : scan_effect id0 w w.
Proof. repeat split. now left. Qed.

Lemma after_read_effect w user g' id' prefix :
  scan_effect id' w (snd (run (after_read user g' id' prefix) w)).
Proof.
  assert (Hrest : scan_effect id' w
                    (snd (run (if Js.truthy_bool (isCheckedIn g')
                               then answer_duplicate g'
                               else record_check_in user g' id' prefix) w))).
  { destruct (Js.truthy_bool (isCheckedIn g')).
    - rewrite run_answer_duplicate. apply scan_effect_refl.
    - unfold record_check_in. cbn [run exec checkInGuest createAuditLog snd].
      repeat split. right. eexists. eexists. reflexivity. }
  unfold after_read, verify_access.
  destruct (role user); try exact Hrest; cbn [run exec].
  - destruct (getEvent (guest_eventId g') w) as [event|];
      [|apply scan_effect_refl].
    destruct (negb _); [apply scan_effect_refl|exact Hrest].
  - destruct (negb _); [apply scan_effect_refl|exact Hrest].
Qed.

Lemma scan_program_effect w id s :
  exists id0, scan_effect id0 w (snd (run (scan_program id s) w)).
Proof.
  destruct s as [uid | uid code hint]; cbn [scan_program].
  - exists id. unfold post_api_guests_id_check_in, Routes.requireRole.
    destruct (Js.truthy_string (Some uid)); [|apply scan_effect_refl].
    cbn [run exec]. destruct (getUser uid w) as [user|]; [|apply scan_effect_refl].
    destruct (existsb _ _); [|apply scan_effect_refl].
    cbn [run exec]. destruct (getGuest id w) as [g|]; [|apply scan_effect_refl].
    apply (after_read_effect w user g id "تم تسجيل حضور: ").
  - unfold post_api_check_in_code, Routes.requireRole.
    destruct (Js.truthy_string (Some uid)); [|exists id; apply scan_effect_refl].
    cbn [run exec].
    destruct (getUser uid w) as [user|]; [|exists id; apply scan_effect_refl].
    destruct (existsb _ _); [|exists id; apply scan_effect_refl].
    destruct (Js.truthy_string (Some code)); [|exists id; apply scan_effect_refl].
    cbn [run exec].
    destruct (getGuestByQrCode (Js.toUpperCase code) w) as [g|];
      [|exists id; apply scan_effect_refl].
    destruct (_ && _); [exists id; apply scan_effect_refl|].
    exists (guest_id g).
    apply (after_read_effect w user g (guest_id g) "تم تسجيل حضور عبر المسح: ").
Qed.

Lemma stamp_same_but_checked id0 by_ t g :
  same_but_checked g (stamp_check_in id0 by_ t g).
Proof.
  unfold stamp_check_in, same_but_checked.
  destruct (String.eqb (guest_id g) id0); cbn; repeat split; trivial.
Qed.

Lemma same_but_checked_refl g : same_but_checked g g.
Proof. unfold same_but_checked. repeat split; trivial. Qed.

Lemma guests_same (l : list Guest) : Forall2 same_but_checked l l.
Proof.
  induction l; constructor; [apply same_but_checked_refl|assumption].
Qed.

Lemma guests_stamped id0 by_ t (l : list Guest) :
  Forall2 same_but_checked l (map (stamp_check_in id0 by_ t) l).
Proof.
  induction l; constructor; [apply stamp_same_but_checked|assumption].
Qed.

(** X9. What a scan writes.  Whoever sends it and whatever it names, a
    check-in request by id or by code leaves users, events, assignments,
    tiers and quotas alone; it adds no guest and removes none; every guest
    row keeps its id, event, name, contact data and access code, and a
    guest who was checked in still is.  The rows it changes all carry one
    id. *)
Theorem scan_writes_check_in_only w id s :
  let w' := snd (run (scan_program id s) w) in
  same_setup w w'
  /\ Forall2 same_but_checked (guests w) (guests w')
  /\ exists target,
      forall g', In g' (guests w') -> guest_id g' <> target -> In g' (guests w).
Proof.
  intros w'. subst w'.
  destruct (scan_program_effect w id s) as [id0 [Hsetup Hguests]].
  split; [exact Hsetup|].
  destruct Hguests as [Hsame | [by_ [t Hmap]]].
  - rewrite Hsame. split.
    + apply guests_same.
    + exists id0. intros; assumption.
  - rewrite Hmap. split.
    + apply guests_stamped.
    + exists id0. intros g' Hin Hne. apply in_map_iff in Hin.
      destruct Hin as [g [Hg Hin]]. subst g'.
      rewrite stamp_keeps_id in Hne. unfold stamp_check_in.
      apply String.eqb_neq in Hne. rewrite Hne. exact Hin.
Qed.

(** *** The QR payload *)



(** *** Events that are switched off *)

Lemma getEvent_id id w e : getEvent id w = Some e -> event_id e = id.
Proof.
  unfold getEvent. intros H. apply find_some in H. destruct H as [_ H].
  now apply String.eqb_eq in H.
Qed.

Lemma In_defined {A : Type} (a : A) (l : list (option A)) :
  In a (defined l) <-> In (Some a) l.
Proof.
  induction l as [|[x|] l IH]; cbn [defined In].
  - tauto.
  - rewrite IH. split; intros [H|H]; try tauto; left; congruence.
  - rewrite IH. split; [tauto|]. intros [H|H]; [discriminate|exact H].
Qed.

(** The events an organizer is let into are stored and active. *)
Lemma getOrganizerEvents_active o w e :
  In e (getOrganizerEvents o w) ->
  getEvent (event_id e) w = Some e /\ is_true (event_isActive e) = true.
Proof.
  unfold getOrganizerEvents.
  destruct (filter _ (eventOrganizers w)) as [|a l]; [contradiction|].
  intros Hin. apply filter_In in Hin. destruct Hin as [Hin Hact].
  split; [|exact Hact].
  apply In_defined in Hin. apply in_map_iff in Hin.
  destruct Hin as [eid [Hget _]].
  rewrite (getEvent_id _ _ Hget). exact Hget.
Qed.

(** X11. Switching an event off closes the door to organizers only.  When
    the stored event of a guest has [isActive] other than [true], every
    scan of that guest by an organizer (assigned to the event or not, by
    id or by code) is refused with 403 and writes nothing; the scan of the
    event's own manager is not affected: for a pending guest it is
    answered SUCCESS. *)
Theorem closed_event_bars_organizers w e id g :
  getEvent (guest_eventId g) w = Some e ->
  is_true (event_isActive e) = false ->
  getGuest id w = Some g ->
  (forall s user,
      logged_in w (scan_uid s) user -> role user = organizer -> reaches w g s ->
      run (scan_program id s) w = (res 403 (json_error err_not_allowed), w))
  /\ (forall s user,
        logged_in w (scan_uid s) user -> role user = event_manager ->
        eventManagerId e = user_id user -> reaches w g s ->
        Js.truthy_bool (isCheckedIn g) = false ->
        kind_of (fst (run (scan_program id s) w)) = Some SUCCESS).
Proof.
  intros He Hoff Hg. split.
  - intros s user Hlog Hrole Hreach.
    apply (@run_scan_barred w id g s user Hg); [|exact Hreach].
    split; [exact Hlog|]. rewrite Hrole.
    destruct (existsb _ (getOrganizerEvents (user_id user) w)) eqn:E;
      [|reflexivity].
    apply existsb_exists in E. destruct E as [e' [Hin Hid]].
    apply String.eqb_eq in Hid.
    destruct (getOrganizerEvents_active _ _ _ Hin) as [Hget Hact].
    rewrite Hid, He in Hget. inversion Hget; subst e'. congruence.
  - intros s user Hlog Hrole Hown Hreach Hpend.
    assert (Hallowed : scan_allowed w g s).
    { split; [|exact Hreach]. exists user. split; [exact Hlog|].
      rewrite Hrole. exists e. split; assumption. }
    destruct (@run_scan_success w id g s Hg Hpend Hallowed) as [w1 [Hrun _]].
    rewrite Hrun. reflexivity.
Qed.

Lemma closed_event_bars_organizers_witness :
  run (scan_program "g1" (scan_id "o1")) ExamplesRest.closed_venue
  = (res 403 (json_error err_not_allowed), ExamplesRest.closed_venue)
  /\ kind_of (fst (run (scan_program "g1" (scan_id "m1")) ExamplesRest.closed_venue))
     = Some SUCCESS.
Proof.
  destruct (@closed_event_bars_organizers ExamplesRest.closed_venue
              ExamplesRest.closed_wedding "g1" Examples.pending_guest
              eq_refl eq_refl eq_refl) as [Hbar Hpass].
  split.
  - apply (Hbar (scan_id "o1") Examples.usher); [split; reflexivity|reflexivity|exact I].
  - apply (Hpass (scan_id "m1") Examples.manager);
      [split; reflexivity|reflexivity|reflexivity|exact I|reflexivity].
Defined.

(** *** The audit trail *)

Lemma audited_stop uid w r :
  kind_of r <> Some SUCCESS -> audited uid w (r, w).
Proof.
  intros Hk. split; [intros H; contradiction|reflexivity].
Qed.

Lemma after_read_audited w user g' id' prefix :
  In g' (guests w) ->
  audited (user_id user) w (run (after_read user g' id' prefix) w).
Proof.
  intros Hin.
  assert (Hrest : audited (user_id user) w
                    (run (if Js.truthy_bool (isCheckedIn g')
                          then answer_duplicate g'
                          else record_check_in user g' id' prefix) w)).
  { destruct (Js.truthy_bool (isCheckedIn g')).
    - rewrite run_answer_duplicate. apply audited_stop. discriminate.
    - unfold record_check_in. cbn [run exec checkInGuest createAuditLog].
      split; [|intros H; contradiction H; reflexivity].
      intros _. eexists. exists g'. cbn [snd auditLogs set_auditLogs set_guests].
      split; [reflexivity|]. split; [|exact Hin]. repeat split. }
  unfold after_read, verify_access.
  destruct (role user); try exact Hrest; cbn [run exec].
  - destruct (getEvent (guest_eventId g') w) as [event|];
      [|apply audited_stop; discriminate].
    destruct (negb _); [apply audited_stop; discriminate|exact Hrest].
  - destruct (negb _); [apply audited_stop; discriminate|exact Hrest].
Qed.

(** X26. The audit trail of check-in.  Whoever sends it and whatever it
    names, a check-in request by id or by code that is answered SUCCESS
    has added exactly one line to the audit log, with the action
    "check_in", the id of the user of the session, and the id and event of
    a stored guest; a request that is answered in any other way
    (DUPLICATE, INVALID, a refusal) has left the whole store as it was. *)
Theorem scan_audit_trail w id s :
  let out := run (scan_program id s) w in
  (kind_of (fst out) = Some SUCCESS ->
   exists l g,
     auditLogs (snd out) = (auditLogs w ++ [l])%list
     /\ check_in_line l (scan_uid s) g /\ In g (guests w))
  /\ (kind_of (fst out) <> Some SUCCESS -> snd out = w).
Proof.
  change (audited (scan_uid s) w (run (scan_program id s) w)).
  destruct s as [uid | uid code hint]; cbn [scan_program scan_uid].
  - unfold post_api_guests_id_check_in, Routes.requireRole.
    destruct (Js.truthy_string (Some uid)); [|apply audited_stop; discriminate].
    cbn [run exec]. destruct (getUser uid w) as [user|] eqn:Hu;
      [|apply audited_stop; discriminate].
    destruct (existsb _ _); [|apply audited_stop; discriminate].
    cbn [run exec]. destruct (getGuest id w) as [g|] eqn:Hg;
      [|apply audited_stop; discriminate].
    rewrite <- (getUser_id _ _ Hu).
    apply (@after_read_audited w user g id "تم تسجيل حضور: ").
    unfold getGuest in Hg. apply find_some in Hg. tauto.
  - unfold post_api_check_in_code, Routes.requireRole.
    destruct (Js.truthy_string (Some uid)); [|apply audited_stop; discriminate].
    cbn [run exec]. destruct (getUser uid w) as [user|] eqn:Hu;
      [|apply audited_stop; discriminate].
    destruct (existsb _ _); [|apply audited_stop; discriminate].
    destruct (Js.truthy_string (Some code)); [|apply audited_stop; discriminate].
    cbn [run exec].
    destruct (getGuestByQrCode (Js.toUpperCase code) w) as [g|] eqn:Hg;
      [|apply audited_stop; discriminate].
    destruct (_ && _); [apply audited_stop; discriminate|].
    rewrite <- (getUser_id _ _ Hu).
    apply (@after_read_audited w user g (guest_id g) "تم تسجيل حضور عبر المسح: ").
    unfold getGuestByQrCode in Hg. apply find_some in Hg. tauto.
Qed.

End CheckInRest.

(** ** Guests: edits, deletions and the guest list *)

Module GuestsRest.
Import Schema Storage StorageRest Async Routes Direct RoutesRest.
Import Spec SpecRest Session ListFacts ListFactsRest Capacity CheckIn.

(** The single-guest routes either stop before [next] with the store as
    it was, or run [next] for the stored guest. *)
Lemma with_guest_cases {A : Type} session id
      (next : User -> Guest -> Handler (Reply A)) w :
  (exists status e, with_guest session id next w = (fail status e, w))
  \/ exists uid user guest event,
      session = Some uid /\ getUser uid w = Some user
      /\ getGuest id w = Some guest
      /\ getEvent (guest_eventId guest) w = Some event
      /\ with_guest session id next w = next user guest w.
Proof.
  unfold with_guest, Direct.requireRole', refusal, bind, read, ret.
  destruct session as [uid|]; [|left; eauto].
  destruct (Js.truthy_string (Some uid)); [|left; eauto].
  destruct (getUser uid w) as [user|] eqn:Hu; [|left; eauto].
  destruct (existsb _ _); [|left; eauto].
  destruct (getGuest id w) as [guest|] eqn:Hg; [|left; eauto].
  destruct (getEvent (guest_eventId guest) w) as [event|] eqn:He; [|left; eauto].
  destruct (_ && _); [left; eauto|].
  right. exists uid, user, guest, event. repeat split; assumption.
Qed.

Lemma patch_same_entry id data g :
  pg_eventId data = None -> pg_isCheckedIn data = None ->
  pg_checkedInAt data = None -> pg_checkedInBy data = None ->
  same_entry g (apply_guest_patch id data g).
Proof.
  intros H1 H2 H3 H4. unfold apply_guest_patch, same_entry.
  destruct (String.eqb (guest_id g) id); cbn; [|repeat split].
  rewrite H1, H2, H3, H4. repeat split.
Qed.

Lemma entries_same (l : list Guest) : Forall2 same_entry l l.
Proof.
  induction l; constructor; [unfold same_entry; repeat split|assumption].
Qed.

(** X12. Editing a guest cannot undo a check-in.  Whoever sends it and
    whatever its body, PATCH /api/guests/:id adds no guest and removes
    none, and leaves on every row the id, the event, the access code and
    the three check-in columns as they were; users, events, assignments,
    tiers and quotas are not touched. *)
Theorem guest_edit_keeps_check_in w session id b :
  let w' := snd (patch_api_guests_id session id b w) in
  Forall2 same_entry (guests w) (guests w') /\ same_setup w w'.
Proof.
  intros w'. subst w'. unfold patch_api_guests_id.
  destruct (with_guest_cases session id
              (fun user guest =>
                 updated <~ updateGuest id
                              (mkPartialGuest None (gpb_name b) (gpb_phone b)
                                 (gpb_category b) (gpb_companions b) (gpb_notes b)
                                 None None None) ;;
                 match updated with
                 | None => ret (fail 500 update_guest_failed)
                 | Some updated =>
                     _ <~ createAuditLog
                            (mkInsertAuditLog (Some (guest_eventId guest))
                               (user_id user) "update_guest"
                               (Some ("تم تعديل ضيف: " ++ guest_name guest))
                               (Some (guest_id guest))) ;;
                     ret (ok updated)
                 end) w)
    as [[status [e Hfail]] | [uid [user [guest [event [_ [_ [_ [_ Hrun]]]]]]]]].
  - rewrite Hfail. split; [apply entries_same|repeat split].
  - rewrite Hrun. unfold bind, ret, updateGuest.
    destruct (guest_patch_empty _ || _); cbn [snd].
    + split; [apply entries_same|repeat split].
    + cbn [createAuditLog snd guests set_auditLogs set_guests]. split.
      * induction (guests w) as [|g l IH]; constructor; [|exact IH].
        apply patch_same_entry; reflexivity.
      * repeat split.
Qed.

Lemma filter_out_le (l : list Guest) id eid :
  (length (filter (fun x => String.eqb (guest_eventId x) eid)
                  (filter (fun x => negb (String.eqb (guest_id x) id)) l))
   <= length (filter (fun x => String.eqb (guest_eventId x) eid) l))%nat.
Proof.
  induction l as [|y l IH]; [cbn; lia|].
  cbn [filter]. destruct (negb _); cbn [filter];
    destruct (String.eqb (guest_eventId y) eid); cbn [length]; lia.
Qed.

(** Deleting the rows with an id takes a guest of the event away. *)
Lemma filter_out_fewer (l : list Guest) g id eid :
  In g l -> String.eqb (guest_id g) id = true ->
  String.eqb (guest_eventId g) eid = true ->
  Z.of_nat (length (filter (fun x => String.eqb (guest_eventId x) eid)
                           (filter (fun x => negb (String.eqb (guest_id x) id)) l)))
  < Z.of_nat (length (filter (fun x => String.eqb (guest_eventId x) eid) l)).
Proof.
  intros Hin Hid Hev. induction l as [|x l IH]; [contradiction|].
  cbn [filter]. destruct Hin as [Heq | Hin].
  - subst x. rewrite Hid, Hev. cbn [negb length].
    pose proof (filter_out_le l id eid). lia.
  - specialize (IH Hin).
    destruct (negb (String.eqb (guest_id x) id)); cbn [filter];
      destruct (String.eqb (guest_eventId x) eid); cbn [length]; lia.
Qed.

(** X13. Deleting a guest frees a place.  When DELETE /api/guests/:id
    answers success, the guest was stored and no row has its id any more;
    the other guests are all still there; the guest's event holds fewer
    guests than before, so that an event that was just full lets a user
    who may manage it add a guest again. *)
Theorem guest_delete_frees_place w session id w' :
  delete_api_guests_id session id w = (ok success, w') ->
  exists g,
    getGuest id w = Some g
    /\ getGuest id w' = None
    /\ (forall g', In g' (guests w') <-> In g' (guests w) /\ guest_id g' <> id)
    /\ guest_count w' (guest_eventId g) < guest_count w (guest_eventId g)
    /\ forall uid user event M b bytes,
        may_manage w' uid user (guest_eventId g) event ->
        guest_limit w' event = Some M ->
        guest_count w (guest_eventId g) <= M ->
        run (post_api_events_id_guests (Some uid) (guest_eventId g) b bytes) w'
        = run (add_guest user (guest_eventId g) b bytes) w'.
Proof.
  unfold delete_api_guests_id. intros Hrun.
  match type of Hrun with
  | with_guest _ _ ?next _ = _ =>
      destruct (with_guest_cases session id next w)
        as [[status [e Hfail]] | [uid [user [g [event [_ [_ [Hg [_ Hnext]]]]]]]]]
  end.
  - rewrite Hfail in Hrun. discriminate Hrun.
  - rewrite Hnext in Hrun. unfold bind, ret, deleteGuest in Hrun.
    assert (Hw' : guests w'
                  = filter (fun x => negb (String.eqb (guest_id x) id)) (guests w))
      by (inversion Hrun; reflexivity).
    clear Hrun Hnext.
    exists g. split; [exact Hg|].
    assert (Hgs : forall g', In g' (guests w')
                             <-> In g' (guests w) /\ guest_id g' <> id).
    { intros g'. rewrite Hw', filter_In, negb_true_iff. split.
      - intros [H1 H2]. split; [exact H1|now apply String.eqb_neq].
      - intros [H1 H2]. split; [exact H1|now apply String.eqb_neq]. }
    assert (Hcount : guest_count w' (guest_eventId g)
                     < guest_count w (guest_eventId g)).
    { rewrite <- !guest_count_length. unfold getGuestsByEvent. rewrite Hw'.
      unfold getGuest in Hg. apply find_some in Hg. destruct Hg as [Hin Hid].
      apply (@filter_out_fewer (guests w) g id (guest_eventId g) Hin Hid).
      apply String.eqb_refl. }
    split; [|split; [|split]].
    + unfold getGuest.
      destruct (find _ (guests w')) as [x|] eqn:E; [|reflexivity].
      apply find_some in E. destruct E as [Hin Hid]. apply Hgs in Hin.
      apply String.eqb_eq in Hid. tauto.
    + exact Hgs.
    + exact Hcount.
    + intros uid0 user0 event0 M b bytes Hm Hlim Hfull.
      rewrite (run_post_guest b bytes Hm), Hlim.
      destruct (_ >=? M) eqn:E; [|reflexivity].
      apply Z.geb_le in E. lia.
Qed.

Lemma guest_delete_frees_place_witness :
  exists g,
    getGuest "g2" Examples.full_venue = Some g
    /\ guest_count (snd (delete_api_guests_id (Some "m1") "g2" Examples.full_venue))
                   (guest_eventId g)
       < guest_count Examples.full_venue (guest_eventId g).
Proof.
  destruct (@guest_delete_frees_place Examples.full_venue (Some "m1") "g2"
              (snd (delete_api_guests_id (Some "m1") "g2" Examples.full_venue))
              eq_refl)
    as [g [Hg [_ [_ [Hlt _]]]]].
  exists g. split; [exact Hg|exact Hlt].
Defined.

(** X14. The guest list is open to every organizer.  GET
    /api/events/:id/guests refuses only an event manager who does not own
    the event: an organizer, assigned to the event or not, is sent all its
    guests with their access codes, although every scan of one of these
    guests by an organizer barred from the event is refused with 403. *)
Theorem guest_list_open_to_organizers w uid user id event :
  logged_in w uid user ->
  role user = organizer ->
  getEvent id w = Some event ->
  get_api_events_id_guests (Some uid) id w = (ok (getGuestsByEvent id w), w)
  /\ (barred w uid user id ->
      forall g gid s,
        In g (getGuestsByEvent id w) -> getGuest gid w = Some g ->
        scan_uid s = uid -> reaches w g s ->
        run (scan_program gid s) w = (res 403 (json_error err_not_allowed), w)).
Proof.
  intros [Huid Huser] Hrole Hev. split.
  - unfold get_api_events_id_guests, requireAuth, bind, read, ret.
    rewrite Huid, Huser, Hev, Hrole. reflexivity.
  - intros Hbar g gid s Hin Hg Hs Hreach.
    apply filter_In in Hin. destruct Hin as [_ Heid].
    apply String.eqb_eq in Heid.
    apply (@run_scan_barred w gid g s user Hg); [|exact Hreach].
    rewrite Hs, Heid. exact Hbar.
Qed.

Lemma guest_list_open_to_organizers_witness :
  get_api_events_id_guests (Some "o2") "e1" Examples.venue
  = (ok [Examples.pending_guest], Examples.venue)
  /\ run (scan_program "g1" (scan_id "o2")) Examples.venue
     = (res 403 (json_error err_not_allowed), Examples.venue).
Proof.
  assert (Hlog : logged_in Examples.venue "o2" Examples.other_usher)
    by (split; reflexivity).
  destruct (@guest_list_open_to_organizers Examples.venue "o2"
              Examples.other_usher "e1" Examples.wedding Hlog eq_refl eq_refl)
    as [Hlist Hscan].
  split; [exact Hlist|].
  apply (Hscan (conj Hlog eq_refl) Examples.pending_guest "g1" (scan_id "o2"));
    [left; reflexivity|reflexivity|reflexivity|exact I].
Defined.

(** *** Creation is all or nothing *)

Lemma insert_guests_inv gs :
  forall w rows w',
    insert_guests gs w = Some (rows, w') ->
    guests w' = (guests w ++ rows)%list /\ length rows = length gs
    /\ auditLogs w' = auditLogs w.
Proof.
  induction gs as [|g gs IH]; intros w rows w'; cbn [insert_guests].
  - intros H. inversion H; subst. rewrite app_nil_r. repeat split.
  - destruct (createGuest g w) as [[row|] w1] eqn:Hc; [|discriminate].
    apply Columns.createGuest_some in Hc. destruct Hc as [_ [_ [_ Hw1]]].
    subst w1.
    destruct (insert_guests gs _) as [[rows' w'']|] eqn:E; [|discriminate].
    intros H. inversion H; subst. destruct (IH _ _ _ E) as [Hg [Hl Ha]].
    rewrite Hg. cbn [guests set_guests length]. rewrite <- app_assoc.
    split; [reflexivity|]. split; [now rewrite Hl|exact Ha].
Qed.

Lemma import_rows_effect w user id data limit :
  let out := run (import_rows user id data limit) w in
  (fst out = res 500 (json_error err_process_file) /\ snd out = w)
  \/ exists rows,
      fst out = res 200 (json_upload (length rows) rows)
      /\ guests (snd out) = (guests w ++ rows)%list
      /\ (length rows <= length data)%nat
      /\ length (auditLogs (snd out)) = S (length (auditLogs w)).
Proof.
  unfold import_rows. cbn [run exec].
  set (gs := limit_guests limit (map (guest_of_row id) data)).
  assert (Hlen : (length gs <= length data)%nat).
  { unfold gs, limit_guests. destruct limit as [m|]; [|now rewrite length_map].
    destruct (_ >? m); [|now rewrite length_map].
    rewrite length_firstn, length_map. lia. }
  unfold createGuests. destruct gs as [|g gs'] eqn:Egs.
  - cbn [run exec createAuditLog fst snd]. right. exists [].
    cbn [length guests set_auditLogs auditLogs]. rewrite app_nil_r, length_app.
    cbn. repeat split; lia.
  - destruct (65535 <? _); [left; split; reflexivity|].
    destruct (insert_guests (g :: gs') w) as [[rows w']|] eqn:E.
    + destruct (insert_guests_inv _ _ E) as [Hg [Hl Ha]].
      cbn [run exec createAuditLog fst snd]. right. exists rows.
      cbn [guests set_auditLogs auditLogs]. rewrite length_app, Ha.
      split; [reflexivity|]. split; [exact Hg|]. split; [lia|cbn; lia].
    + left. split; reflexivity.
Qed.

(** X24. A bulk import is all or nothing.  Whoever sends it and whatever
    the sheet, POST /api/events/:id/upload-guests either answers 200,
    and then the guest table has grown by exactly the rows the answer
    lists, which are as many as it counts and no more than the sheet has,
    with one line added to the audit log; or it answers an error and the
    store is as it was: a batch of which one access code is refused by
    the unique index leaves no guest behind. *)
Theorem bulk_import_all_or_nothing w session id file :
  let out := run (post_api_events_id_upload_guests session id file) w in
  (status (fst out) <> 200 /\ snd out = w)
  \/ exists rows,
      fst out = res 200 (json_upload (length rows) rows)
      /\ guests (snd out) = (guests w ++ rows)%list
      /\ (forall data, file = Some data -> (length rows <= length data)%nat)
      /\ length (auditLogs (snd out)) = S (length (auditLogs w)).
Proof.
  assert (Hstop : forall s e,
             s <> 200 ->
             (status (fst (res s (json_error e), w)) <> 200
              /\ snd (res s (json_error e), w) = w)
             \/ exists rows,
                 fst (res s (json_error e), w)
                 = res 200 (json_upload (length rows) rows)
                 /\ guests (snd (res s (json_error e), w)) = (guests w ++ rows)%list
                 /\ (forall data, file = Some data ->
                                  (length rows <= length data)%nat)
                 /\ length (auditLogs (snd (res s (json_error e), w)))
                    = S (length (auditLogs w)))
    by (intros s e Hs; left; split; [exact Hs|reflexivity]).
  assert (Hgo : forall user data limit,
             file = Some data ->
             let out := run (import_rows user id data limit) w in
             (status (fst out) <> 200 /\ snd out = w)
             \/ exists rows,
                 fst out = res 200 (json_upload (length rows) rows)
                 /\ guests (snd out) = (guests w ++ rows)%list
                 /\ (forall data0, file = Some data0 ->
                                   (length rows <= length data0)%nat)
                 /\ length (auditLogs (snd out)) = S (length (auditLogs w))).
  { intros user data limit Hfile out.
    destruct (import_rows_effect w user id data limit)
      as [[Hr Hw] | [rows [Hr [Hg [Hl Ha]]]]].
    - left. subst out. rewrite Hr, Hw. split; [cbn; lia|reflexivity].
    - right. exists rows. split; [exact Hr|]. split; [exact Hg|].
      split; [|exact Ha]. intros data0 Hd. rewrite Hfile in Hd.
      inversion Hd; subst. exact Hl. }
  intros out. subst out.
  unfold post_api_events_id_upload_guests, Routes.requireRole.
  destruct session as [uid|]; [|apply Hstop; lia].
  destruct (Js.truthy_string (Some uid)); [|apply Hstop; lia].
  cbn [run exec]. destruct (getUser uid w) as [user|]; [|apply Hstop; lia].
  destruct (existsb _ _); [|apply Hstop; lia].
  cbn [run exec]. destruct (getEvent id w) as [event|]; [|apply Hstop; lia].
  destruct (_ && _); [apply Hstop; lia|].
  destruct file as [data|] eqn:Hfile; [|apply Hstop; lia].
  destruct (Js.truthy_string (event_capacityTierId event));
    [|apply (Hgo user data None eq_refl)].
  destruct (event_capacityTierId event) as [T|];
    [|apply (Hgo user data None eq_refl)].
  cbn [run exec]. destruct (getCapacityTier T w) as [tier|];
    [|apply (Hgo user data None eq_refl)].
  destruct (_ && _); [|apply (Hgo user data None eq_refl)].
  destruct (maxGuests tier) as [M|]; [|apply (Hgo user data None eq_refl)].
  cbn [run exec]. destruct (_ <=? 0); [apply Hstop; lia|].
  apply (Hgo user data (Some (M - Z.of_nat (length (getGuestsByEvent id w))))
             eq_refl).
Qed.

(** *** Requests in flight together can pass the capacity check together *)





End GuestsRest.

(** ** Events: deletion and update *)

Module EventsRest.
Import Schema Storage StorageRest Async Routes Direct RoutesRest.
Import Spec SpecRest Session ListFacts ListFactsRest QuotaRest CheckInRest.

Lemma used_of_counts w M T :
  used_of w M T = Z.of_nat (length (filter (counts_for M T) (events w))).
Proof. rewrite <- EventQuota.count_is_live. reflexivity. Qed.

Lemma delete_counts_le (l : list Event) id M T :
  (length (filter (counts_for M T)
                  (filter (fun e => negb (String.eqb (event_id e) id)) l))
   <= length (filter (counts_for M T) l))%nat.
Proof.
  induction l as [|y l IH]; [cbn; lia|].
  cbn [filter]. destruct (negb _); cbn [filter];
    destruct (counts_for M T y); cbn [length]; lia.
Qed.

Lemma delete_counts_lt (l : list Event) e id M T :
  In e l -> String.eqb (event_id e) id = true -> counts_for M T e = true ->
  (length (filter (counts_for M T)
                  (filter (fun e => negb (String.eqb (event_id e) id)) l))
   < length (filter (counts_for M T) l))%nat.
Proof.
  intros Hin Hid Hc. induction l as [|x l IH]; [contradiction|].
  cbn [filter]. destruct Hin as [Heq | Hin].
  - subst x. rewrite Hid, Hc. cbn [negb length].
    pose proof (delete_counts_le l id M T). lia.
  - specialize (IH Hin).
    destruct (negb (String.eqb (event_id x) id)); cbn [filter];
      destruct (counts_for M T x); cbn [length]; lia.
Qed.

(** X15. Deleting an event gives its quota slot back and keeps its
    guests.  When DELETE /api/events/:id answers success, the event was
    stored and no row has its id any more; the live count of its manager on
    its tier, which the creation gate compares with the quota, is smaller
    than before, and no count has grown; the guest rows and the
    assignments of the event are all still stored. *)
Theorem event_delete_frees_quota w session id w' :
  delete_api_events_id session id w = (ok success, w') ->
  exists e,
    getEvent id w = Some e
    /\ getEvent id w' = None
    /\ (forall T, event_capacityTierId e = Some T ->
                  used_of w' (eventManagerId e) T < used_of w (eventManagerId e) T)
    /\ (forall M T, used_of w' M T <= used_of w M T)
    /\ guests w' = guests w
    /\ eventOrganizers w' = eventOrganizers w
    /\ userTierQuotas w' = userTierQuotas w.
Proof.
  unfold delete_api_events_id, Direct.requireRole', refusal, bind, read, ret.
  destruct session as [uid|]; [|discriminate].
  destruct (Js.truthy_string (Some uid)); [|discriminate].
  destruct (getUser uid w) as [user|]; [|discriminate].
  destruct (existsb _ _); [|discriminate].
  destruct (getEvent id w) as [e|] eqn:He; [|discriminate].
  destruct (_ && _); [discriminate|].
  unfold deleteEvent. intros Hrun. inversion Hrun as [Hw']. clear Hrun.
  exists e. split; [reflexivity|].
  unfold getEvent in He. apply find_some in He. destruct He as [Hin Hid].
  split; [|split; [|split; [|repeat split]]].
  - unfold getEvent. cbn [events set_events].
    destruct (find _ _) as [x|] eqn:E; [|reflexivity].
    apply find_some in E. destruct E as [Hx Hxid].
    apply filter_In in Hx. destruct Hx as [_ Hx].
    rewrite Hxid in Hx. discriminate Hx.
  - intros T HT. rewrite !used_of_counts. cbn [events set_events].
    apply inj_lt.
    apply (@delete_counts_lt (events w) e id (eventManagerId e) T Hin Hid).
    unfold counts_for. rewrite HT, String.eqb_refl. cbn.
    apply String.eqb_refl.
  - intros M T. rewrite !used_of_counts. cbn [events set_events].
    apply inj_le. apply delete_counts_le.
Qed.

Lemma event_delete_frees_quota_witness :
  used_of (snd (delete_api_events_id (Some "m1") "e1" Examples.venue)) "m1" "small"
  < used_of Examples.venue "m1" "small".
Proof.
  destruct (@event_delete_frees_quota Examples.venue (Some "m1") "e1"
              (snd (delete_api_events_id (Some "m1") "e1" Examples.venue))
              eq_refl)
    as [e [He [_ [Hlt _]]]].
  vm_compute in He. inversion He; subst e.
  apply (Hlt "small"). reflexivity.
Defined.






End EventsRest.

(** ** Organizers: assignment and removal *)

Module OrganizersRest.
Import Schema Storage StorageRest Async Routes Direct RoutesRest.
Import Spec SpecRest Session ListFacts ListFactsRest CheckIn CheckInRest.

(** An assignment to a stored, active event lets the organizer in. *)
Lemma assignment_lets_in o w a e :
  In a (eventOrganizers w) -> organizerId a = o ->
  getEvent (assignment_eventId a) w = Some e ->
  is_true (event_isActive e) = true ->
  existsb (fun x => String.eqb (event_id x) (assignment_eventId a))
          (getOrganizerEvents o w) = true.
Proof.
  intros Hin Ho He Hact. unfold getOrganizerEvents.
  assert (Hf : In a (filter (fun x => String.eqb (organizerId x) o)
                            (eventOrganizers w)))
    by (apply filter_In; split; [exact Hin|rewrite Ho; apply String.eqb_refl]).
  destruct (filter _ (eventOrganizers w)) as [|a0 l] eqn:E; [contradiction|].
  apply existsb_exists. exists e. split.
  - apply filter_In. split; [|exact Hact].
    apply In_defined. rewrite <- He. apply in_map_iff.
    exists (assignment_eventId a). split; [reflexivity|].
    now apply in_map.
  - rewrite (getEvent_id _ _ He). apply String.eqb_refl.
Qed.

(** An assignment lists the organizer among the organizers of the event. *)
Lemma assignment_lists id w a user :
  In a (eventOrganizers w) -> assignment_eventId a = id ->
  getUser (organizerId a) w = Some user ->
  In user (getEventOrganizers id w).
Proof.
  intros Hin Hid Hu. unfold getEventOrganizers.
  assert (Hf : In a (filter (fun x => String.eqb (assignment_eventId x) id)
                            (eventOrganizers w)))
    by (apply filter_In; split; [exact Hin|rewrite Hid; apply String.eqb_refl]).
  destruct (filter _ (eventOrganizers w)) as [|a0 l] eqn:E; [contradiction|].
  apply In_defined. rewrite <- Hu. apply in_map_iff.
  exists (organizerId a). split; [reflexivity|]. now apply in_map.
Qed.

(** X17. Assigning an organizer opens the door.  When POST
    /api/events/:id/organizers answers with the new assignment, the named
    account, if stored, is listed among the organizers of the event; and
    when the event is active and the account is an organizer's, it has from
    then on the relationship to the event that every check-in route asks
    for. *)
Theorem assigned_organizer_let_in w session id o a w' :
  post_api_events_id_organizers session id o w = (ok a, w') ->
  exists e,
    getEvent id w' = Some e
    /\ assignment_eventId a = id /\ organizerId a = o
    /\ In a (eventOrganizers w')
    /\ (forall user, getUser o w' = Some user ->
                     In user (getEventOrganizers id w'))
    /\ (is_true (event_isActive e) = true ->
        forall user,
          logged_in w' o user -> role user = organizer ->
          may_check_in w' o user id).
Proof.
  unfold post_api_events_id_organizers, Direct.requireRole', refusal, bind, read, ret.
  destruct session as [uid|]; [|discriminate].
  destruct (Js.truthy_string (Some uid)); [|discriminate].
  destruct (getUser uid w) as [user|]; [|discriminate].
  destruct (existsb _ _); [|discriminate].
  destruct (getEvent id w) as [e|] eqn:He; [|discriminate].
  destruct (_ && _); [discriminate|].
  assert (Hassign :
            (let (assignment, w1) := assignOrganizer (mkInsertEventOrganizer id o) w in
             (ok assignment, w1)) = (ok a, w') ->
            exists e0,
              getEvent id w' = Some e0
              /\ assignment_eventId a = id /\ organizerId a = o
              /\ In a (eventOrganizers w')
              /\ (forall user0, getUser o w' = Some user0 ->
                                In user0 (getEventOrganizers id w'))
              /\ (is_true (event_isActive e0) = true ->
                  forall user0,
                    logged_in w' o user0 -> role user0 = organizer ->
                    may_check_in w' o user0 id)).
  { unfold assignOrganizer. intros H. inversion H as [[Ha Hw']]. clear H.
    set (row := mkEventOrganizer (fresh_id w) id o (Some (clock w))).
    set (w1 := set_eventOrganizers w (eventOrganizers w ++ [row]) (S (drawn w))).
    assert (Hrow : In row (eventOrganizers w1))
      by (unfold w1; cbn [eventOrganizers set_eventOrganizers];
          apply in_or_app; right; left; reflexivity).
    exists e. split; [exact He|].
    split; [reflexivity|]. split; [reflexivity|]. split; [exact Hrow|]. split.
    - intros user0 Hu.
      apply (@assignment_lists id w1 row user0 Hrow eq_refl Hu).
    - intros Hact user0 Hlog Hrole. split; [exact Hlog|]. rewrite Hrole.
      rewrite (getUser_id _ _ (proj2 Hlog)).
      apply (@assignment_lets_in o w1 row e Hrow eq_refl He Hact). }
  destruct (role_eqb (role user) event_manager); [|exact Hassign].
  destruct (getUser o w) as [assignee|]; [|discriminate].
  destruct (negb _); [discriminate|exact Hassign].
Qed.

Lemma assigned_organizer_let_in_witness :
  may_check_in (snd (post_api_events_id_organizers (Some "m1") "e1" "o2"
                                                   Examples.venue))
               "o2" Examples.other_usher "e1".
Proof.
  destruct (@assigned_organizer_let_in Examples.venue (Some "m1") "e1" "o2"
              (fst (assignOrganizer (mkInsertEventOrganizer "e1" "o2")
                                    Examples.venue))
              (snd (post_api_events_id_organizers (Some "m1") "e1" "o2"
                                                  Examples.venue))
              eq_refl)
    as [e [He [_ [_ [_ [_ Hopen]]]]]].
  vm_compute in He. inversion He; subst e.
  apply Hopen; [reflexivity|split; reflexivity|reflexivity].
Defined.

(** X18. Removing an organizer closes the door, however often the
    organizer was assigned.  When DELETE
    /api/events/:id/organizers/:organizerId answers success, no assignment
    of that organizer to that event is left, and the organizer is barred
    from the event: every scan the organizer makes of one of its guests is
    refused with 403 and writes nothing. *)
Theorem removed_organizer_barred w session id o w' :
  delete_api_events_id_organizers_id session id o w = (ok success, w') ->
  (forall a, In a (eventOrganizers w') ->
             ~ (assignment_eventId a = id /\ organizerId a = o))
  /\ forall user,
      logged_in w' o user -> role user = organizer ->
      barred w' o user id
      /\ forall g gid s,
          getGuest gid w' = Some g -> guest_eventId g = id ->
          scan_uid s = o -> reaches w' g s ->
          run (scan_program gid s) w'
          = (res 403 (json_error err_not_allowed), w').
Proof.
  unfold delete_api_events_id_organizers_id, Direct.requireRole', refusal,
    bind, read, ret.
  destruct session as [uid|]; [|discriminate].
  destruct (Js.truthy_string (Some uid)); [|discriminate].
  destruct (getUser uid w) as [user|]; [|discriminate].
  destruct (existsb _ _); [|discriminate].
  destruct (getEvent id w) as [e|] eqn:He; [|discriminate].
  destruct (_ && _); [discriminate|].
  unfold removeOrganizer. intros H. inversion H as [Hw']. clear H.
  set (w1 := set_eventOrganizers w _ _).
  assert (Hnone : forall a, In a (eventOrganizers w1) ->
                            ~ (assignment_eventId a = id /\ organizerId a = o)).
  { intros a Hin [Ha Ho]. unfold w1 in Hin.
    cbn [eventOrganizers set_eventOrganizers] in Hin.
    apply filter_In in Hin. destruct Hin as [_ Hin].
    rewrite Ha, Ho, !String.eqb_refl in Hin. discriminate Hin. }
  split; [exact Hnone|].
  intros user0 Hlog Hrole.
  assert (Hbar : barred w1 o user0 id).
  { split; [exact Hlog|]. rewrite Hrole.
    rewrite (getUser_id _ _ (proj2 Hlog)).
    destruct (existsb _ (getOrganizerEvents o w1)) eqn:E; [|reflexivity].
    exfalso. apply existsb_exists in E. destruct E as [e' [Hin Hid]].
    apply String.eqb_eq in Hid. unfold getOrganizerEvents in Hin.
    destruct (filter (fun a => String.eqb (organizerId a) o) (eventOrganizers w1))
      as [|a0 l] eqn:Ef; [contradiction|].
    apply filter_In in Hin. destruct Hin as [Hin _].
    apply In_defined in Hin. apply in_map_iff in Hin.
    destruct Hin as [eid [Hget Hin]]. apply in_map_iff in Hin.
    destruct Hin as [a [Ha Hin]]. rewrite <- Ef in Hin.
    apply filter_In in Hin. destruct Hin as [Hin Ho].
    apply String.eqb_eq in Ho.
    apply (Hnone a Hin). split; [|exact Ho].
    rewrite Ha, <- Hid. symmetry. exact (getEvent_id _ _ Hget). }
  split; [exact Hbar|].
  intros g gid s Hg Hev Hs Hreach.
  apply (@run_scan_barred w1 gid g s user0 Hg); [|exact Hreach].
  rewrite Hs, Hev. exact Hbar.
Qed.

Lemma removed_organizer_barred_witness :
  run (scan_program "g1" (scan_id "o1"))
      (snd (delete_api_events_id_organizers_id (Some "m1") "e1" "o1" Examples.venue))
  = (res 403 (json_error err_not_allowed),
     snd (delete_api_events_id_organizers_id (Some "m1") "e1" "o1" Examples.venue)).
Proof.
  destruct (@removed_organizer_barred Examples.venue (Some "m1") "e1" "o1"
              (snd (delete_api_events_id_organizers_id (Some "m1") "e1" "o1"
                                                       Examples.venue))
              eq_refl) as [_ Hbar].
  destruct (Hbar Examples.usher (conj eq_refl eq_refl) eq_refl) as [_ Hscan].
  apply (Hscan Examples.pending_guest "g1" (scan_id "o1"));
    [reflexivity|reflexivity|reflexivity|exact I].
Defined.

End OrganizersRest.

(** ** Capacity tiers: deletion *)

Module TiersRest.
Import Schema Storage StorageRest Async Routes Direct RoutesRest.
Import Spec SpecRest Session ListFacts ListFactsRest Capacity.

(** X19. Deleting a tier lifts the guest limit of its events.  DELETE
    /api/capacity-tiers/:id removes the tier row and nothing else: the
    events on the tier keep pointing at it and the quota rows for it stay.
    From then on no row answers to the tier id, so a creation request for
    the tier is refused as "invalid tier", and a user who may manage an
    event on the tier adds guests to it with no capacity check, however
    many it holds. *)
Theorem tier_delete_lifts_limit w session T w' :
  delete_api_capacity_tiers_id session T w = (ok success, w') ->
  getCapacityTier T w' = None
  /\ events w' = events w /\ userTierQuotas w' = userTierQuotas w
  /\ guests w' = guests w
  /\ (forall uid user b,
        logged_in w' uid user -> role user <> organizer ->
        eb_capacityTierId b = Some T -> Js.truthy_string (Some T) = true ->
        run (post_api_events (Some uid) b) w'
        = (res 400 (json_error err_tier_invalid), w'))
  /\ forall uid user id event b bytes,
      may_manage w' uid user id event ->
      event_capacityTierId event = Some T ->
      run (post_api_events_id_guests (Some uid) id b bytes) w'
      = run (add_guest user id b bytes) w'.
Proof.
  unfold delete_api_capacity_tiers_id, Direct.requireRole', refusal, bind, read, ret.
  destruct session as [uid|]; [|discriminate].
  destruct (Js.truthy_string (Some uid)); [|discriminate].
  destruct (getUser uid w) as [user|]; [|discriminate].
  destruct (existsb _ _); [|discriminate].
  destruct (getCapacityTier T w) as [tier|]; [|discriminate].
  unfold deleteCapacityTier. intros H. inversion H as [Hw']. clear H.
  set (w1 := set_capacityTiers w _ _).
  assert (Hgone : getCapacityTier T w1 = None).
  { unfold getCapacityTier, w1. cbn [capacityTiers set_capacityTiers].
    destruct (find _ _) as [x|] eqn:E; [|reflexivity].
    apply find_some in E. destruct E as [Hx Hid].
    apply filter_In in Hx. destruct Hx as [_ Hx].
    rewrite Hid in Hx. discriminate Hx. }
  split; [exact Hgone|]. repeat split.
  - intros uid0 user0 b Hlog Hrole HT Htruthy.
    unfold post_api_events.
    rewrite (run_requireRole _ _ Hlog)
      by (destruct (role user0); try reflexivity; congruence).
    rewrite HT, Htruthy. cbn [negb]. rewrite andb_false_r.
    cbn [run exec]. rewrite Hgone. reflexivity.
  - intros uid0 user0 id event b bytes Hm HT.
    rewrite (run_post_guest b bytes Hm).
    rewrite (@unbounded_limit w1 event); [reflexivity|].
    right. exists T. split; [exact HT|]. left. exact Hgone.
Qed.

Lemma tier_delete_lifts_limit_witness :
  guest_added (snd (delete_api_capacity_tiers_id (Some "s1") "small"
                                                 Examples.full_venue))
              "e1"
              (run (post_api_events_id_guests (Some "m1") "e1" Examples.walk_in
                                              Examples.some_bytes)
                   (snd (delete_api_capacity_tiers_id (Some "s1") "small"
                                                      Examples.full_venue))).
Proof.
  destruct (@tier_delete_lifts_limit Examples.full_venue (Some "s1") "small"
              (snd (delete_api_capacity_tiers_id (Some "s1") "small"
                                                 Examples.full_venue))
              eq_refl) as [_ [_ [_ [_ [_ Hadd]]]]].
  assert (Hm : may_manage (snd (delete_api_capacity_tiers_id (Some "s1") "small"
                                                             Examples.full_venue))
                          "m1" Examples.manager "e1" Examples.wedding).
  { split; [split; reflexivity|]. split; [discriminate|].
    split; [reflexivity|right; reflexivity]. }
  rewrite (Hadd "m1" Examples.manager "e1" Examples.wedding Examples.walk_in
                Examples.some_bytes Hm eq_refl).
  apply (@add_guest_adds _ Examples.manager "e1" Examples.walk_in
           Examples.some_bytes " Rana ").
  - reflexivity.
  - vm_compute. discriminate.
  - split; intros ? H; discriminate H.
  - reflexivity.
Defined.

(** *** The tiers the form offers *)

Import QuotaRest EventQuota.



End TiersRest.

(** ** Accounts: the hierarchy, deactivation and creation *)

Module AccountsRest.
Import Schema Storage StorageRest Async Routes Direct RoutesRest.
Import Spec SpecRest Session ListFacts ListFactsRest CheckIn.

(** X20. The role hierarchy.  On the four roles of the schema,
    [hasMinRole] compares the levels of [roleHierarchy]
    (super_admin 4, admin 3, event_manager 2, organizer 1); it is a total
    order on the roles; and [canBypassOwnership], which the routes use for
    their ownership checks, is [hasMinRole] with the minimum [admin]. *)
Theorem hasMinRole_order :
  (forall a b, hasMinRole a b = true <-> roleHierarchy b <= roleHierarchy a)
  /\ (forall a, hasMinRole a a = true)
  /\ (forall a b c, hasMinRole a b = true -> hasMinRole b c = true ->
                    hasMinRole a c = true)
  /\ (forall a b, hasMinRole a b = true \/ hasMinRole b a = true)
  /\ (forall a b, hasMinRole a b = true -> hasMinRole b a = true -> a = b)
  /\ (forall r, canBypassOwnership r = hasMinRole r admin).
Proof.
  split; [|split; [|split; [|split; [|split]]]].
  - intros [] []; vm_compute; split; intros H; try reflexivity; try discriminate H;
      try (exfalso; apply H; reflexivity); try (intros E; discriminate E).
  - intros []; reflexivity.
  - intros [] [] []; vm_compute; intros H1 H2; first [reflexivity | discriminate].
  - intros [] []; vm_compute; tauto.
  - intros [] []; vm_compute; intros H1 H2; first [reflexivity | discriminate].
  - intros []; reflexivity.
Qed.

Lemma canToggle_down current target :
  canToggle current target = true ->
  roleHierarchy (role target) < roleHierarchy (role current)
  /\ (role current = event_manager ->
      createdById target = Some (user_id current)).
Proof.
  unfold canToggle.
  destruct (role current) eqn:Ec, (role target) eqn:Et;
    cbn [role_eqb existsb orb andb negb roleHierarchy];
    intros H; try discriminate H; (split; [lia|]); intros E; try discriminate E.
  destruct (createdById target) as [c|]; [|discriminate H].
  cbn in H. apply String.eqb_eq in H. now subst c.
Qed.

(** X21. Accounts are changed down the hierarchy only.  A request to
    switch an account on or off, or to delete it, that is not answered with
    success leaves the store as it was.  When it is answered with success,
    the target is a stored account of a strictly lower level than the
    caller's (so never a super admin's, and never the caller's own), and
    for a caller who is an event manager it is an account that manager
    created. *)
Theorem account_changes_go_down w uid current id :
  logged_in w uid current ->
  let toggled := patch_api_users_id_toggle_active (Some uid) id w in
  let deleted := delete_api_users_id (Some uid) id w in
  ((exists r, fst toggled = ok r) \/ snd toggled = w)
  /\ (fst deleted = ok success \/ snd deleted = w)
  /\ ((exists r, fst toggled = ok r) \/ fst deleted = ok success ->
      exists target,
        getUser id w = Some target
        /\ roleHierarchy (role target) < roleHierarchy (role current)
        /\ hasMinRole (role target) (role current) = false
        /\ id <> uid
        /\ (role current = event_manager -> createdById target = Some uid)).
Proof.
  intros [Huid Huser] toggled deleted. subst toggled deleted.
  pose proof (getUser_id _ _ Huser) as Hcur.
  unfold patch_api_users_id_toggle_active, delete_api_users_id, requireAuth,
    refusal, bind, read, ret, canDelete.
  rewrite Huid, Huser.
  destruct (getUser id w) as [target|] eqn:Ht.
  2:{ cbn [fst snd]. split; [right; reflexivity|]. split; [right; reflexivity|].
      intros [[r H] | H]; discriminate H. }
  pose proof (getUser_id _ _ Ht) as Htid.
  destruct (String.eqb (user_id target) (user_id current)) eqn:Eself.
  { cbn [fst snd]. split; [right; reflexivity|]. split; [right; reflexivity|].
    intros [[r H] | H]; discriminate H. }
  destruct (canToggle current target) eqn:Ecan; cbn [negb].
  2:{ cbn [fst snd]. split; [right; reflexivity|]. split; [right; reflexivity|].
      intros [[r H] | H]; discriminate H. }
  destruct (canToggle_down _ _ Ecan) as [Hlt Hmine].
  split; [|split].
  - left. unfold updateUser. cbn [pu_name pu_password pu_eventQuota pu_isActive
                                  is_some orb fst]. eexists. reflexivity.
  - left. reflexivity.
  - intros _. exists target. split; [reflexivity|]. split; [exact Hlt|].
    split; [|split].
    + unfold hasMinRole, Js.or_int.
      destruct (role target), (role current); cbn in Hlt |- *; first [reflexivity | lia].
    + apply String.eqb_neq in Eself. congruence.
    + intros E. rewrite (Hmine E), Hcur. reflexivity.
Qed.

Lemma account_changes_go_down_witness :
  snd (delete_api_users_id (Some "m1") "s1" Examples.venue) = Examples.venue
  /\ snd (patch_api_users_id_toggle_active (Some "m1") "m1" Examples.venue)
     = Examples.venue.
Proof.
  assert (Hlog : logged_in Examples.venue "m1" Examples.manager)
    by (split; reflexivity).
  split.
  - destruct (@account_changes_go_down Examples.venue "m1" Examples.manager "s1"
                Hlog) as [_ [[Hok | Hsame] _]]; [discriminate Hok|exact Hsame].
  - destruct (@account_changes_go_down Examples.venue "m1" Examples.manager "m1"
                Hlog) as [[[r Hok] | Hsame] _]; [discriminate Hok|exact Hsame].
Defined.

(** *** Deactivation and creation *)

Lemma patch_user_keeps id data u :
  user_id (apply_user_patch id data u) = user_id u
  /\ username (apply_user_patch id data u) = username u
  /\ role (apply_user_patch id data u) = role u.
Proof.
  unfold apply_user_patch. destruct (String.eqb (user_id u) id); repeat split.
Qed.

(** What a successful toggle leaves. *)
Lemma toggle_effect w uid id r w' target :
  patch_api_users_id_toggle_active (Some uid) id w = (ok r, w') ->
  getUser id w = Some target ->
  let data :=
    mkPartialUser None None None
      (Some (Some (negb (Js.truthy_bool (user_isActive target))))) in
  w' = set_users w (map (apply_user_patch id data) (users w)) (drawn w)
  /\ r = Some (apply_user_patch id data target).
Proof.
  unfold patch_api_users_id_toggle_active, requireAuth, refusal, bind, read, ret.
  intros Hrun Ht. revert Hrun.
  destruct (Js.truthy_string (Some uid)); [|discriminate].
  destruct (getUser uid w) as [current|]; [|discriminate].
  rewrite Ht.
  destruct (String.eqb _ _); [discriminate|].
  destruct (negb (canToggle current target)); [discriminate|].
  unfold updateUser. cbn [pu_name pu_password pu_eventQuota pu_isActive is_some orb].
  rewrite find_map_stable
    by (intro; now rewrite (proj1 (patch_user_keeps id _ _))).
  unfold getUser in Ht. rewrite Ht. cbn [option_map].
  intros H. inversion H. split; reflexivity.
Qed.

Section Passwords.

Variable hashPassword : string -> string.

(** X22. Switching an account off blocks the next login, not the open
    session.  After a successful toggle of an account that was active, the
    stored row has [isActive = false] and is otherwise the same; a login
    with the account's name and password is refused with 403; and a scan
    by the account's session, which was allowed before, still is: for a
    pending guest it is answered SUCCESS.  No check-in route, and no
    [requireRole], reads [isActive]. *)
Theorem deactivation_keeps_sessions w uid id r w' target :
  patch_api_users_id_toggle_active (Some uid) id w = (ok r, w') ->
  getUser id w = Some target ->
  Js.truthy_bool (user_isActive target) = true ->
  (exists target',
      getUser id w' = Some target' /\ r = Some target'
      /\ user_isActive target' = Some false
      /\ role target' = role target /\ password target' = password target)
  /\ (forall pw,
        getUserByUsername (username target) w = Some target ->
        Js.truthy_string (Some (username target)) = true ->
        Js.truthy_string (Some pw) = true ->
        password target = hashPassword pw ->
        post_api_auth_login hashPassword
                            (mkLoginBody (Some (username target)) (Some pw)) w
        = (ok target, w)
        /\ post_api_auth_login hashPassword
                               (mkLoginBody (Some (username target)) (Some pw)) w'
           = (fail 403 login_inactive, w'))
  /\ (forall g gid s,
        scan_uid s = id -> getGuest gid w = Some g ->
        Js.truthy_bool (isCheckedIn g) = false ->
        scan_allowed w g s ->
        kind_of (fst (run (scan_program gid s) w')) = Some SUCCESS).
Proof.
  intros Hrun Ht Hactive.
  destruct (toggle_effect _ _ _ Hrun Ht) as [Hw' Hr].
  rewrite Hactive in Hw', Hr. cbn [negb] in Hw', Hr.
  set (data := mkPartialUser None None None (Some (Some false))) in *.
  pose proof (getUser_id _ _ Ht) as Hid.
  assert (Hnew : apply_user_patch id data target
                 = mkUser (user_id target) (username target) (password target)
                          (user_name target) (role target) (createdById target)
                          (eventQuota target) (Some false) (user_createdAt target)).
  { unfold apply_user_patch. rewrite Hid, String.eqb_refl. reflexivity. }
  assert (Hget : getUser id w' = Some (apply_user_patch id data target)).
  { rewrite Hw'. unfold getUser. cbn [users set_users].
    rewrite find_map_stable
      by (intro; now rewrite (proj1 (patch_user_keeps id _ _))).
    unfold getUser in Ht. rewrite Ht. reflexivity. }
  split; [|split].
  - exists (apply_user_patch id data target).
    split; [exact Hget|]. split; [exact Hr|]. rewrite Hnew. repeat split.
  - intros pw Hname Hn Hp Hpw.
    unfold post_api_auth_login, bind, read, ret. cbn [lb_username lb_password].
    rewrite Hn, Hp. cbn [andb]. split.
    + rewrite Hname, Hpw, String.eqb_refl, Hactive. reflexivity.
    + assert (Hfind : getUserByUsername (username target) w'
                      = Some (apply_user_patch id data target)).
      { rewrite Hw'. unfold getUserByUsername. cbn [users set_users].
        rewrite find_map_stable
          by (intro; now rewrite (proj1 (proj2 (patch_user_keeps id _ _)))).
        unfold getUserByUsername in Hname. rewrite Hname. reflexivity. }
      rewrite Hfind, Hnew. cbn [password user_isActive].
      rewrite Hpw, String.eqb_refl. reflexivity.
  - intros g gid s Hs Hg Hpend [[user Hmay] Hreach].
    assert (Huser : user = target).
    { destruct Hmay as [[_ Hu] _]. rewrite Hs, Ht in Hu. congruence. }
    subst user.
    assert (Hg' : getGuest gid w' = Some g) by (rewrite Hw'; exact Hg).
    assert (Hallowed : scan_allowed w' g s).
    { split.
      - exists (apply_user_patch id data target). split.
        + split; [exact (proj1 (proj1 Hmay))|]. rewrite Hs. exact Hget.
        + destruct Hmay as [_ Hrel]. rewrite Hnew. cbn [role user_id].
          rewrite Hw'. exact Hrel.
      - rewrite Hw'. exact Hreach. }
    destruct (@run_scan_success w' gid g s Hg' Hpend Hallowed) as [w1 [Hscan _]].
    rewrite Hscan. reflexivity.
Qed.





(** X27. Round trip from the account form to the login form.  When POST
    /api/users answers with the new account, a login with the name and the
    password of the request is answered with that account, unless the
    request switched the account off: the digest stored is the digest the
    login compares with, whatever the digest function is. *)
Theorem created_account_logs_in w session b u w' name pw :
  post_api_users hashPassword session b w = (ok u, w') ->
  ub_username b = Some name -> ub_password b = Some pw ->
  name <> "" -> pw <> "" ->
  post_api_auth_login hashPassword (mkLoginBody (Some name) (Some pw)) w'
  = if Js.truthy_bool (match ub_isActive b with Some a => a | None => Some true end)
    then (ok u, w')
    else (fail 403 login_inactive, w').
Proof.
  intros Hrun Hn Hp Hname Hpw.
  assert (Hstore : exists current,
             store_user hashPassword current b w = (ok u, w')).
  { revert Hrun. unfold post_api_users, requireAuth, refusal, bind at 1, read, ret.
    destruct session as [uid|]; [|discriminate].
    destruct (Js.truthy_string (Some uid)); [|discriminate].
    destruct (getUser uid w) as [current|]; [|discriminate].
    destruct (_ && _); [discriminate|].
    destruct (_ && _); [discriminate|].
    destruct (_ && _); [discriminate|].
    intros H. exists current. exact H. }
  destruct Hstore as [current Hstore]. revert Hstore.
  unfold store_user, refusal, bind, read, ret. rewrite Hn, Hp.
  destruct (ub_name b) as [fullName|]; [|discriminate].
  destruct (getUserByUsername name w) eqn:Hfree; [discriminate|].
  unfold createUser. cbn [iu_username].
  destruct (existsb _ (users w)) eqn:Hno; [discriminate|].
  destruct (negb _); [discriminate|].
  intros H. inversion H as [[Hu Hw']]. clear H.
  unfold post_api_auth_login, bind, read, ret. cbn [lb_username lb_password].
  assert (Htn : Js.truthy_string (Some name) = true)
    by (cbn; destruct (String.eqb name "") eqn:E;
        [apply String.eqb_eq in E; contradiction|reflexivity]).
  assert (Htp : Js.truthy_string (Some pw) = true)
    by (cbn; destruct (String.eqb pw "") eqn:E;
        [apply String.eqb_eq in E; contradiction|reflexivity]).
  rewrite Htn, Htp. cbn [andb].
  unfold getUserByUsername. cbn [users set_users].
  rewrite find_app_none by exact Hfree.
  cbn [find username]. rewrite String.eqb_refl.
  cbn [password user_isActive iu_password iu_isActive]. rewrite String.eqb_refl.
  cbn [negb]. destruct (Js.truthy_bool _); reflexivity.
Qed.

End Passwords.

Lemma deactivation_keeps_sessions_witness :
  post_api_auth_login ExamplesRest.digest
                      (mkLoginBody (Some "usher") (Some "door"))
                      (snd (patch_api_users_id_toggle_active
                              (Some "m1") "o1" ExamplesRest.venue_with_passwords))
  = (fail 403 login_inactive,
     snd (patch_api_users_id_toggle_active
            (Some "m1") "o1" ExamplesRest.venue_with_passwords))
  /\ kind_of (fst (run (scan_program "g1" (scan_id "o1"))
                       (snd (patch_api_users_id_toggle_active
                               (Some "m1") "o1" ExamplesRest.venue_with_passwords))))
     = Some SUCCESS.
Proof.
  destruct (@deactivation_keeps_sessions ExamplesRest.digest
              ExamplesRest.venue_with_passwords "m1" "o1"
              (Some (mkUser "o1" "usher" (ExamplesRest.digest "door") "Omar"
                            organizer (Some "m1") None (Some false) None))
              (snd (patch_api_users_id_toggle_active
                      (Some "m1") "o1" ExamplesRest.venue_with_passwords))
              (mkUser "o1" "usher" (ExamplesRest.digest "door") "Omar" organizer
                      (Some "m1") None (Some true) None)
              eq_refl eq_refl eq_refl) as [_ [Hlogin Hscan]].
  split.
  - apply (Hlogin "door"); reflexivity.
  - apply (Hscan Examples.pending_guest "g1" (scan_id "o1"));
      [reflexivity|reflexivity|reflexivity|].
    split; [|exact I].
    eexists. split; [split; reflexivity|reflexivity].
Defined.


Lemma created_account_logs_in_witness :
  exists u w',
    post_api_users ExamplesRest.digest (Some "o1") ExamplesRest.escalation
                   Examples.venue = (ok u, w')
    /\ post_api_auth_login ExamplesRest.digest
                           (mkLoginBody (Some "root2") (Some "secret")) w'
       = (ok u, w').
Proof.
  eexists. eexists. split; [reflexivity|].
  apply (@created_account_logs_in ExamplesRest.digest Examples.venue (Some "o1")
           ExamplesRest.escalation _ _ "root2" "secret" eq_refl eq_refl eq_refl);
    discriminate.
Defined.

End AccountsRest.
